(** * BlazePalm palm-region decoder: a shallow embedding

    This development embeds [hand_detectors/blazepalm/blazepalm.py] and
    states the properties of its post-processing pipeline: sigmoid
    thresholding, anchor decoding, the choice of one candidate, the
    oriented triangle and the affine recovery of the box.

    Numbers.  numpy floating-point values are embedded as [np_float]:
    a real number, one of the two infinities, or NaN.  Finite arithmetic
    is exact; the special values follow the IEEE 754 rules numpy applies
    (division by zero gives an infinity or NaN and raises nothing).
    Rounding, overflow to infinity, and the sign of zero are outside the
    model.

    Effects.  The interpreter, [print], the suppression routine, the
    triangle construction and the two matrix routines are recorded in an
    event log carried by a small writer-and-exception monad, so that
    "what ran" can be stated. *)

From Stdlib Require Import Reals Lra String Bool Arith Lia List Permutation.
Import ListNotations.

Local Open Scope R_scope.

(* ================================================================== *)
(** ** numpy floating-point values *)

Module NpFloat.

Inductive np_float : Type :=
| Fin (r : R)
| PInf
| NInf
| NaN.

Definition Rltb (x y : R) : bool := if Rlt_dec x y then true else false.
Definition Rleb (x y : R) : bool := if Rle_dec x y then true else false.

Definition is_nan (x : np_float) : bool :=
  match x with NaN => true | _ => false end.

(** The infinity with the sign of [r]; [0 * inf] and [0 / 0] are NaN. *)
Definition inf_of_sign (r : R) : np_float :=
  if Rlt_dec 0 r then PInf else if Rlt_dec r 0 then NInf else NaN.

Definition np_neg (x : np_float) : np_float :=
  match x with
  | Fin r => Fin (- r)
  | PInf => NInf
  | NInf => PInf
  | NaN => NaN
  end.

Definition np_add (x y : np_float) : np_float :=
  match x, y with
  | NaN, _ | _, NaN => NaN
  | Fin a, Fin b => Fin (a + b)
  | PInf, NInf | NInf, PInf => NaN
  | PInf, _ | _, PInf => PInf
  | NInf, _ | _, NInf => NInf
  end.

Definition np_sub (x y : np_float) : np_float := np_add x (np_neg y).

Definition np_mul (x y : np_float) : np_float :=
  match x, y with
  | NaN, _ | _, NaN => NaN
  | Fin a, Fin b => Fin (a * b)
  | Fin a, PInf | PInf, Fin a => inf_of_sign a
  | Fin a, NInf | NInf, Fin a => inf_of_sign (- a)
  | PInf, PInf | NInf, NInf => PInf
  | PInf, NInf | NInf, PInf => NInf
  end.

(** numpy division: a zero divisor raises nothing. *)
Definition np_div (x y : np_float) : np_float :=
  match x, y with
  | NaN, _ | _, NaN => NaN
  | Fin a, Fin b => if Req_dec_T b 0 then inf_of_sign a else Fin (a / b)
  | Fin _, PInf | Fin _, NInf => Fin 0
  | PInf, Fin b => if Rlt_dec b 0 then NInf else PInf
  | NInf, Fin b => if Rlt_dec b 0 then PInf else NInf
  | PInf, PInf | PInf, NInf | NInf, PInf | NInf, NInf => NaN
  end.

Definition np_sqrt (x : np_float) : np_float :=
  match x with
  | Fin r => if Rlt_dec r 0 then NaN else Fin (sqrt r)
  | PInf => PInf
  | NInf => NaN
  | NaN => NaN
  end.

Definition np_exp (x : np_float) : np_float :=
  match x with
  | Fin r => Fin (exp r)
  | PInf => PInf
  | NInf => Fin 0
  | NaN => NaN
  end.

(** [x < y]; every comparison with NaN is false. *)
Definition np_lt (x y : np_float) : bool :=
  match x, y with
  | NaN, _ | _, NaN => false
  | Fin a, Fin b => Rltb a b
  | NInf, NInf | PInf, _ | _, NInf => false
  | NInf, _ | _, PInf => true
  end.

Definition np_le (x y : np_float) : bool :=
  match x, y with
  | NaN, _ | _, NaN => false
  | Fin a, Fin b => Rleb a b
  | NInf, _ | _, PInf => true
  | PInf, _ | _, NInf => false
  end.

Definition np_gt (x y : np_float) : bool := np_lt y x.

(** Python's builtin [max(a, b)]: [b] replaces [a] only when [b > a]. *)
Definition py_max (a b : np_float) : np_float :=
  if np_gt b a then b else a.

(** [np.minimum] / [np.maximum] as used by the [min()] and [max()]
    reductions: NaN propagates. *)
Definition np_minimum (a b : np_float) : np_float :=
  if is_nan a then a else if is_nan b then b else if np_lt b a then b else a.

Definition np_maximum (a b : np_float) : np_float :=
  if is_nan a then a else if is_nan b then b else if np_lt a b then b else a.

End NpFloat.
Export NpFloat.

Declare Scope np_scope.
Delimit Scope np_scope with np.
Bind Scope np_scope with np_float.
Infix "+" := np_add : np_scope.
Infix "-" := np_sub : np_scope.
Infix "*" := np_mul : np_scope.
Infix "/" := np_div : np_scope.
Notation "- x" := (np_neg x) : np_scope.
Infix ">?" := np_gt (at level 70, no associativity) : np_scope.
Infix "<=?" := np_le (at level 70, no associativity) : np_scope.

Coercion Fin : R >-> np_float.

(* ================================================================== *)
(** ** Arrays, exceptions and the effect log *)

Definition vec2 : Type := (np_float * np_float)%type.
Definition array1 : Type := list np_float.
Definition array2 : Type := list (list np_float).

(** A (3, 2) array of points, as built by [np.float32([a, b, c])]. *)
Definition triangle : Type := (vec2 * vec2 * vec2)%type.

(** An image tensor: its shape and its values in row-major order. *)
Record ndarray : Type := mk_ndarray {
  shape : list nat;
  data : list np_float
}.

Inductive exn : Type :=
| AssertionError (msg : string)
| ValueError (msg : string)
| IndexError (msg : string)
| LinAlgError (msg : string).

Inductive tensor_id : Type := OutReg | OutClf.

Inductive event : Type :=
| EvSetTensor (img : ndarray)
| EvInvoke
| EvGetTensor (out : tensor_id)
| EvPrint (s : string)
| EvNMS (boxes : array2) (probs : array1)
| EvGetTriangle (kp0 kp2 : vec2) (dist : np_float)
| EvGetAffineTransform (src dst : triangle)
| EvLinalgInv (m : array2).

Inductive result (A : Type) : Type :=
| Return (a : A)
| Raise (e : exn).
Arguments Return {A} a.
Arguments Raise {A} e.

(** A computation: the events it performed, in order, and how it ended. *)
Definition M (A : Type) : Type := (list event * result A)%type.

Definition ret {A : Type} (a : A) : M A := ([], Return a).
Definition raise {A : Type} (e : exn) : M A := ([], Raise e).
Definition lift {A : Type} (r : result A) : M A := ([], r).
Definition emit (ev : event) : M unit := ([ev], Return tt).

Definition bind {A B : Type} (m : M A) (f : A -> M B) : M B :=
  match m with
  | (l, Raise e) => (l, Raise e)
  | (l, Return a) => let (l', r) := f a in (l ++ l', r)
  end.

Declare Scope monad_scope.
Delimit Scope monad_scope with monad.
Notation "x <- m ;; k" := (bind m (fun x => k))
  (at level 61, m at next level, right associativity) : monad_scope.
Notation "' p <- m ;; k" := (bind m (fun x => match x with p => k end))
  (at level 61, p pattern, m at next level, right associativity) : monad_scope.
Notation "m ;;; k" := (bind m (fun _ => k))
  (at level 61, right associativity) : monad_scope.

Definition py_assert (b : bool) (msg : string) : M unit :=
  if b then ret tt else raise (AssertionError msg).

(** [xs[i]] for a non-negative index. *)
Definition index {A : Type} (xs : list A) (i : nat) : result A :=
  match nth_error xs i with
  | Some x => Return x
  | None => Raise (IndexError "index is out of bounds")
  end.

(** [compress mask xs] keeps the elements of [xs] whose mask bit is set. *)
Fixpoint compress {A : Type} (mask : list bool) (xs : list A) : list A :=
  match mask, xs with
  | b :: mask', x :: xs' => if b then x :: compress mask' xs' else compress mask' xs'
  | _, _ => []
  end.

(** [xs[mask]] with a boolean mask: the lengths must agree, except that
    numpy does not check a mask without any element, which selects
    nothing from an axis of any length. *)
Definition mask_index {A : Type} (xs : list A) (mask : list bool) : result (list A) :=
  if Nat.eqb (length mask) 0 || Nat.eqb (length mask) (length xs)
  then Return (compress mask xs)
  else Raise (IndexError "boolean index did not match indexed array").

(** [ndarray.min()] and [ndarray.max()]: an empty array has no minimum. *)
Definition np_min (a : ndarray) : result np_float :=
  match data a with
  | [] => Raise (ValueError "zero-size array to reduction operation minimum which has no identity")
  | x :: xs => Return (fold_left np_minimum xs x)
  end.

Definition np_max (a : ndarray) : result np_float :=
  match data a with
  | [] => Raise (ValueError "zero-size array to reduction operation maximum which has no identity")
  | x :: xs => Return (fold_left np_maximum xs x)
  end.

Definition shape_eqb (s t : list nat) : bool :=
  if list_eq_dec Nat.eq_dec s t then true else false.

(** [a.reshape(-1, 2)]: consecutive pairs; an odd length cannot be reshaped. *)
Fixpoint reshape2 (a : array1) : result (list vec2) :=
  match a with
  | [] => Return []
  | x :: y :: rest =>
      match reshape2 rest with
      | Return ps => Return ((x, y) :: ps)
      | Raise e => Raise e
      end
  | [_] => Raise (ValueError "cannot reshape array into shape (2)")
  end.

(** Vector arithmetic on points. *)
Definition vadd (u v : vec2) : vec2 := (fst u + fst v, snd u + snd v)%np.
Definition vsub (u v : vec2) : vec2 := (fst u - fst v, snd u - snd v)%np.
Definition vscale (u : vec2) (k : np_float) : vec2 := (fst u * k, snd u * k)%np.
Definition vdiv (u : vec2) (k : np_float) : vec2 := (fst u / k, snd u / k)%np.

(** [np.linalg.norm] of a 2-vector. *)
Definition linalg_norm (u : vec2) : np_float :=
  np_sqrt (fst u * fst u + snd u * snd u)%np.

(** Matrices as lists of rows. *)
Definition transpose (m : array2) : array2 :=
  match m with
  | [] => []
  | r :: _ => map (fun j => map (fun row => nth j row (Fin 0)) m) (seq 0 (length r))
  end.

Definition dot (u v : array1) : np_float :=
  fold_left np_add (map (fun p => (fst p * snd p)%np) (combine u v)) (Fin 0).

(** [a @ b]. *)
Definition matmul (a b : array2) : array2 :=
  map (fun r => map (fun c => dot r c) (transpose b)) a.

(* ================================================================== *)
(** ** External numerical routines

    [cv2.getAffineTransform] and [np.linalg.inv] belong to OpenCV and
    numpy.  For finite input they are embedded by what they compute in
    exact arithmetic: the solution of the linear system by Cramer's rule.
    A singular system makes OpenCV return the zero matrix and numpy raise
    [LinAlgError].

    A triangle with a NaN or an infinite coordinate has no solution to
    speak of: what OpenCV returns for it is what its elimination leaves.
    So for such a triangle the elimination itself is embedded, as
    [cv::solve] runs it on the 6x6 system: LU with partial pivoting, where
    a row replaces the pivot row only if its entry compares greater (a NaN
    never does), a pivot below [DBL_EPSILON * 100] ends the elimination,
    and the answer is then the zero matrix. *)

Definition np_is_zero (x : np_float) : bool :=
  match x with
  | Fin r => if Req_dec_T r 0 then true else false
  | _ => false
  end.

Definition det3 (a b c d e f g h i : np_float) : np_float :=
  (a * (e * i - f * h) - b * (d * i - f * g) + c * (d * h - e * g))%np.

Definition np_abs (x : np_float) : np_float :=
  match x with
  | Fin r => Fin (Rabs r)
  | PInf | NInf => PInf
  | NaN => NaN
  end.

Definition np_finite (x : np_float) : bool :=
  match x with
  | Fin _ => true
  | _ => false
  end.

(** [DBL_EPSILON * 100]: a pivot below it counts as zero. *)
Definition LU_eps : R := 100 / 4503599627370496.

(** A row of the system with its right-hand side. *)
Definition lu_row : Type := (list np_float * np_float)%type.

Definition lu_entry (r : lu_row) (i : nat) : np_float := nth i (fst r) NaN.

(** The pivot search in column [i]: row [k] with entry [vk] is the
    current choice, the rows from [j] on are still to be looked at. *)
Fixpoint lu_argmax (i k : nat) (vk : np_float) (j : nat) (rows : list lu_row) : nat :=
  match rows with
  | [] => k
  | r :: rows' =>
      if (np_abs (lu_entry r i) >? np_abs vk)%np
      then lu_argmax i j (lu_entry r i) (S j) rows'
      else lu_argmax i k vk (S j) rows'
  end.

(** The first row and row [k] exchanged. *)
Definition lu_swap (k : nat) (rows : list lu_row) : list lu_row :=
  match rows, k with
  | r0 :: rest, S k' =>
      match nth_error rest k' with
      | Some rk => rk :: firstn k' rest ++ r0 :: skipn (S k') rest
      | None => rows
      end
  | _, _ => rows
  end.

(** [A[j][k] += alpha * A[i][k]] for the columns [k > i], and the same
    on the right-hand side, with [alpha = A[j][i] * (-1 / A[i][i])]. *)
Definition lu_eliminate (i : nat) (p r : lu_row) : lu_row :=
  let d := (Fin (-1) / lu_entry p i)%np in
  let alpha := (lu_entry r i * d)%np in
  (map (fun kv => if Nat.ltb i (fst kv)
                  then (snd kv + alpha * lu_entry p (fst kv))%np
                  else snd kv)
       (combine (seq 0 (length (fst r))) (fst r)),
   (snd r + alpha * snd p)%np).

(** The elimination from column [i] on; [n] bounds the rows left.
    [None]: a pivot below [LU_eps]. *)
Fixpoint lu_forward (n i : nat) (rows : list lu_row) : option (list lu_row) :=
  match n, rows with
  | S n', r0 :: rest =>
      match lu_swap (lu_argmax i 0 (lu_entry r0 i) 1 rest) rows with
      | p :: others =>
          if np_lt (np_abs (lu_entry p i)) (Fin LU_eps)
          then None
          else option_map (cons p)
                 (lu_forward n' (S i) (map (lu_eliminate i p) others))
      | [] => None
      end
  | _, [] => Some []
  | O, _ :: _ => None
  end.

(** Back substitution on the rows the elimination left, the first of
    which is row [i]. *)
Fixpoint lu_back (i : nat) (rows : list lu_row) : list np_float :=
  match rows with
  | [] => []
  | r :: rows' =>
      let xs := lu_back (S i) rows' in
      let s := fold_left (fun s kx => (s - lu_entry r (fst kx) * snd kx)%np)
                         (combine (seq (S i) (length xs)) xs) (snd r) in
      (s / lu_entry r i)%np :: xs
  end.

(** [cv::solve(A, B, X)] with [DECOMP_LU]: the solution, or zeros when
    the elimination stopped. *)
Definition cv_solve (rows : list lu_row) : list np_float :=
  match lu_forward (length rows) 0 rows with
  | Some upper => lu_back 0 upper
  | None => map (fun _ => Fin 0) rows
  end.

(** The 2x3 matrix sending the three points of [src] to those of [dst]. *)
Definition cv2_getAffineTransform (src dst : triangle) : array2 :=
  let '((x0, y0), (x1, y1), (x2, y2)) := src in
  let '((u0, v0), (u1, v1), (u2, v2)) := dst in
  if forallb np_finite [x0; y0; x1; y1; x2; y2]
  then
    let D := det3 x0 y0 (Fin 1) x1 y1 (Fin 1) x2 y2 (Fin 1) in
    if np_is_zero D
    then [[Fin 0; Fin 0; Fin 0]; [Fin 0; Fin 0; Fin 0]]
    else
      [[(det3 u0 y0 (Fin 1) u1 y1 (Fin 1) u2 y2 (Fin 1) / D)%np;
        (det3 x0 u0 (Fin 1) x1 u1 (Fin 1) x2 u2 (Fin 1) / D)%np;
        (det3 x0 y0 u0 x1 y1 u1 x2 y2 u2 / D)%np];
       [(det3 v0 y0 (Fin 1) v1 y1 (Fin 1) v2 y2 (Fin 1) / D)%np;
        (det3 x0 v0 (Fin 1) x1 v1 (Fin 1) x2 v2 (Fin 1) / D)%np;
        (det3 x0 y0 v0 x1 y1 v1 x2 y2 v2 / D)%np]]
  else
    match cv_solve
            [([x0; y0; Fin 1; Fin 0; Fin 0; Fin 0], u0);
             ([Fin 0; Fin 0; Fin 0; x0; y0; Fin 1], v0);
             ([x1; y1; Fin 1; Fin 0; Fin 0; Fin 0], u1);
             ([Fin 0; Fin 0; Fin 0; x1; y1; Fin 1], v1);
             ([x2; y2; Fin 1; Fin 0; Fin 0; Fin 0], u2);
             ([Fin 0; Fin 0; Fin 0; x2; y2; Fin 1], v2)] with
    | [a; b; c; d; e; f] => [[a; b; c]; [d; e; f]]
    | _ => [[Fin 0; Fin 0; Fin 0]; [Fin 0; Fin 0; Fin 0]]
    end.

(** [np.linalg.inv] at the one size the decoder uses, 3x3. *)
Definition linalg_inv (m : array2) : result array2 :=
  match m with
  | [[a; b; c]; [d; e; f]; [g; h; i]] =>
      let D := det3 a b c d e f g h i in
      if np_is_zero D
      then Raise (LinAlgError "Singular matrix")
      else Return
        [[((e * i - f * h) / D)%np; ((c * h - b * i) / D)%np; ((b * f - c * e) / D)%np];
         [((f * g - d * i) / D)%np; ((a * i - c * g) / D)%np; ((c * d - a * f) / D)%np];
         [((d * h - e * g) / D)%np; ((b * g - a * h) / D)%np; ((a * e - b * d) / D)%np]]
  | _ => Raise (LinAlgError "Last 2 dimensions of the array must be square")
  end.

(* ================================================================== *)
(** ** The detector object *)

Definition CONFINDENCE_THRESHOLD : np_float := Fin 0.5.

Record debug_info : Type := mk_debug_info {
  detection_candidates : array2;
  anchor_candidates : array2;
  selected_box_id : nat
}.

(** The attributes [__init__] sets.  [interp_palm] stands for the loaded
    interpreter: for an input tensor it gives the regression tensor
    ([get_tensor(out_reg_idx)[0]], one row per anchor) and the logits
    ([get_tensor(out_clf_idx)[0, :, 0]]). *)
Record BlazePalm : Type := mk_BlazePalm {
  box_shift : np_float;
  box_enlarge : np_float;
  interp_palm : ndarray -> array2 * array1;
  anchors : array2;
  R90 : array2;
  _target_triangle : triangle;
  _target_box : array2
}.

Definition __init__ (box_enlarge box_shift : np_float)
    (interp : ndarray -> array2 * array1) (anchors_csv : array2) : BlazePalm :=
  {| box_shift := box_shift;
     box_enlarge := box_enlarge;
     interp_palm := interp;
     anchors := anchors_csv;
     R90 := [[Fin 0; Fin 1]; [Fin (-1); Fin 0]];
     _target_triangle :=
       ((Fin 128, Fin 128), (Fin 128, Fin 0), (Fin 0, Fin 128));
     _target_box :=
       [[Fin 0; Fin 0; Fin 1];
        [Fin 256; Fin 0; Fin 1];
        [Fin 256; Fin 256; Fin 1];
        [Fin 0; Fin 256; Fin 1]] |}.

(** [BlazePalm()]: the defaults [box_enlarge=1.5, box_shift=0.2]. *)
Definition BlazePalm_default (interp : ndarray -> array2 * array1)
    (anchors_csv : array2) : BlazePalm :=
  __init__ (Fin 1.5) (Fin 0.2) interp anchors_csv.

(** [u @ m] for a 2-vector [u]. *)
Definition vec_matmul (u : vec2) (m : array2) : vec2 :=
  match matmul [[fst u; snd u]] m with
  | [[a; b]] => (a, b)
  | _ => (NaN, NaN)
  end.

(** The [np.float32] cast of the result is rounding and outside the
    model: a [dist] below the float32 resolution at [kp2] leaves the code
    with three equal points.  What is stated of [pred_bbox] is therefore
    stated for the triangle [detect_hand] returned. *)
Definition _get_triangle (self : BlazePalm) (kp0 kp2 : vec2) (dist : np_float)
    : triangle :=
  let dir_v := vsub kp2 kp0 in
  let dir_v := vdiv dir_v (linalg_norm dir_v) in
  let dir_v_r := vec_matmul dir_v (transpose (R90 self)) in
  (kp2, vadd kp2 (vscale dir_v dist), vadd kp2 (vscale dir_v_r dist)).

Definition _triangle_to_bbox (source : triangle) : list vec2 :=
  let '(s0, s1, s2) := source in
  [vadd (vsub s2 s0) s1;
   vsub (vadd s1 s0) s2;
   vsub (vsub (vscale s0 (Fin 3)) s1) s2;
   vadd (vsub s2 s1) s0].

Definition _im_normalize (img : ndarray) : ndarray :=
  {| shape := shape img;
     data := map (fun v => (Fin 2 * ((v / Fin 255) - Fin 0.5))%np) (data img) |}.

(** In exact arithmetic.  float32 rounds the result, to exactly 1, 0 or
    0.5 for some finite logits: which logits pass the filter is therefore
    stated through [_sigm] itself, never through the sign of the logit
    alone. *)
Definition _sigm (x : np_float) : np_float :=
  (Fin 1 / (Fin 1 + np_exp (- x)))%np.

Definition _pad1 (x : array2) : array2 :=
  map (fun r => r ++ [Fin 1]) x.

(* ================================================================== *)
(** ** The decoder *)

Local Open Scope monad_scope.

(** One row of [moved_candidate_detect]: the first two columns of a
    candidate moved by its anchor's first two columns times 256.  Rows
    narrower than two columns are outside the interpreter's contract. *)
Definition move_row (det anchor : array1) : result array1 :=
  match firstn 2 det, firstn 2 anchor with
  | [dx; dy], [ax; ay] =>
      Return ((dx + ax * Fin 256)%np :: (dy + ay * Fin 256)%np :: skipn 2 det)
  | _, _ => Raise (ValueError "operands could not be broadcast together")
  end.

Fixpoint move_rows (dets ancs : array2) : result array2 :=
  match dets, ancs with
  | d :: dets', a :: ancs' =>
      match move_row d a, move_rows dets' ancs' with
      | Return r, Return rs => Return (r :: rs)
      | Raise e, _ => Raise e
      | _, Raise e => Raise e
      end
  | [], [] => Return []
  | _, _ => Raise (ValueError "operands could not be broadcast together")
  end.

(** [dx, dy, w, h = row[:4]]. *)
Definition unpack4 (row : array1) : result (np_float * np_float * np_float * np_float) :=
  match firstn 4 row with
  | [dx; dy; w; h] => Return (dx, dy, w, h)
  | _ => Raise (ValueError "not enough values to unpack (expected 4)")
  end.

(** [anchor[:2] * 256] as a point. *)
Definition anchor_center (anchor : array1) : result vec2 :=
  match firstn 2 anchor with
  | [ax; ay] => Return ((ax * Fin 256)%np, (ay * Fin 256)%np)
  | _ => Raise (ValueError "operands could not be broadcast together")
  end.

Definition head_id (box_ids : list nat) : result nat :=
  match box_ids with
  | i :: _ => Return i
  | [] => Raise (IndexError "list index out of range")
  end.

Definition tri_map (f : vec2 -> vec2) (t : triangle) : triangle :=
  let '(a, b, c) := t in (f a, f b, f c).

(** The middle of [pred_bbox].  [scale = max(img.shape) / 256]. *)
Definition img_scale (img : ndarray) : np_float :=
  (Fin (INR (list_max (shape img))) / Fin 256)%np.

(** [Mtr = self._pad1(Mtr.T).T] followed by [Mtr[2, :2] = 0]: the
    [0, 0, 1] row that makes the matrix square. *)
Definition square_affine (Mtr : array2) : array2 :=
  let Mtr := transpose (_pad1 (transpose Mtr)) in
  match Mtr with
  | [r0; r1; r2] => [r0; r1; map (fun _ => Fin 0) (firstn 2 r2) ++ skipn 2 r2]
  | _ => Mtr
  end.

Definition scaled_source (source : triangle) (scale : np_float) : triangle :=
  tri_map (fun p => vscale p scale) source.

Definition pred_bbox_Mtr (self : BlazePalm) (source : triangle) (scale : np_float)
    : array2 :=
  square_affine
    (cv2_getAffineTransform (scaled_source source scale) (_target_triangle self)).

(** [(pts @ Minv.T)[:, :2]]. *)
Definition project (pts Minv : array2) : array2 :=
  map (firstn 2) (matmul pts (transpose Minv)).

(** [box_orig = (self._target_box @ Minv.T)[:, :2]] and
    [box_orig -= pad[::-1]]. *)
Definition project_box (self : BlazePalm) (Minv : array2) (pad : list nat) : array2 :=
  let box_orig := project (_target_box self) Minv in
  let pad_rev := map (fun p => Fin (INR p)) (rev pad) in
  map (fun row => map (fun p => (fst p - snd p)%np) (combine row pad_rev)) box_orig.

Section Decoder.

(** [dependencies/non_maximum_suppression.py]: for boxes and their
    probabilities, the indices picked, best first. *)
Variable non_max_suppression_fast : array2 -> array1 -> list nat.

(** [np.pad(img, ((p0, p0), (p1, p1), (0, 0)), mode='constant')] and
    [cv2.resize(img, (256, 256))]: their pixels reach only the network.
    They stand for calls that return: OpenCV's refusal of an image without
    pixels is outside the model, and what is stated of [preprocess_img]
    and its callers is stated of the calls that return. *)
Variable np_pad : ndarray -> nat -> nat -> ndarray.
Variable cv2_resize : ndarray -> nat -> nat -> ndarray.

(** Lines 129-174 of [detect_hand]: from the raw regression rows
    [out_reg] and the raw logits [out_clf] to the triangle. *)
Definition detect_hand_decode (self : BlazePalm) (out_reg : array2)
    (out_clf : array1)
    : M (option triangle * option (list vec2) * option debug_info) :=
  (* finding the best prediction *)
  let probabilities := map _sigm out_clf in
  let detecion_mask := map (fun p => (p >? CONFINDENCE_THRESHOLD)%np) probabilities in
  candidate_detect <- lift (mask_index out_reg detecion_mask) ;;
  candidate_anchors <- lift (mask_index (anchors self) detecion_mask) ;;
  probabilities <- lift (mask_index probabilities detecion_mask) ;;
  if Nat.eqb (length candidate_detect) 0
  then
    emit (EvPrint "No hands found") ;;;
    ret (None, None, None)
  else
    (* the boxes must be moved by the corresponding anchor first *)
    moved_candidate_detect <- lift (move_rows candidate_detect candidate_anchors) ;;
    let boxes := map (firstn 4) moved_candidate_detect in
    emit (EvNMS boxes probabilities) ;;;
    let box_ids := non_max_suppression_fast boxes probabilities in
    (* pick the first detected hand *)
    box_ids <- lift (head_id box_ids) ;;
    (* bounding box offsets, width and height *)
    row <- lift (index candidate_detect box_ids) ;;
    '(dx, dy, w, h) <- lift (unpack4 row) ;;
    anchor <- lift (index candidate_anchors box_ids) ;;
    center_wo_offst <- lift (anchor_center anchor) ;;
    (* 7 initial keypoints *)
    deltas <- lift (reshape2 (skipn 4 row)) ;;
    let keypoints := map (vadd center_wo_offst) deltas in
    let side := (py_max w h * box_enlarge self)%np in
    kp0 <- lift (index keypoints 0) ;;
    kp2 <- lift (index keypoints 2) ;;
    emit (EvGetTriangle kp0 kp2 side) ;;;
    let source := _get_triangle self kp0 kp2 side in
    let source := tri_map (fun p => vsub p (vscale (vsub kp0 kp2) (box_shift self))) source in
    let debug := {| detection_candidates := candidate_detect;
                    anchor_candidates := candidate_anchors;
                    selected_box_id := box_ids |} in
    ret (Some source, Some keypoints, Some debug).

Definition detect_hand (self : BlazePalm) (img_norm : ndarray)
    : M (option triangle * option (list vec2) * option debug_info) :=
  lo <- lift (np_min img_norm) ;;
  in_range <- (if (Fin (-1) <=? lo)%np
               then hi <- lift (np_max img_norm) ;; ret (hi <=? Fin 1)%np
               else ret false) ;;
  py_assert in_range "img_norm should be in range [-1, 1]" ;;;
  py_assert (shape_eqb (shape img_norm) [256; 256; 3]%nat)
            "img_norm shape must be (256, 256, 3)" ;;;
  (* predict hand location and 7 initial landmarks *)
  emit (EvSetTensor img_norm) ;;;
  emit EvInvoke ;;;
  emit (EvGetTensor OutReg) ;;;
  let out_reg := fst (interp_palm self img_norm) in
  emit (EvGetTensor OutClf) ;;;
  let out_clf := snd (interp_palm self img_norm) in
  detect_hand_decode self out_reg out_clf.

(** [pad = (shape.max() - shape[:2]).astype('uint32') // 2] and the
    padded, resized and normalised image. *)
Definition preprocess_img (img : ndarray) : M (ndarray * ndarray * list nat) :=
  match shape img with
  | [] => raise (ValueError "zero-size array to reduction operation maximum which has no identity")
  | _ :: _ =>
      let m := list_max (shape img) in
      let pad := map (fun d => Nat.div (m - d) 2) (firstn 2 (shape img)) in
      pad0 <- lift (index pad 0) ;;
      pad1 <- lift (index pad 1) ;;
      (if Nat.eqb (length (shape img)) 3 then ret tt
       else raise (ValueError "Unable to create correctly shaped tuple")) ;;;
      let img_pad := np_pad img pad0 pad1 in
      let img_small := cv2_resize img_pad 256 256 in
      let img_norm := _im_normalize img_small in
      ret (img_pad, img_norm, pad)
  end.

Definition pred_bbox (self : BlazePalm) (img : ndarray) : M (option array2) :=
  '(img_pad, img_norm, pad) <- preprocess_img img ;;
  '(source, keypoints, _) <- detect_hand self img_norm ;;
  match source with
  | None => ret None
  | Some source =>
      (* transformation from img_pad coords to img_landmark coords *)
      let scale := img_scale img in
      emit (EvGetAffineTransform (scaled_source source scale)
                                 (_target_triangle self)) ;;;
      let Mtr := pred_bbox_Mtr self source scale in
      emit (EvLinalgInv Mtr) ;;;
      Minv <- lift (linalg_inv Mtr) ;;
      (* projecting keypoints back into original image coordinate space *)
      ret (Some (project_box self Minv pad))
  end.

Definition __call__ (self : BlazePalm) (img : ndarray) : M (option array2) :=
  bbox <- pred_bbox self img ;;
  ret bbox.

End Decoder.

(* ================================================================== *)
(** ** Non-maximum suppression

    [dependencies/non_maximum_suppression.py] is imported by the detector
    but is not part of the sources at hand; the decoder above is
    parametric in it.  The definitions of this module follow the written
    description of the routine. *)

Module NmsSpec.

(** Modelled from the spec: the suppression routine is missing from the
    sources.  A candidate is a box with its probability; it keeps the
    index it had in the list handed to the routine ("original index"). *)
Record candidate : Type := mk_candidate {
  c_index : nat;
  c_box : array1;
  c_prob : np_float
}.

(** Modelled from the spec: the suppression routine is missing from the
    sources.  Equal probabilities, for the tie-break. *)
Definition np_eqb (x y : np_float) : bool :=
  match x, y with
  | Fin a, Fin b => if Req_dec_T a b then true else false
  | PInf, PInf | NInf, NInf => true
  | _, _ => false
  end.

(** Modelled from the spec: the suppression routine is missing from the
    sources.  The ranking is "descending probability then original
    index". *)
Definition ranks_before (a b : candidate) : bool :=
  (c_prob a >? c_prob b)%np
  || (np_eqb (c_prob a) (c_prob b) && Nat.ltb (c_index a) (c_index b)).

(** Modelled from the spec: the suppression routine is missing from the
    sources.  "Pick the highest-probability remaining box". *)
Fixpoint pick_best (best : candidate) (rest : list candidate) : candidate :=
  match rest with
  | [] => best
  | c :: rest' => pick_best (if ranks_before c best then c else best) rest'
  end.

(** Modelled from the spec: the suppression routine is missing from the
    sources.  "Overlap ratio (intersection area / own area)" of [other]
    with [best], for boxes given as centre, width and height. *)
Definition overlap_ratio (best other : candidate) : np_float :=
  match c_box best, c_box other with
  | [bx; by_; bw; bh], [ox; oy; ow; oh] =>
      let xx1 := np_maximum (bx - bw / Fin 2)%np (ox - ow / Fin 2)%np in
      let yy1 := np_maximum (by_ - bh / Fin 2)%np (oy - oh / Fin 2)%np in
      let xx2 := np_minimum (bx + bw / Fin 2)%np (ox + ow / Fin 2)%np in
      let yy2 := np_minimum (by_ + bh / Fin 2)%np (oy + oh / Fin 2)%np in
      let w := np_maximum (Fin 0) (xx2 - xx1)%np in
      let h := np_maximum (Fin 0) (yy2 - yy1)%np in
      ((w * h) / (ow * oh))%np
  | _, _ => NaN
  end.

(** Modelled from the spec: the suppression routine is missing from the
    sources.  A candidate stays for the next round when it is neither the
    box just picked nor "suppressed": its overlap ratio with the picked box
    does not exceed the threshold. *)
Definition survives (overlap_threshold : np_float) (best c : candidate) : bool :=
  negb (Nat.eqb (c_index c) (c_index best))
  && negb (overlap_ratio best c >? overlap_threshold)%np.

(** Modelled from the spec: the suppression routine is missing from the
    sources.  "Repeatedly pick the highest-probability remaining box,
    suppress any other box whose overlap ratio with it exceeds a fixed
    overlap threshold, until none remain." *)
Fixpoint nms_loop (fuel : nat) (overlap_threshold : np_float)
    (remaining : list candidate) : list candidate :=
  match fuel, remaining with
  | S fuel', c :: rest =>
      let best := pick_best c rest in
      best :: nms_loop fuel' overlap_threshold
                (filter (survives overlap_threshold best) remaining)
  | _, _ => []
  end.

(** Modelled from the spec: the suppression routine is missing from the
    sources.  The loop, with one round of fuel per candidate (each round
    removes at least the box it picks). *)
Definition nms (overlap_threshold : np_float) (l : list candidate) : list candidate :=
  nms_loop (length l) overlap_threshold l.

(** Modelled from the spec: the suppression routine is missing from the
    sources.  "Keep only the top-ranked surviving candidate". *)
Definition selected (overlap_threshold : np_float) (l : list candidate)
    : option candidate :=
  hd_error (nms overlap_threshold l).

(** Modelled from the spec: the suppression routine is missing from the
    sources.  The candidates of two parallel arrays, numbered by position
    from [i]. *)
Fixpoint tag (i : nat) (boxes : array2) (probs : array1) : list candidate :=
  match boxes, probs with
  | b :: boxes', p :: probs' =>
      {| c_index := i; c_box := b; c_prob := p |} :: tag (S i) boxes' probs'
  | _, _ => []
  end.

(** Modelled from the spec: the suppression routine is missing from the
    sources.  The routine with the interface the decoder calls: boxes and
    probabilities in, picked indices out, best first.  The spec fixes the
    overlap threshold without giving its value; it is a parameter here. *)
Definition non_max_suppression_fast (overlap_threshold : np_float)
    (boxes : array2) (probs : array1) : list nat :=
  map c_index (nms overlap_threshold (tag 0 boxes probs)).

End NmsSpec.

(* ================================================================== *)
(** ** Vocabulary of the statements *)

(** The two assertions at the head of [detect_hand] hold. *)
Definition well_formed_input (img_norm : ndarray) : Prop :=
  exists lo hi,
    np_min img_norm = Return lo /\ np_max img_norm = Return hi /\
    (Fin (-1) <=? lo)%np = true /\ (hi <=? Fin 1)%np = true /\
    shape img_norm = [256; 256; 3]%nat.

Definition in_unit_range (v : np_float) : bool :=
  (Fin (-1) <=? v)%np && (v <=? Fin 1)%np.

(** The anchor passes the filter [probabilities > CONFINDENCE_THRESHOLD]. *)
Definition passes (logit : np_float) : bool :=
  (_sigm logit >? CONFINDENCE_THRESHOLD)%np.

(** The original indices a boolean mask keeps, in order. *)
Fixpoint positions (i : nat) (mask : list bool) : list nat :=
  match mask with
  | [] => []
  | b :: mask' => if b then i :: positions (S i) mask' else positions (S i) mask'
  end.

Definition is_nms_event (ev : event) : bool :=
  match ev with EvNMS _ _ => true | _ => false end.

Definition is_geometry_event (ev : event) : bool :=
  match ev with
  | EvGetTriangle _ _ _ | EvGetAffineTransform _ _ | EvLinalgInv _ => true
  | _ => false
  end.

(** The four interpreter steps [detect_hand] takes after its assertions. *)
Definition inference_events (img_norm : ndarray) : list event :=
  [EvSetTensor img_norm; EvInvoke; EvGetTensor OutReg; EvGetTensor OutClf].

(** No suppression and no geometry (triangle, affine transform, matrix
    inverse) took place. *)
Definition no_suppression_no_geometry (l : list event) : Prop :=
  Forall (fun ev => is_nms_event ev = false /\ is_geometry_event ev = false) l.

(** [np.zeros(shape)] and the constant tensors. *)
Definition np_full (s : list nat) (v : np_float) : ndarray :=
  {| shape := s; data := repeat v (fold_right Nat.mul 1%nat s) |}.

(** Concrete detectors used to exercise the statements.  Each has one
    anchor at (0.5, 0.5); the interpreter is a constant function. *)
Definition zero_image : ndarray := np_full [256; 256; 3]%nat (Fin 0).

(** All logits at -10: nothing passes the threshold. *)
Definition silent_detector : BlazePalm :=
  BlazePalm_default (fun _ => ([repeat (Fin 0) 18], [Fin (-10)]))
                    [[Fin 0.5; Fin 0.5]].

(** One candidate whose seven keypoint deltas are all zero, so that the
    wrist and the middle-finger base coincide. *)
Definition degenerate_row : array1 :=
  [Fin 0; Fin 0; Fin 2; Fin 1;
   Fin 0; Fin 0; Fin 0; Fin 0; Fin 0; Fin 0; Fin 0; Fin 0;
   Fin 0; Fin 0; Fin 0; Fin 0; Fin 0; Fin 0].

Definition degenerate_detector : BlazePalm :=
  BlazePalm_default (fun _ => ([degenerate_row], [Fin 1])) [[Fin 0.5; Fin 0.5]].

(** One candidate of width 2 and height 1 whose middle-finger base lies
    one pixel from the wrist. *)
Definition sample_row : array1 :=
  [Fin 3; Fin 4; Fin 2; Fin 1;
   Fin 0; Fin 0; Fin 5; Fin 5; Fin 0; Fin 1; Fin 0; Fin 0;
   Fin 0; Fin 0; Fin 0; Fin 0; Fin 0; Fin 0].

Definition sample_detector : BlazePalm :=
  BlazePalm_default (fun _ => ([sample_row], [Fin 1])) [[Fin 0.5; Fin 0.5]].

Definition sample_nms : array2 -> array1 -> list nat :=
  NmsSpec.non_max_suppression_fast (Fin 0.3).

Definition sample_center : vec2 := ((Fin 0.5 * Fin 256)%np, (Fin 0.5 * Fin 256)%np).

Definition sample_deltas : list vec2 :=
  [(Fin 0, Fin 0); (Fin 5, Fin 5); (Fin 0, Fin 1); (Fin 0, Fin 0);
   (Fin 0, Fin 0); (Fin 0, Fin 0); (Fin 0, Fin 0)].

Definition sample_keypoints : list vec2 := map (vadd sample_center) sample_deltas.

Definition sample_kp0 : vec2 := vadd sample_center (Fin 0, Fin 0).
Definition sample_kp2 : vec2 := vadd sample_center (Fin 0, Fin 1).
Definition sample_side : np_float := (py_max (Fin 2) (Fin 1) * Fin 1.5)%np.

Definition sample_boxes : array2 :=
  [[(Fin 3 + Fin 0.5 * Fin 256)%np; (Fin 4 + Fin 0.5 * Fin 256)%np; Fin 2; Fin 1]].

Definition sample_source : triangle :=
  tri_map (fun p => vsub p (vscale (vsub sample_kp0 sample_kp2) (Fin 0.2)))
          (_get_triangle sample_detector sample_kp0 sample_kp2 sample_side).

Definition sample_debug : debug_info :=
  {| detection_candidates := [sample_row];
     anchor_candidates := [[Fin 0.5; Fin 0.5]];
     selected_box_id := 0 |}.

Definition sample_events (img_norm : ndarray) : list event :=
  inference_events img_norm
  ++ [EvNMS sample_boxes [_sigm (Fin 1)];
      EvGetTriangle sample_kp0 sample_kp2 sample_side].

(** The unit vector from [a] towards [b], and a quarter turn. *)
Definition unit_dir (a b : R * R) : R * R :=
  let n := sqrt ((fst b - fst a) * (fst b - fst a) + (snd b - snd a) * (snd b - snd a)) in
  ((fst b - fst a) / n, (snd b - snd a) / n).

Definition rot90 (v : R * R) : R * R := (snd v, - fst v).

Definition rnorm (v : R * R) : R := sqrt (fst v * fst v + snd v * snd v).

Definition degenerate_keypoints : list vec2 :=
  map (vadd sample_center) (repeat (Fin 0, Fin 0) 7).

Definition degenerate_kp : vec2 := vadd sample_center (Fin 0, Fin 0).

Definition degenerate_debug : debug_info :=
  {| detection_candidates := [degenerate_row];
     anchor_candidates := [[Fin 0.5; Fin 0.5]];
     selected_box_id := 0 |}.

Definition degenerate_events_on (img_norm : ndarray) : list event :=
  inference_events img_norm
  ++ [EvNMS [[(Fin 0 + Fin 0.5 * Fin 256)%np; (Fin 0 + Fin 0.5 * Fin 256)%np;
              Fin 2; Fin 1]] [_sigm (Fin 1)];
      EvGetTriangle degenerate_kp degenerate_kp sample_side].

Definition degenerate_events : list event := degenerate_events_on zero_image.

(** A computation ends in an exception. *)
Definition raises {A : Type} (m : M A) : Prop := exists e, snd m = Raise e.

(** A mid-grey 256x256 frame, and stand-ins for [np.pad] and
    [cv2.resize] that leave such a frame as it is. *)
Definition grey_frame : ndarray := np_full [256; 256; 3]%nat (Fin 127.5).
Definition pad_nothing : ndarray -> nat -> nat -> ndarray := fun img _ _ => img.
Definition resize_nothing : ndarray -> nat -> nat -> ndarray := fun img _ _ => img.

(** A candidate whose probability can be ranked: it is not NaN. *)
Definition ranked (c : NmsSpec.candidate) : Prop :=
  is_nan (NmsSpec.c_prob c) = false.

Definition above_threshold (c : NmsSpec.candidate) : Prop :=
  (NmsSpec.c_prob c >? CONFINDENCE_THRESHOLD)%np = true.

(** Two candidates with distinct probabilities, for exercising the
    suppression. *)
Definition candidate_a : NmsSpec.candidate :=
  {| NmsSpec.c_index := 0;
     NmsSpec.c_box := [Fin 10; Fin 10; Fin 4; Fin 4];
     NmsSpec.c_prob := Fin 0.9 |}.

Definition candidate_b : NmsSpec.candidate :=
  {| NmsSpec.c_index := 1;
     NmsSpec.c_box := [Fin 11; Fin 10; Fin 4; Fin 4];
     NmsSpec.c_prob := Fin 0.8 |}.

(** What a candidate is apart from its index. *)
Definition box_and_probability (c : NmsSpec.candidate) : array1 * np_float :=
  (NmsSpec.c_box c, NmsSpec.c_prob c).



Definition fin_vec (p : R * R) : vec2 := (Fin (fst p), Fin (snd p)).

Definition fin_tri (a b c : R * R) : triangle := (fin_vec a, fin_vec b, fin_vec c).

(** Twice the signed area of a triangle: zero when the points are collinear. *)
Definition tri_det (a b c : R * R) : R :=
  fst a * (snd b - snd c) - snd a * (fst b - fst c)
  + (fst b * snd c - fst c * snd b).

Definition rdet3 (a b c d e f g h i : R) : R :=
  a * (e * i - f * h) - b * (d * i - f * g) + c * (d * h - e * g).

(** The 3x3 matrix [pred_bbox] inverts, for a finite triangle with
    non-zero [tri_det]: the affine map onto the target triangle
    (128, 128), (128, 0), (0, 128), with the row [0, 0, 1]. *)
Definition affine_matrix (a b c : R * R) : array2 :=
  let D := tri_det a b c in
  let '(x0, y0) := a in
  let '(x1, y1) := b in
  let '(x2, y2) := c in
  [[Fin (rdet3 128 y0 1 128 y1 1 0 y2 1 / D);
    Fin (rdet3 x0 128 1 x1 128 1 x2 0 1 / D);
    Fin (rdet3 x0 y0 128 x1 y1 128 x2 y2 0 / D)];
   [Fin (rdet3 128 y0 1 0 y1 1 128 y2 1 / D);
    Fin (rdet3 x0 128 1 x1 0 1 x2 128 1 / D);
    Fin (rdet3 x0 y0 128 x1 y1 0 x2 y2 128 / D)];
   [Fin 0; Fin 0; Fin 1]].

(** ** Further vocabulary *)

(** A pixel value as [cv2.resize] of an 8-bit image gives it. *)
Definition byte_valued (v : np_float) : Prop :=
  exists r : R, v = Fin r /\ 0 <= r <= 255.

Definition unit_valued (v : np_float) : Prop :=
  exists r : R, v = Fin r /\ -1 <= r <= 1.

(** What [cv2.resize(img, (256, 256))] returns for an 8-bit RGB image. *)
Definition resized_frame (a : ndarray) : Prop :=
  shape a = [256; 256; 3]%nat /\ data a <> [] /\ Forall byte_valued (data a).

(** A 1x1 image with the darkest, a middle and the brightest value. *)
Definition tiny_image : ndarray :=
  {| shape := [1; 1; 3]%nat; data := [Fin 0; Fin 102; Fin 255] |}.

(** A 2x5 image. *)
Definition wide_image : ndarray := np_full [2; 5; 3]%nat (Fin 0).


(** How a decoding can end, with what it logged: an exception before
    the suppression, nothing found, an exception after the suppression and
    before the triangle, or a hand. *)
Inductive decode_outcome
    : M (option triangle * option (list vec2) * option debug_info) -> Prop :=
| failed_before_suppression (e : exn) :
    decode_outcome ([], Raise e)
| nothing_found :
    decode_outcome ([EvPrint "No hands found"], Return (None, None, None))
| failed_after_suppression (boxes : array2) (probs : array1) (e : exn) :
    decode_outcome ([EvNMS boxes probs], Raise e)
| hand_found (boxes : array2) (probs : array1) (kp0 kp2 : vec2) (side : np_float)
    (source : triangle) (keypoints : list vec2) (debug : debug_info) :
    decode_outcome ([EvNMS boxes probs; EvGetTriangle kp0 kp2 side],
                    Return (Some source, Some keypoints, Some debug)).

(** The suppression routine answers with at least one index, and its
    first index is an index of the boxes it was given. *)
Definition head_is_valid (nms : array2 -> array1 -> list nat) : Prop :=
  forall boxes probs,
    boxes <> [] -> length boxes = length probs ->
    exists i, head_id (nms boxes probs) = Return i /\ (i < length boxes)%nat.

(** ** Vocabulary of the box geometry *)

(** Points of the plane with real coordinates. *)
Definition radd (a b : R * R) : R * R := (fst a + fst b, snd a + snd b).
Definition rsub (a b : R * R) : R * R := (fst a - fst b, snd a - snd b).
Definition rscale (k : R) (a : R * R) : R * R := (k * fst a, k * snd a).
Definition rdot (a b : R * R) : R := fst a * fst b + snd a * snd b.

(** Four points, in order, are the corners of a square with the given
    centre and side: the diagonals meet in the centre, and two adjacent
    sides have the given length and are perpendicular. *)
Definition is_square (centre : R * R) (side : R) (c0 c1 c2 c3 : R * R) : Prop :=
  radd c0 c2 = rscale 2 centre /\ radd c1 c3 = rscale 2 centre /\
  rnorm (rsub c1 c0) = side /\ rnorm (rsub c2 c1) = side /\
  rdot (rsub c1 c0) (rsub c2 c1) = 0.


(** The matrix [pred_bbox] hands to [np.linalg.inv] when OpenCV could
    not solve for the transform. *)
Definition singular_Mtr : array2 :=
  [[Fin 0; Fin 0; Fin 0]; [Fin 0; Fin 0; Fin 0]; [Fin 0; Fin 0; Fin 1]].

(** One candidate of width and height zero whose middle-finger base lies
    one pixel from the wrist. *)
Definition flat_row : array1 :=
  [Fin 3; Fin 4; Fin 0; Fin 0;
   Fin 0; Fin 0; Fin 5; Fin 5; Fin 0; Fin 1; Fin 0; Fin 0;
   Fin 0; Fin 0; Fin 0; Fin 0; Fin 0; Fin 0].

Definition flat_detector : BlazePalm :=
  BlazePalm_default (fun _ => ([flat_row], [Fin 1])) [[Fin 0.5; Fin 0.5]].

Definition flat_debug : debug_info :=
  {| detection_candidates := [flat_row];
     anchor_candidates := [[Fin 0.5; Fin 0.5]];
     selected_box_id := 0 |}.

(** How a call of [pred_bbox] can end, given how its call of
    [detect_hand] ended: the detection's exception is passed on; no hand
    gives [None]; a hand gives the two matrix calls and then either
    numpy's [LinAlgError] or a box. *)
Inductive pred_bbox_outcome (self : BlazePalm)
    : M (option triangle * option (list vec2) * option debug_info) ->
      M (option array2) -> Prop :=
| detection_failed (l : list event) (e : exn) :
    pred_bbox_outcome self (l, Raise e) (l, Raise e)
| no_hand (l : list event) kps dbg :
    pred_bbox_outcome self (l, Return (None, kps, dbg)) (l, Return None)
| singular_matrix (l : list event) source kps dbg (src : triangle) (Mtr : array2) :
    pred_bbox_outcome self (l, Return (Some source, kps, dbg))
      (l ++ [EvGetAffineTransform src (_target_triangle self); EvLinalgInv Mtr],
       Raise (LinAlgError "Singular matrix"))
| box_returned (l : list event) source kps dbg (src : triangle) (Mtr : array2)
    (box : array2) :
    pred_bbox_outcome self (l, Return (Some source, kps, dbg))
      (l ++ [EvGetAffineTransform src (_target_triangle self); EvLinalgInv Mtr],
       Return (Some box)).

(** A tensor of the asserted shape all of whose values are NaN. *)
Definition nan_image : ndarray := np_full [256; 256; 3]%nat NaN.

(* ================================================================== *)
(** ** The GUI model ([gui/gui_model.py])

    [Model.get_new_annotated_frame] reads a frame, runs the palm detector
    on it and writes the detector's answer into the frame.  The camera's
    answer [(ret, frame)] is an argument; [cv2.cvtColor], the keypoint
    estimator (its modules are not part of the sources at hand) and the
    frame a successful assignment leaves are parameters. *)

(** numpy's rule for [target[...] = value], on the shapes read from the
    last dimension: a dimension of the value equals the target's or is 1,
    and dimensions the target does not have must be 1. *)
Fixpoint broadcast_rev (value target : list nat) : bool :=
  match value, target with
  | [], _ => true
  | v :: vs, t :: ts => (Nat.eqb v t || Nat.eqb v 1) && broadcast_rev vs ts
  | v :: vs, [] => Nat.eqb v 1 && broadcast_rev vs []
  end.

Definition can_broadcast (value target : list nat) : bool :=
  broadcast_rev (rev value) (rev target).

(** The shape of [frame[:n0, :n1]]. *)
Definition slice2_shape (s : list nat) (n0 n1 : nat) : result (list nat) :=
  match s with
  | d0 :: d1 :: rest => Return (Nat.min n0 d0 :: Nat.min n1 d1 :: rest)
  | _ => Raise (IndexError "too many indices for array")
  end.

(** [a.shape] of a two-dimensional array given by its rows. *)
Definition shape2 (a : array2) : list nat := [length a; length (hd [] a)].

Section GuiModel.

Variable non_max_suppression_fast : array2 -> array1 -> list nat.
Variable np_pad : ndarray -> nat -> nat -> ndarray.
Variable cv2_resize : ndarray -> nat -> nat -> ndarray.

(** The interpreter and the anchor table [BlazePalm()] loads. *)
Variable interp : ndarray -> array2 * array1.
Variable anchors_csv : array2.

(** [cv2.cvtColor(frame, cv2.COLOR_BGR2RGB)]. *)
Variable cv2_cvtColor : ndarray -> ndarray.

(** [self.keypoint_estimator.requires_detector] and
    [self.keypoint_estimator(frame)]. *)
Variable requires_detector : bool.
Variable keypoint_estimator : ndarray -> M ndarray.

(** The frame after [frame[:n0, :n1] = cropped_frame] went through. *)
Variable np_setitem : ndarray -> array2 -> ndarray.

(** [load_palm_detector]: whatever is asked for, the detector is
    [BlazePalm()]. *)
Definition load_palm_detector {PalmDetectorEnum : Type}
    (palm_detector : PalmDetectorEnum) : BlazePalm :=
  BlazePalm_default interp anchors_csv.

Definition get_new_annotated_frame (palm_detector : BlazePalm)
    (capture : bool * ndarray) : M ndarray :=
  let '(ret_, frame) := capture in
  py_assert ret_ EmptyString ;;;
  let frame := cv2_cvtColor frame in
  d0 <- lift (index (shape frame) 0) ;;
  py_assert (Nat.ltb 0 d0) EmptyString ;;;
  if requires_detector
  then
    cropped_frame <- __call__ non_max_suppression_fast np_pad cv2_resize
                       palm_detector frame ;;
    match cropped_frame with
    | Some box =>
        target <- lift (slice2_shape (shape frame)
                          (length box) (length (hd [] box))) ;;
        if can_broadcast (shape2 box) target
        then ret (np_setitem frame box)
        else raise (ValueError "could not broadcast input array")
    | None => ret frame
    end
  else keypoint_estimator frame.

End GuiModel.

(* ================================================================== *)
(** ** The demonstration loop ([blazepalm.py] run as a script)

    The loop reads frames, draws the box and warps the frame.  Its one
    computation is the transform handed to [cv2.warpAffine]:
    [cv2.getAffineTransform(bbox[:3], [[0,0], [255,0], [255,255]])], both
    arguments cast by [astype(np.float32)].  The cast rounds: it is a
    parameter, and the three target corners are float32 numbers as they
    stand.  [None] stands for OpenCV's error on an input that is not three
    rows of two columns. *)





(* ================================================================== *)
(** * Properties *)

(** ** Arithmetic of [np_float] on finite values *)

Lemma Rltb_true (x y : R) : Rltb x y = true <-> x < y.
Proof. unfold Rltb; destruct (Rlt_dec x y); split; intros; try easy. Qed.

Lemma Rltb_false (x y : R) : Rltb x y = false <-> ~ x < y.
Proof. unfold Rltb; destruct (Rlt_dec x y); split; intros; try easy. Qed.

Lemma Rleb_true (x y : R) : Rleb x y = true <-> x <= y.
Proof. unfold Rleb; destruct (Rle_dec x y); split; intros; try easy. Qed.

Lemma np_div_fin (a b : R) : b <> 0 -> (Fin a / Fin b)%np = Fin (a / b).
Proof. intros Hb; simpl; destruct (Req_dec_T b 0); [contradiction | reflexivity]. Qed.

Lemma np_div_zero_zero (a b : R) : a = 0 -> b = 0 -> (Fin a / Fin b)%np = NaN.
Proof.
  intros -> ->; simpl. destruct (Req_dec_T 0 0) as [_ | H]; [| now elim H].
  unfold inf_of_sign. destruct (Rlt_dec 0 0); [lra |]. reflexivity.
Qed.

Lemma np_sqrt_fin (r : R) : 0 <= r -> np_sqrt (Fin r) = Fin (sqrt r).
Proof. intros Hr; simpl; destruct (Rlt_dec r 0); [lra | reflexivity]. Qed.

Lemma np_is_zero_fin (r : R) : r <> 0 -> np_is_zero (Fin r) = false.
Proof. intros Hr; simpl; destruct (Req_dec_T r 0); [contradiction | reflexivity]. Qed.

Lemma py_max_fin (a b : R) : py_max (Fin a) (Fin b) = Fin (Rmax a b).
Proof.
  unfold py_max, np_gt; simpl. unfold Rltb, Rmax.
  destruct (Rlt_dec a b), (Rle_dec a b); try reflexivity; try lra.
  f_equal; lra.
Qed.

(** ** The sigmoid and the threshold *)

Lemma _sigm_fin (x : R) : _sigm (Fin x) = Fin (1 / (1 + exp (- x))).
Proof.
  unfold _sigm; simpl np_neg; simpl np_exp; simpl np_add.
  apply np_div_fin. pose proof (exp_pos (- x)). lra.
Qed.

Lemma sigm_real_bounds (x : R) : 0 < 1 / (1 + exp (- x)) < 1.
Proof.
  pose proof (exp_pos (- x)) as He.
  assert (Hinv : 0 < / (1 + exp (- x))) by (apply Rinv_0_lt_compat; lra).
  assert (Hone : (1 + exp (- x)) * / (1 + exp (- x)) = 1) by (apply Rinv_r; lra).
  unfold Rdiv. rewrite Rmult_1_l. split; nra.
Qed.

Lemma sigm_real_gt_half (x : R) : 0.5 < 1 / (1 + exp (- x)) <-> 0 < x.
Proof.
  pose proof (exp_pos (- x)) as He.
  assert (Hinv : 0 < / (1 + exp (- x))) by (apply Rinv_0_lt_compat; lra).
  assert (Hone : (1 + exp (- x)) * / (1 + exp (- x)) = 1) by (apply Rinv_r; lra).
  assert (Hiff : 0.5 < 1 / (1 + exp (- x)) <-> exp (- x) < 1).
  { unfold Rdiv. rewrite Rmult_1_l. split; intros H; nra. }
  rewrite Hiff. rewrite <- exp_0. split; intros H.
  - apply exp_lt_inv in H. lra.
  - apply exp_increasing. lra.
Qed.

(** An anchor passes the filter exactly when its logit is positive. *)
Lemma passes_positive (x : np_float) : passes x = (x >? Fin 0)%np.
Proof.
  unfold passes. destruct x as [r | | |].
  - rewrite _sigm_fin. unfold CONFINDENCE_THRESHOLD, np_gt; simpl.
    destruct (Rltb 0 r) eqn:E.
    + apply Rltb_true. apply sigm_real_gt_half. now apply Rltb_true.
    + apply Rltb_false. intros H. apply sigm_real_gt_half in H.
      apply Rltb_false in E. contradiction.
  - unfold _sigm, CONFINDENCE_THRESHOLD, np_gt; simpl.
    destruct (Req_dec_T (1 + 0) 0); [lra |]. simpl.
    apply Rltb_true. lra.
  - unfold _sigm, CONFINDENCE_THRESHOLD, np_gt; simpl.
    apply Rltb_false. lra.
  - reflexivity.
Qed.

(** C7, as the code has it.  For every confidence logit that is not
    NaN the probability [_sigm x = 1 / (1 + exp (-x))] is a number of the
    closed interval from 0 to 1: the bounds themselves are reached (here at
    the infinite logits; in float32 already at large finite ones, where
    [1 + exp (-x)] rounds to 1), so the interval is not the open one.  The
    filter [probability > 0.5] is monotonic in the logit: when [a <= b]
    and the anchor with logit [a] passes, the anchor with logit [b] passes
    too. *)
Theorem sigmoid_in_unit_interval_and_threshold_monotone :
  (forall x : np_float,
      is_nan x = false -> exists p : R, _sigm x = Fin p /\ 0 <= p <= 1) /\
  (forall a b : np_float,
      (a <=? b)%np = true -> passes a = true -> passes b = true).
Proof.
  split.
  - intros [x | | |] Hn; try discriminate Hn.
    + exists (1 / (1 + exp (- x))). split; [apply _sigm_fin |].
      pose proof (sigm_real_bounds x). lra.
    + exists 1. split; [| lra].
      unfold _sigm; simpl. destruct (Req_dec_T (1 + 0) 0); [lra |]. f_equal. field.
    + exists 0. split; [reflexivity | lra].
  - intros a b Hab. rewrite !passes_positive. unfold np_gt.
    destruct a as [ra | | |], b as [rb | | |]; simpl in *;
      try discriminate; try reflexivity.
    intros Ha. apply Rltb_true in Ha. apply Rleb_true in Hab.
    apply Rltb_true. lra.
Qed.

(** C7, the logits that separate the code from the claim: an infinite
    positive logit has probability exactly 1 and an infinite negative one
    exactly 0, neither strictly inside the interval. *)
Lemma sigmoid_reaches_the_bounds :
  _sigm PInf = Fin 1 /\ _sigm NInf = Fin 0 /\
  ~ (exists p : R, _sigm PInf = Fin p /\ 0 < p < 1) /\
  ~ (exists p : R, _sigm NInf = Fin p /\ 0 < p < 1).
Proof.
  assert (H1 : _sigm PInf = Fin 1).
  { unfold _sigm; simpl. destruct (Req_dec_T (1 + 0) 0); [lra |]. f_equal. field. }
  assert (H0 : _sigm NInf = Fin 0) by reflexivity.
  split; [exact H1 |]. split; [exact H0 |]. split.
  - intros (p & Hp & Hlt). rewrite H1 in Hp. inversion Hp. lra.
  - intros (p & Hp & Hlt). rewrite H0 in Hp. inversion Hp. lra.
Qed.

Lemma sigmoid_threshold_witness :
  (Fin 1 <=? Fin 2)%np = true /\ passes (Fin 1) = true /\ passes (Fin 2) = true.
Proof.
  assert (H1 : (Fin 1 <=? Fin 2)%np = true) by (apply Rleb_true; lra).
  assert (H2 : passes (Fin 1) = true).
  { rewrite passes_positive. apply Rltb_true. lra. }
  split; [exact H1 | split; [exact H2 |]].
  exact (proj2 sigmoid_in_unit_interval_and_threshold_monotone (Fin 1) (Fin 2) H1 H2).
Defined.

(** ** The monad *)

Lemma bind_lift_Return {A B : Type} (a : A) (f : A -> M B) :
  bind (lift (Return a)) f = f a.
Proof. unfold bind, lift. destruct (f a); reflexivity. Qed.

Lemma bind_lift_Raise {A B : Type} (e : exn) (f : A -> M B) :
  bind (lift (Raise e)) f = ([], Raise e).
Proof. reflexivity. Qed.

Lemma bind_ret {A B : Type} (a : A) (f : A -> M B) : bind (ret a) f = f a.
Proof. apply bind_lift_Return. Qed.

Lemma bind_raise {A B : Type} (e : exn) (f : A -> M B) :
  bind (raise e) f = ([], Raise e).
Proof. reflexivity. Qed.

Lemma bind_emit {B : Type} (ev : event) (f : unit -> M B) :
  bind (emit ev) f = (ev :: fst (f tt), snd (f tt)).
Proof. unfold bind, emit. destruct (f tt); reflexivity. Qed.

Lemma bind_return_inv {A B : Type} (m : M A) (f : A -> M B) l b :
  bind m f = (l, Return b) ->
  exists l1 a l2, m = (l1, Return a) /\ f a = (l2, Return b) /\ l = l1 ++ l2.
Proof.
  unfold bind. destruct m as [l1 [a | e]]; [| discriminate].
  destruct (f a) as [l2 r] eqn:E. intros H; inversion H; subst.
  exists l1, a, l2; auto.
Qed.

Lemma bind_assoc {A B C : Type} (m : M A) (f : A -> M B) (g : B -> M C) :
  bind (bind m f) g = bind m (fun a => bind (f a) g).
Proof.
  unfold bind. destruct m as [l1 [a | e]]; [| reflexivity].
  destruct (f a) as [l2 [b | e]]; [| reflexivity].
  destruct (g b) as [l3 r]. now rewrite app_assoc.
Qed.

(** ** Masks *)

Lemma compress_all_false {A : Type} (mask : list bool) (xs : list A) :
  Forall (fun b => b = false) mask -> compress mask xs = [].
Proof.
  intros H; revert xs; induction H as [| b mask Hb _ IH]; intros [| x xs];
    simpl; try reflexivity.
  rewrite Hb. apply IH.
Qed.

Lemma mask_index_Return {A : Type} (xs : list A) (mask : list bool) :
  length mask = length xs -> mask_index xs mask = Return (compress mask xs).
Proof.
  intros H; unfold mask_index; rewrite H, Nat.eqb_refl, orb_true_r; reflexivity.
Qed.

Lemma mask_index_inv {A : Type} (xs : list A) (mask : list bool) r :
  mask_index xs mask = Return r ->
  (length mask = length xs \/ mask = []) /\ r = compress mask xs.
Proof.
  unfold mask_index.
  destruct (Nat.eqb (length mask) 0) eqn:E0; cbn [orb].
  - apply Nat.eqb_eq, length_zero_iff_nil in E0. intros H; inversion H; auto.
  - destruct (Nat.eqb (length mask) (length xs)) eqn:E; [| discriminate].
    apply Nat.eqb_eq in E. intros H; inversion H; auto.
Qed.

(** ** The head of [detect_hand]: assertions, then inference *)

Lemma detect_hand_well_formed nms self img_norm :
  well_formed_input img_norm ->
  detect_hand nms self img_norm =
  (inference_events img_norm
     ++ fst (detect_hand_decode nms self (fst (interp_palm self img_norm))
                                         (snd (interp_palm self img_norm))),
   snd (detect_hand_decode nms self (fst (interp_palm self img_norm))
                                    (snd (interp_palm self img_norm)))).
Proof.
  intros (lo & hi & Hlo & Hhi & Hge & Hle & Hshape).
  unfold detect_hand. rewrite Hlo, bind_lift_Return, Hge, Hhi.
  rewrite bind_assoc, bind_lift_Return, bind_ret, Hle.
  unfold py_assert at 1. rewrite bind_ret.
  rewrite Hshape. unfold shape_eqb.
  destruct (list_eq_dec Nat.eq_dec [256; 256; 3]%nat [256; 256; 3]%nat) as [_ | N];
    [| now elim N].
  unfold py_assert. rewrite bind_ret.
  rewrite !bind_emit. reflexivity.
Qed.

Lemma threshold_mask_passes (out_clf : array1) :
  map (fun p => (p >? CONFINDENCE_THRESHOLD)%np) (map _sigm out_clf)
  = map passes out_clf.
Proof. rewrite map_map. reflexivity. Qed.

Lemma preprocess_img_silent np_pad cv2_resize img l r :
  preprocess_img np_pad cv2_resize img = (l, r) -> l = [].
Proof.
  unfold preprocess_img. destruct (shape img) as [| d ds] eqn:Es.
  - intros H; inversion H; reflexivity.
  - set (pad := map _ _).
    destruct (index pad 0) as [p0 | e]; [| intros H; inversion H; reflexivity].
    rewrite bind_lift_Return.
    destruct (index pad 1) as [p1 | e]; [| intros H; inversion H; reflexivity].
    rewrite bind_lift_Return.
    destruct (Nat.eqb _ 3); intros H; inversion H; reflexivity.
Qed.

(** C1.  For raw regression rows and logits (one per anchor) in which no
    anchor's sigmoid probability exceeds 0.5, decoding prints, returns
    the "no detection" value and runs neither the suppression nor the
    triangle construction; so does [detect_hand] on any accepted tensor
    for which the interpreter gives these outputs, and [pred_bbox] and
    [__call__] then return [None]. *)
Theorem no_candidate_gives_no_detection
    nms np_pad cv2_resize (self : BlazePalm) (out_reg : array2) (out_clf : array1) :
  length out_reg = length out_clf ->
  length (anchors self) = length out_clf ->
  Forall (fun logit => passes logit = false) out_clf ->
  detect_hand_decode nms self out_reg out_clf
    = ([EvPrint "No hands found"], Return (None, None, None)) /\
  forall img_norm,
    well_formed_input img_norm ->
    interp_palm self img_norm = (out_reg, out_clf) ->
    detect_hand nms self img_norm
      = (inference_events img_norm ++ [EvPrint "No hands found"],
         Return (None, None, None)) /\
    no_suppression_no_geometry (fst (detect_hand nms self img_norm)) /\
    forall img silent img_pad pad,
      preprocess_img np_pad cv2_resize img
        = (silent, Return (img_pad, img_norm, pad)) ->
      snd (pred_bbox nms np_pad cv2_resize self img) = Return None /\
      snd (__call__ nms np_pad cv2_resize self img) = Return None /\
      no_suppression_no_geometry (fst (__call__ nms np_pad cv2_resize self img)).
Proof.
  intros Hreg Hanc Hnone.
  assert (Hdec : detect_hand_decode nms self out_reg out_clf
                 = ([EvPrint "No hands found"], Return (None, None, None))).
  { unfold detect_hand_decode. rewrite threshold_mask_passes.
    assert (Hmask : Forall (fun b => b = false) (map passes out_clf)).
    { apply Forall_map. exact Hnone. }
    rewrite !mask_index_Return by (rewrite !length_map; congruence).
    rewrite !bind_lift_Return.
    rewrite (compress_all_false _ out_reg Hmask). reflexivity. }
  split; [exact Hdec |].
  intros img_norm Hwf Hout.
  assert (Hdet : detect_hand nms self img_norm
                 = (inference_events img_norm ++ [EvPrint "No hands found"],
                    Return (None, None, None))).
  { rewrite (detect_hand_well_formed nms self img_norm Hwf), Hout. simpl fst; simpl snd.
    rewrite Hdec. reflexivity. }
  assert (Hquiet : no_suppression_no_geometry
                     (inference_events img_norm ++ [EvPrint "No hands found"])).
  { unfold no_suppression_no_geometry, inference_events. simpl.
    repeat constructor. }
  split; [exact Hdet |]. split; [rewrite Hdet; exact Hquiet |].
  intros img silent img_pad pad Hpre.
  pose proof (preprocess_img_silent _ _ _ _ _ Hpre) as ->.
  assert (Hpred : pred_bbox nms np_pad cv2_resize self img
                  = (inference_events img_norm ++ [EvPrint "No hands found"],
                     Return None)).
  { unfold pred_bbox. rewrite Hpre. unfold bind at 1. rewrite Hdet. reflexivity. }
  unfold __call__. rewrite Hpred. simpl. repeat split; try reflexivity.
  unfold no_suppression_no_geometry. repeat constructor.
Qed.

(** ** The assertions of [detect_hand] *)

Lemma np_minimum_ge (c : R) (x y : np_float) :
  (Fin c <=? np_minimum x y)%np = true ->
  (Fin c <=? x)%np = true /\ (Fin c <=? y)%np = true.
Proof.
  destruct x as [a | | |], y as [b | | |];
    cbv [np_minimum np_maximum np_le np_lt is_nan Rltb Rleb];
    repeat match goal with
           | |- context [Rlt_dec ?u ?v] => destruct (Rlt_dec u v); simpl
           | |- context [Rle_dec ?u ?v] => destruct (Rle_dec u v); simpl
           end; intros H; try discriminate; split; try reflexivity; lra.
Qed.

Lemma np_maximum_le (c : R) (x y : np_float) :
  (np_maximum x y <=? Fin c)%np = true ->
  (x <=? Fin c)%np = true /\ (y <=? Fin c)%np = true.
Proof.
  destruct x as [a | | |], y as [b | | |];
    cbv [np_minimum np_maximum np_le np_lt is_nan Rltb Rleb];
    repeat match goal with
           | |- context [Rlt_dec ?u ?v] => destruct (Rlt_dec u v); simpl
           | |- context [Rle_dec ?u ?v] => destruct (Rle_dec u v); simpl
           end; intros H; try discriminate; split; try reflexivity; lra.
Qed.

Lemma fold_minimum_ge (c : R) (xs : list np_float) (x : np_float) :
  (Fin c <=? fold_left np_minimum xs x)%np = true ->
  Forall (fun v => (Fin c <=? v)%np = true) (x :: xs).
Proof.
  revert x; induction xs as [| y ys IH]; intros x H; simpl in H.
  - constructor; [exact H | constructor].
  - specialize (IH _ H). inversion IH as [| ? ? Hxy Hys]; subst.
    apply np_minimum_ge in Hxy as [Hx Hy].
    constructor; [exact Hx | constructor; assumption].
Qed.

Lemma fold_maximum_le (c : R) (xs : list np_float) (x : np_float) :
  (fold_left np_maximum xs x <=? Fin c)%np = true ->
  Forall (fun v => (v <=? Fin c)%np = true) (x :: xs).
Proof.
  revert x; induction xs as [| y ys IH]; intros x H; simpl in H.
  - constructor; [exact H | constructor].
  - specialize (IH _ H). inversion IH as [| ? ? Hxy Hys]; subst.
    apply np_maximum_le in Hxy as [Hx Hy].
    constructor; [exact Hx | constructor; assumption].
Qed.

Lemma well_formed_values (img_norm : ndarray) :
  well_formed_input img_norm ->
  Forall (fun v => in_unit_range v = true) (data img_norm).
Proof.
  intros (lo & hi & Hlo & Hhi & Hge & Hle & _).
  unfold np_min in Hlo. unfold np_max in Hhi.
  destruct (data img_norm) as [| x xs]; [constructor |].
  inversion Hlo; subst lo. inversion Hhi; subst hi.
  apply fold_minimum_ge in Hge. apply fold_maximum_le in Hle.
  rewrite Forall_forall in *. intros v Hv. unfold in_unit_range.
  rewrite (Hge v Hv), (Hle v Hv). reflexivity.
Qed.

Lemma fold_minimum_repeat (r : R) (n : nat) :
  fold_left np_minimum (repeat (Fin r) n) (Fin r) = Fin r.
Proof.
  induction n as [| n IH]; simpl; [reflexivity |].
  cbv [np_minimum np_maximum np_lt is_nan Rltb].
  destruct (Rlt_dec r r); [lra | exact IH].
Qed.

Lemma fold_maximum_repeat (r : R) (n : nat) :
  fold_left np_maximum (repeat (Fin r) n) (Fin r) = Fin r.
Proof.
  induction n as [| n IH]; simpl; [reflexivity |].
  cbv [np_minimum np_maximum np_lt is_nan Rltb].
  destruct (Rlt_dec r r); [lra | exact IH].
Qed.

(** A constant tensor of the right shape with a value in [-1, 1] is
    accepted. *)
Lemma np_full_well_formed (r : R) :
  -1 <= r <= 1 -> well_formed_input (np_full [256; 256; 3]%nat (Fin r)).
Proof.
  intros [Hlo Hhi]. exists (Fin r), (Fin r).
  unfold np_min, np_max, np_full; cbn [data shape fold_right].
  remember (256 * (256 * (3 * 1)))%nat as n eqn:En.
  destruct n as [| n]; [lia |]. cbn [repeat].
  rewrite fold_minimum_repeat, fold_maximum_repeat.
  repeat split; try reflexivity; simpl; apply Rleb_true; lra.
Qed.

(** C9.  A tensor whose shape is not (256, 256, 3), or one of whose
    values lies outside [-1, 1], makes [detect_hand] fail at once: nothing
    is logged, so the interpreter is never touched and nothing is decoded.
    The failure is the assertion's, except that a tensor without any
    value already fails in [min()]. *)
Theorem malformed_input_fails_before_inference nms (self : BlazePalm) (img_norm : ndarray) :
  shape img_norm <> [256; 256; 3]%nat
  \/ Exists (fun v => in_unit_range v = false) (data img_norm) ->
  exists e,
    detect_hand nms self img_norm = ([], Raise e) /\
    (data img_norm <> [] -> exists msg, e = AssertionError msg).
Proof.
  intros Hbad. unfold detect_hand.
  destruct (np_min img_norm) as [lo | e] eqn:Hlo.
  2:{ exists e. split; [reflexivity |]. intros Hne.
      unfold np_min in Hlo. destruct (data img_norm); [now elim Hne | discriminate]. }
  rewrite bind_lift_Return.
  destruct (Fin (-1) <=? lo)%np eqn:Hge.
  2:{ rewrite bind_ret. eexists; split; [reflexivity | eauto]. }
  destruct (np_max img_norm) as [hi | e] eqn:Hhi.
  2:{ unfold np_min in Hlo; unfold np_max in Hhi.
      destruct (data img_norm); discriminate. }
  rewrite bind_assoc, bind_lift_Return, bind_ret.
  destruct (hi <=? Fin 1)%np eqn:Hle.
  2:{ eexists; split; [reflexivity | eauto]. }
  unfold py_assert at 1. rewrite bind_ret.
  destruct (shape_eqb (shape img_norm) [256; 256; 3]%nat) eqn:Hs.
  2:{ eexists; split; [reflexivity | eauto]. }
  exfalso. unfold shape_eqb in Hs.
  destruct (list_eq_dec Nat.eq_dec (shape img_norm) [256; 256; 3]%nat) as [Heq | Hneq];
    [| discriminate].
  destruct Hbad as [Hshape | Hval]; [contradiction |].
  assert (Hwf : well_formed_input img_norm) by (exists lo, hi; auto).
  apply well_formed_values in Hwf.
  apply Exists_exists in Hval as (v & Hin & Hv).
  rewrite Forall_forall in Hwf. rewrite (Hwf v Hin) in Hv. discriminate.
Qed.

Lemma malformed_input_witness :
  exists e,
    detect_hand (fun _ _ => []) (BlazePalm_default (fun _ => ([], [])) [])
                (np_full [1; 1; 3]%nat (Fin 0)) = ([], Raise e) /\
    (data (np_full [1; 1; 3]%nat (Fin 0)) <> [] -> exists msg, e = AssertionError msg).
Proof.
  apply malformed_input_fails_before_inference. left. discriminate.
Defined.

Lemma no_candidate_witness :
  detect_hand (NmsSpec.non_max_suppression_fast (Fin 0.3)) silent_detector zero_image
  = (inference_events zero_image ++ [EvPrint "No hands found"],
     Return (None, None, None)).
Proof.
  set (self := silent_detector). set (img_norm := zero_image).
  assert (Hnone : Forall (fun logit => passes logit = false) [Fin (-10)]).
  { constructor; [| constructor]. rewrite passes_positive.
    apply Rltb_false. lra. }
  assert (Hwf : well_formed_input img_norm) by (apply np_full_well_formed; lra).
  destruct (no_candidate_gives_no_detection
              (NmsSpec.non_max_suppression_fast (Fin 0.3))
              (fun img _ _ => img) (fun img _ _ => img)
              self [repeat (Fin 0) 18] [Fin (-10)]
              eq_refl eq_refl Hnone) as [_ Hrun].
  destruct (Hrun img_norm Hwf eq_refl) as [Hdet _].
  exact Hdet.
Defined.

(** ** Inversion of a successful decoding *)

Lemma bind_emit_inv {B : Type} (ev : event) (f : unit -> M B) l b :
  bind (emit ev) f = (l, Return b) ->
  exists l', l = ev :: l' /\ f tt = (l', Return b).
Proof.
  rewrite bind_emit. destruct (f tt) as [l' r]. simpl.
  intros H; inversion H; subst. eauto.
Qed.

Ltac step_lift H :=
  match type of H with
  | bind (lift ?r) _ = _ =>
      let E := fresh "E" in
      destruct r eqn:E;
      [ rewrite bind_lift_Return in H
      | rewrite bind_lift_Raise in H; discriminate H ]
  end.

Lemma decode_returns_inv nms self out_reg out_clf l source kps dbg :
  detect_hand_decode nms self out_reg out_clf
    = (l, Return (Some source, Some kps, Some dbg)) ->
  let mask := map passes out_clf in
  let probabilities := compress mask (map _sigm out_clf) in
  exists moved row dx dy w h anchor center deltas kp0 kp2,
    length mask = length out_reg /\
    length mask = length (anchors self) /\
    detection_candidates dbg = compress mask out_reg /\
    anchor_candidates dbg = compress mask (anchors self) /\
    move_rows (detection_candidates dbg) (anchor_candidates dbg) = Return moved /\
    head_id (nms (map (firstn 4) moved) probabilities) = Return (selected_box_id dbg) /\
    index (detection_candidates dbg) (selected_box_id dbg) = Return row /\
    unpack4 row = Return (dx, dy, w, h) /\
    index (anchor_candidates dbg) (selected_box_id dbg) = Return anchor /\
    anchor_center anchor = Return center /\
    reshape2 (skipn 4 row) = Return deltas /\
    kps = map (vadd center) deltas /\
    index kps 0 = Return kp0 /\
    index kps 2 = Return kp2 /\
    source = tri_map (fun p => vsub p (vscale (vsub kp0 kp2) (box_shift self)))
               (_get_triangle self kp0 kp2 (py_max w h * box_enlarge self)%np) /\
    l = [EvNMS (map (firstn 4) moved) probabilities;
         EvGetTriangle kp0 kp2 (py_max w h * box_enlarge self)%np].
Proof.
  intros H mask probabilities. unfold detect_hand_decode in H.
  rewrite threshold_mask_passes in H. fold mask in H.
  step_lift H. apply mask_index_inv in E as [Hlen1 ->].
  step_lift H. apply mask_index_inv in E as [Hlen2 ->].
  step_lift H. apply mask_index_inv in E as [_ ->].
  fold probabilities in H.
  destruct (Nat.eqb (length (compress mask out_reg)) 0) eqn:Hempty.
  { rewrite bind_emit in H. simpl in H. discriminate H. }
  assert (Hmask : mask <> [])
    by (intros Em; rewrite Em in Hempty; discriminate Hempty).
  destruct Hlen1 as [Hlen1 | Em]; [| contradiction].
  destruct Hlen2 as [Hlen2 | Em]; [| contradiction].
  step_lift H. rename a into moved.
  apply bind_emit_inv in H as (l1 & -> & H).
  step_lift H. rename a into box_id.
  step_lift H. rename a into row.
  step_lift H. destruct a as [[[dx dy] w] h].
  step_lift H. rename a into anchor.
  step_lift H. rename a into center.
  step_lift H. rename a into deltas.
  step_lift H. rename a into kp0.
  step_lift H. rename a into kp2.
  apply bind_emit_inv in H as (l2 & -> & H).
  unfold ret in H. inversion H; subst; clear H.
  exists moved, row, dx, dy, w, h, anchor, center, deltas, kp0, kp2.
  simpl. repeat split; auto.
Qed.

(** ** Filtering keeps the three arrays aligned *)

Lemma positions_ge (mask : list bool) (k i : nat) :
  In i (positions k mask) -> (k <= i)%nat.
Proof.
  revert k; induction mask as [| b mask IH]; intros k; simpl; [tauto |].
  destruct b; simpl; [intros [<- | H] |intros H];
    try lia; specialize (IH _ H); lia.
Qed.

Lemma positions_lt (mask : list bool) (k i : nat) :
  In i (positions k mask) -> (i < k + length mask)%nat.
Proof.
  revert k; induction mask as [| b mask IH]; intros k; simpl; [tauto |].
  destruct b; simpl; [intros [<- | H] |intros H];
    try lia; specialize (IH _ H); lia.
Qed.

Lemma positions_set (mask : list bool) (k i : nat) :
  In i (positions k mask) -> nth_error mask (i - k) = Some true.
Proof.
  revert k; induction mask as [| b mask IH]; intros k; simpl; [tauto |].
  assert (Htl : In i (positions (S k) mask) ->
                nth_error (b :: mask) (i - k) = Some true).
  { intros H. pose proof (positions_ge _ _ _ H).
    replace (i - k)%nat with (S (i - S k)) by lia. simpl. now apply IH. }
  destruct b; simpl; [intros [<- | H] | intros H]; auto.
  rewrite Nat.sub_diag. reflexivity.
Qed.

Lemma nth_error_compress {A : Type} (mask : list bool) (xs : list A) (k j : nat) :
  length mask = length xs ->
  nth_error (compress mask xs) j =
  match nth_error (positions k mask) j with
  | Some i => nth_error xs (i - k)
  | None => None
  end.
Proof.
  revert xs k j; induction mask as [| b mask IH]; intros [| x xs] k j Hlen;
    simpl in *; try discriminate.
  - now destruct j.
  - assert (Htl : forall j',
        nth_error (compress mask xs) j' =
        match nth_error (positions (S k) mask) j' with
        | Some i => nth_error (x :: xs) (i - k)
        | None => None
        end).
    { intros j'. rewrite (IH xs (S k) j') by lia.
      destruct (nth_error (positions (S k) mask) j') as [i |] eqn:E; [| reflexivity].
      apply nth_error_In, positions_ge in E.
      replace (i - k)%nat with (S (i - S k)) by lia. reflexivity. }
    destruct b; [| apply Htl].
    destruct j as [| j']; simpl; [now rewrite Nat.sub_diag | apply Htl].
Qed.

Lemma compress_length_positions {A : Type} (mask : list bool) (xs : list A) (k : nat) :
  length mask = length xs ->
  length (compress mask xs) = length (positions k mask).
Proof.
  revert xs k; induction mask as [| b mask IH]; intros [| x xs] k Hlen;
    simpl in *; try discriminate; try reflexivity.
  destruct b; simpl; [f_equal |]; apply IH; lia.
Qed.

Lemma index_inv {A : Type} (xs : list A) (i : nat) (x : A) :
  index xs i = Return x -> nth_error xs i = Some x /\ (i < length xs)%nat.
Proof.
  unfold index. destruct (nth_error xs i) as [y |] eqn:E; [| discriminate].
  intros H; inversion H; subst. split; [reflexivity |].
  apply nth_error_Some. congruence.
Qed.

Lemma detect_hand_returns_inv nms self img_norm l x :
  detect_hand nms self img_norm = (l, Return x) ->
  well_formed_input img_norm /\
  exists l', l = inference_events img_norm ++ l' /\
    detect_hand_decode nms self (fst (interp_palm self img_norm))
                                (snd (interp_palm self img_norm))
    = (l', Return x).
Proof.
  intros H.
  assert (Hwf : well_formed_input img_norm).
  { unfold detect_hand in H. step_lift H. rename a into lo.
    destruct (Fin (-1) <=? lo)%np eqn:Hge.
    2:{ rewrite bind_ret in H. unfold py_assert at 1 in H.
        rewrite bind_raise in H. discriminate H. }
    rewrite bind_assoc in H. step_lift H. rename a into hi.
    rewrite bind_ret in H.
    destruct (hi <=? Fin 1)%np eqn:Hle.
    2:{ unfold py_assert at 1 in H. rewrite bind_raise in H. discriminate H. }
    unfold py_assert at 1 in H. rewrite bind_ret in H.
    destruct (shape_eqb (shape img_norm) [256; 256; 3]%nat) eqn:Hs.
    2:{ unfold py_assert at 1 in H. rewrite bind_raise in H. discriminate H. }
    unfold shape_eqb in Hs.
    destruct (list_eq_dec Nat.eq_dec (shape img_norm) [256; 256; 3]%nat);
      [| discriminate].
    exists lo, hi. auto. }
  split; [exact Hwf |].
  rewrite (detect_hand_well_formed nms self img_norm Hwf) in H.
  destruct (detect_hand_decode nms self _ _) as [l' r] eqn:E.
  simpl in H. inversion H; subst. exists l'. auto.
Qed.

Lemma decode_returns nms self out_reg out_clf
    moved box_id row dx dy w h anchor center deltas kp0 kp2 :
  let mask := map passes out_clf in
  let probabilities := compress mask (map _sigm out_clf) in
  let candidate_detect := compress mask out_reg in
  let candidate_anchors := compress mask (anchors self) in
  let side := (py_max w h * box_enlarge self)%np in
  length mask = length out_reg ->
  length mask = length (anchors self) ->
  candidate_detect <> [] ->
  move_rows candidate_detect candidate_anchors = Return moved ->
  head_id (nms (map (firstn 4) moved) probabilities) = Return box_id ->
  index candidate_detect box_id = Return row ->
  unpack4 row = Return (dx, dy, w, h) ->
  index candidate_anchors box_id = Return anchor ->
  anchor_center anchor = Return center ->
  reshape2 (skipn 4 row) = Return deltas ->
  index (map (vadd center) deltas) 0 = Return kp0 ->
  index (map (vadd center) deltas) 2 = Return kp2 ->
  detect_hand_decode nms self out_reg out_clf =
  ([EvNMS (map (firstn 4) moved) probabilities; EvGetTriangle kp0 kp2 side],
   Return
     (Some (tri_map (fun p => vsub p (vscale (vsub kp0 kp2) (box_shift self)))
              (_get_triangle self kp0 kp2 side)),
      Some (map (vadd center) deltas),
      Some {| detection_candidates := candidate_detect;
              anchor_candidates := candidate_anchors;
              selected_box_id := box_id |})).
Proof.
  intros mask probabilities candidate_detect candidate_anchors side
         Hlen1 Hlen2 Hne Hmv Hid Hrow Hun Hanc Hcen Hre Hk0 Hk2.
  unfold detect_hand_decode. rewrite threshold_mask_passes. fold mask.
  rewrite !mask_index_Return
    by (try assumption; unfold mask; now rewrite !length_map).
  rewrite !bind_lift_Return.
  fold candidate_detect candidate_anchors probabilities.
  destruct (Nat.eqb (length candidate_detect) 0) eqn:E.
  { apply Nat.eqb_eq, length_zero_iff_nil in E. contradiction. }
  rewrite Hmv, bind_lift_Return, bind_emit.
  rewrite Hid, bind_lift_Return, Hrow, bind_lift_Return, Hun, bind_lift_Return.
  rewrite Hanc, bind_lift_Return, Hcen, bind_lift_Return, Hre, bind_lift_Return.
  rewrite Hk0, bind_lift_Return, Hk2, bind_lift_Return, bind_emit.
  reflexivity.
Qed.

(** C10.  Whenever [detect_hand] decodes a hand: one mask (the logits
    that pass) filters the regression rows, the anchors and the
    probabilities handed to the suppression, so row [j] of each is taken
    from the same original anchor index, the [j]-th index the mask keeps;
    the recorded [selected_box_id] is a valid index of the filtered
    arrays; and the returned keypoints are that row's deltas added to that
    row's anchor. *)
Theorem filtered_rows_stay_aligned
    nms (self : BlazePalm) (img_norm : ndarray) l source kps dbg :
  detect_hand nms self img_norm
    = (l, Return (Some source, Some kps, Some dbg)) ->
  let out_reg := fst (interp_palm self img_norm) in
  let out_clf := snd (interp_palm self img_norm) in
  let kept := positions 0 (map passes out_clf) in
  (exists boxes probs,
      In (EvNMS boxes probs) l /\
      length (detection_candidates dbg) = length kept /\
      length (anchor_candidates dbg) = length kept /\
      length probs = length kept /\
      forall j i, nth_error kept j = Some i ->
        nth_error out_clf i <> None /\
        option_map passes (nth_error out_clf i) = Some true /\
        nth_error (detection_candidates dbg) j = nth_error out_reg i /\
        nth_error (anchor_candidates dbg) j = nth_error (anchors self) i /\
        nth_error probs j = option_map _sigm (nth_error out_clf i)) /\
  (selected_box_id dbg < length (detection_candidates dbg))%nat /\
  (selected_box_id dbg < length (anchor_candidates dbg))%nat /\
  exists row anchor center deltas,
    nth_error (detection_candidates dbg) (selected_box_id dbg) = Some row /\
    nth_error (anchor_candidates dbg) (selected_box_id dbg) = Some anchor /\
    anchor_center anchor = Return center /\
    reshape2 (skipn 4 row) = Return deltas /\
    kps = map (vadd center) deltas.
Proof.
  intros H out_reg out_clf kept.
  apply detect_hand_returns_inv in H as (_ & l' & -> & H).
  fold out_reg out_clf in H.
  apply decode_returns_inv in H
    as (moved & row & dx & dy & w & h & anchor & center & deltas & kp0 & kp2 &
        Hlen1 & Hlen2 & Hcd & Hca & Hmv & Hid & Hrow & Hun & Hanc & Hcen & Hre &
        Hkps & Hk0 & Hk2 & Hsrc & Hl).
  set (mask := map passes out_clf) in *.
  assert (Hlen3 : length mask = length (map _sigm out_clf))
    by (unfold mask; now rewrite !length_map).
  split.
  - eexists _, _. split; [rewrite Hl; apply in_or_app; right; left; reflexivity |].
    rewrite Hcd, Hca.
    rewrite (compress_length_positions mask out_reg 0 Hlen1).
    rewrite (compress_length_positions mask (anchors self) 0 Hlen2).
    rewrite (compress_length_positions mask (map _sigm out_clf) 0 Hlen3).
    repeat split; try reflexivity.
    + apply nth_error_In in H. fold mask in H.
      apply positions_lt in H. unfold mask in H. rewrite length_map in H.
      apply nth_error_Some. lia.
    + apply nth_error_In in H. fold mask in H. apply positions_set in H.
      rewrite Nat.sub_0_r in H. unfold mask in H.
      rewrite nth_error_map in H. exact H.
    + rewrite (nth_error_compress mask out_reg 0 j Hlen1).
      fold kept. rewrite H, Nat.sub_0_r. reflexivity.
    + rewrite (nth_error_compress mask (anchors self) 0 j Hlen2).
      fold kept. rewrite H, Nat.sub_0_r. reflexivity.
    + rewrite (nth_error_compress mask (map _sigm out_clf) 0 j Hlen3).
      fold kept. rewrite H, Nat.sub_0_r. apply nth_error_map.
  - apply index_inv in Hrow as [Hrow Hlt1]. apply index_inv in Hanc as [Hanc Hlt2].
    split; [exact Hlt1 |]. split; [exact Hlt2 |].
    exists row, anchor, center, deltas. auto.
Qed.

Lemma zero_image_well_formed : well_formed_input zero_image.
Proof. apply np_full_well_formed. lra. Qed.

(** The sample detector decodes its single candidate, whatever the
    accepted tensor. *)
Lemma sample_run (img_norm : ndarray) :
  well_formed_input img_norm ->
  detect_hand sample_nms sample_detector img_norm
  = (sample_events img_norm,
     Return (Some sample_source, Some sample_keypoints, Some sample_debug)).
Proof.
  intros Hwf.
  assert (Hp : passes (Fin 1) = true).
  { rewrite passes_positive. apply Rltb_true. lra. }
  rewrite detect_hand_well_formed by exact Hwf.
  cbn [sample_detector BlazePalm_default __init__ interp_palm fst snd].
  rewrite (decode_returns sample_nms _ [sample_row] [Fin 1]
             [(Fin 3 + Fin 0.5 * Fin 256)%np :: (Fin 4 + Fin 0.5 * Fin 256)%np
                :: skipn 2 sample_row] 0 sample_row (Fin 3) (Fin 4) (Fin 2) (Fin 1)
             [Fin 0.5; Fin 0.5] sample_center sample_deltas sample_kp0 sample_kp2);
    cbn [map anchors]; rewrite ?Hp; try reflexivity.
  discriminate.
Qed.

Lemma filtered_rows_witness :
  detect_hand sample_nms sample_detector zero_image
  = (sample_events zero_image,
     Return (Some sample_source, Some sample_keypoints, Some sample_debug)) /\
  (selected_box_id sample_debug < length (detection_candidates sample_debug))%nat.
Proof.
  split; [exact (sample_run zero_image zero_image_well_formed) |].
  exact (proj1 (proj2 (filtered_rows_stay_aligned _ _ _ _ _ _ _
                         (sample_run zero_image zero_image_well_formed)))).
Defined.

(** ** Moving the candidates by their anchors *)

Lemma Forall_compress {A : Type} (P : A -> Prop) (mask : list bool) (xs : list A) :
  Forall P xs -> Forall P (compress mask xs).
Proof.
  intros H; revert mask; induction H as [| x xs Hx _ IH]; intros [| b mask];
    simpl; try constructor.
  destruct b; [constructor; [exact Hx |] |]; apply IH.
Qed.

Lemma move_row_inv (det anchor moved : array1) :
  move_row det anchor = Return moved ->
  exists dx dy ax ay,
    firstn 2 det = [dx; dy] /\ firstn 2 anchor = [ax; ay] /\
    moved = (dx + ax * Fin 256)%np :: (dy + ay * Fin 256)%np :: skipn 2 det.
Proof.
  unfold move_row.
  destruct (firstn 2 det) as [| dx [| dy [| ? ?]]]; try discriminate.
  destruct (firstn 2 anchor) as [| ax [| ay [| ? ?]]]; try discriminate.
  intros H; inversion H; subst. exists dx, dy, ax, ay. auto.
Qed.

Lemma move_rows_nth (dets ancs moved : array2) :
  move_rows dets ancs = Return moved ->
  length moved = length dets /\
  forall j row anchor,
    nth_error dets j = Some row -> nth_error ancs j = Some anchor ->
    exists m, nth_error moved j = Some m /\ move_row row anchor = Return m.
Proof.
  revert ancs moved; induction dets as [| d dets IH]; intros [| a ancs] moved H;
    simpl in H; try discriminate.
  - inversion H; subst. split; [reflexivity |]. intros [| j]; discriminate.
  - destruct (move_row d a) as [m |] eqn:Em; [| discriminate].
    destruct (move_rows dets ancs) as [ms |] eqn:Ems; [| discriminate].
    inversion H; subst. destruct (IH _ _ Ems) as [Hlen Hnth].
    split; [simpl; now rewrite Hlen |].
    intros [| j] row anchor Hr Ha; simpl in *.
    + inversion Hr; inversion Ha; subst. eauto.
    + eauto.
Qed.

Ltac explode_row row H :=
  repeat (destruct row as [| ? row]; [discriminate H |]);
  try (destruct row; [| discriminate H]).

(** C8.  Whenever [detect_hand] decodes a hand from 18-column regression
    rows: the box of every above-threshold candidate handed to the
    suppression has centre [anchor * 256 + (dx, dy)] and the candidate's
    own width and height; and the returned keypoints are the selected
    row's 14 deltas, taken as 7 pairs, each added to [anchor * 256]. *)
Theorem candidate_boxes_moved_by_anchor
    nms (self : BlazePalm) (img_norm : ndarray) l source kps dbg :
  detect_hand nms self img_norm
    = (l, Return (Some source, Some kps, Some dbg)) ->
  Forall (fun r => length r = 18%nat) (fst (interp_palm self img_norm)) ->
  exists boxes probs,
    In (EvNMS boxes probs) l /\
    length boxes = length (detection_candidates dbg) /\
    (forall j row anchor,
        nth_error (detection_candidates dbg) j = Some row ->
        nth_error (anchor_candidates dbg) j = Some anchor ->
        exists dx dy w h ax ay,
          firstn 4 row = [dx; dy; w; h] /\
          firstn 2 anchor = [ax; ay] /\
          nth_error boxes j
          = Some [(dx + ax * Fin 256)%np; (dy + ay * Fin 256)%np; w; h]) /\
    exists row anchor ax ay deltas,
      nth_error (detection_candidates dbg) (selected_box_id dbg) = Some row /\
      nth_error (anchor_candidates dbg) (selected_box_id dbg) = Some anchor /\
      firstn 2 anchor = [ax; ay] /\
      concat (map (fun d => [fst d; snd d]) deltas) = skipn 4 row /\
      length deltas = 7%nat /\
      kps = map (fun d => ((ax * Fin 256 + fst d)%np, (ay * Fin 256 + snd d)%np)) deltas.
Proof.
  intros H Hwidth.
  apply detect_hand_returns_inv in H as (_ & l' & -> & H).
  apply decode_returns_inv in H
    as (moved & row & dx & dy & w & h & anchor & center & deltas & kp0 & kp2 &
        Hlen1 & Hlen2 & Hcd & Hca & Hmv & Hid & Hrow & Hun & Hanc & Hcen & Hre &
        Hkps & Hk0 & Hk2 & Hsrc & Hl).
  assert (Hw : Forall (fun r => length r = 18%nat) (detection_candidates dbg)).
  { rewrite Hcd. apply Forall_compress. exact Hwidth. }
  destruct (move_rows_nth _ _ _ Hmv) as [Hmlen Hmnth].
  eexists _, _. split; [rewrite Hl; apply in_or_app; right; left; reflexivity |].
  split; [now rewrite length_map |]. split.
  - intros j r a Hr Ha.
    destruct (Hmnth j r a Hr Ha) as (m & Hm & Hmove).
    apply move_row_inv in Hmove as (dx' & dy' & ax & ay & Hd & Hanch & ->).
    rewrite Forall_forall in Hw. pose proof (Hw r (nth_error_In _ _ Hr)) as Hr18.
    explode_row r Hr18. simpl in Hd. inversion Hd; subst.
    eexists _, _, _, _, ax, ay. split; [reflexivity |]. split; [exact Hanch |].
    rewrite nth_error_map, Hm. reflexivity.
  - apply index_inv in Hrow as [Hrow _]. apply index_inv in Hanc as [Hanc _].
    rewrite Forall_forall in Hw. pose proof (Hw row (nth_error_In _ _ Hrow)) as Hr18.
    unfold anchor_center in Hcen.
    destruct (firstn 2 anchor) as [| ax [| ay [| ? ?]]] eqn:Ea; try discriminate.
    inversion Hcen; subst center.
    exists row, anchor, ax, ay, deltas.
    split; [exact Hrow |]. split; [exact Hanc |]. split; [exact Ea |].
    explode_row row Hr18. simpl in Hre. inversion Hre; subst deltas.
    split; [reflexivity |]. split; [reflexivity |]. exact Hkps.
Qed.

Lemma candidate_boxes_witness :
  Forall (fun r => length r = 18%nat)
         (fst (interp_palm sample_detector zero_image)) /\
  exists boxes probs,
    In (EvNMS boxes probs) (sample_events zero_image) /\
    nth_error boxes 0
    = Some [(Fin 3 + Fin 0.5 * Fin 256)%np; (Fin 4 + Fin 0.5 * Fin 256)%np;
            Fin 2; Fin 1].
Proof.
  assert (Hw : Forall (fun r => length r = 18%nat)
                      (fst (interp_palm sample_detector zero_image))).
  { repeat constructor. }
  split; [exact Hw |].
  destruct (candidate_boxes_moved_by_anchor _ _ _ _ _ _ _
              (sample_run zero_image zero_image_well_formed) Hw)
    as (boxes & probs & Hin & _ & Hbox & _).
  exists boxes, probs. split; [exact Hin |].
  destruct (Hbox 0%nat sample_row [Fin 0.5; Fin 0.5] eq_refl eq_refl)
    as (dx & dy & w & h & ax & ay & Hr & Ha & Hb).
  inversion Hr; inversion Ha; subst. exact Hb.
Defined.

(** ** The oriented triangle *)

Lemma sum_squares_pos (a b : R) : (a, b) <> (0, 0) -> 0 < a * a + b * b.
Proof.
  intros H. destruct (Req_dec_T a 0) as [Ha | Ha].
  - destruct (Req_dec_T b 0) as [Hb | Hb]; [subst; now elim H | nra].
  - nra.
Qed.

Lemma unit_dir_norm (a b : R * R) :
  a <> b -> rnorm (unit_dir a b) = 1.
Proof.
  destruct a as [x0 y0], b as [x2 y2]. intros Hne.
  unfold rnorm, unit_dir; cbn [fst snd].
  set (vx := x2 - x0). set (vy := y2 - y0).
  assert (Hpos : 0 < vx * vx + vy * vy).
  { apply sum_squares_pos. unfold vx, vy. intros E. inversion E.
    apply Hne. f_equal; lra. }
  pose proof (sqrt_lt_R0 _ Hpos) as Hn.
  pose proof (sqrt_sqrt (vx * vx + vy * vy) (Rlt_le _ _ Hpos)) as Hsq.
  set (n := sqrt (vx * vx + vy * vy)) in *.
  replace (vx / n * (vx / n) + vy / n * (vy / n)) with 1.
  - apply sqrt_1.
  - field_simplify_eq; [| lra]. nra.
Qed.

(** Equality of tuples of finite values, component by component. *)
Ltac fin_eq :=
  repeat match goal with
         | |- (_, _) = (_, _) => apply f_equal2
         | |- Fin _ = Fin _ => apply f_equal
         | |- _ :: _ = _ :: _ => apply f_equal2
         | |- Some _ = Some _ => apply f_equal
         | |- Return _ = Return _ => apply f_equal
         | |- @nil _ = @nil _ => reflexivity
         end.

Lemma get_triangle_fin (self : BlazePalm) (x0 y0 x2 y2 d : R) :
  R90 self = [[Fin 0; Fin 1]; [Fin (-1); Fin 0]] ->
  (x0, y0) <> (x2, y2) ->
  let u := unit_dir (x0, y0) (x2, y2) in
  _get_triangle self (Fin x0, Fin y0) (Fin x2, Fin y2) (Fin d)
  = fin_tri (x2, y2)
            (x2 + fst u * d, y2 + snd u * d)
            (x2 + snd u * d, y2 - fst u * d).
Proof.
  intros HR Hne u. unfold _get_triangle. rewrite HR.
  unfold vsub, linalg_norm; cbn [fst snd np_sub np_neg np_add np_mul].
  set (vx := x2 + - x0). set (vy := y2 + - y0).
  assert (Hpos : 0 < vx * vx + vy * vy).
  { apply sum_squares_pos. unfold vx, vy. intros E. inversion E.
    apply Hne. f_equal; lra. }
  rewrite np_sqrt_fin by lra.
  pose proof (sqrt_lt_R0 _ Hpos) as Hn.
  unfold vdiv; cbn [fst snd]. rewrite !np_div_fin by lra.
  assert (Hu : u = (vx / sqrt (vx * vx + vy * vy), vy / sqrt (vx * vx + vy * vy))).
  { unfold u, unit_dir, vx, vy; cbn [fst snd].
    replace (x2 - x0) with (x2 + - x0) by lra.
    replace (y2 - y0) with (y2 + - y0) by lra. reflexivity. }
  rewrite Hu; cbn [fst snd].
  set (n := sqrt (vx * vx + vy * vy)) in *.
  unfold fin_tri, fin_vec, vadd, vscale; cbn. fin_eq; unfold Rdiv; ring.
Qed.

(** C4.  For the winning candidate of a detector built with the default
    factors, with finite keypoints 0 (wrist) and 2 (middle-finger base)
    that differ and finite width and height: the triangle's corner is
    keypoint 2 moved along the wrist-to-middle-finger vector by 0.2 of that
    vector; the second point lies from the corner along the unit
    wrist-to-middle-finger direction, at [max(w, h) * 1.5] times it; the
    third lies from the corner along that baseline turned by a quarter
    turn; the baseline's length is [|max(w, h) * 1.5|], which is
    [max(w, h) * 1.5] for a box whose larger side is not negative. *)
Theorem triangle_from_wrist_and_middle_finger
    nms interp anchors_csv (img_norm : ndarray) l source kps dbg
    (row : array1) (x0 y0 x2 y2 w h : R) :
  detect_hand nms (BlazePalm_default interp anchors_csv) img_norm
    = (l, Return (Some source, Some kps, Some dbg)) ->
  nth_error (detection_candidates dbg) (selected_box_id dbg) = Some row ->
  nth_error row 2 = Some (Fin w) ->
  nth_error row 3 = Some (Fin h) ->
  nth_error kps 0 = Some (Fin x0, Fin y0) ->
  nth_error kps 2 = Some (Fin x2, Fin y2) ->
  (x0, y0) <> (x2, y2) ->
  let side := Rmax w h * 1.5 in
  let u := unit_dir (x0, y0) (x2, y2) in
  let corner := (x2 + (x2 - x0) * 0.2, y2 + (y2 - y0) * 0.2) in
  let baseline := (fst u * side, snd u * side) in
  let third := rot90 baseline in
  source = fin_tri corner
                   (fst corner + fst baseline, snd corner + snd baseline)
                   (fst corner + fst third, snd corner + snd third) /\
  rnorm u = 1 /\
  rnorm baseline = Rabs side /\
  (0 <= Rmax w h -> rnorm baseline = side) /\
  rnorm third = Rabs side /\
  fst baseline * fst third + snd baseline * snd third = 0.
Proof.
  intros H Hrow Hw Hh Hk0 Hk2 Hne side u corner baseline third.
  apply detect_hand_returns_inv in H as (_ & l' & -> & H).
  apply decode_returns_inv in H
    as (moved & row' & dx & dy & w' & h' & anchor & center & deltas & kp0 & kp2 &
        _ & _ & _ & _ & _ & _ & Hrow' & Hun & _ & _ & _ &
        Hkps & Hi0 & Hi2 & Hsrc & _).
  apply index_inv in Hrow' as [Hrow' _]. rewrite Hrow in Hrow'.
  inversion Hrow'; subst row'.
  apply index_inv in Hi0 as [Hi0 _]. apply index_inv in Hi2 as [Hi2 _].
  rewrite Hk0 in Hi0. rewrite Hk2 in Hi2. inversion Hi0; inversion Hi2; subst kp0 kp2.
  unfold unpack4 in Hun.
  destruct row as [| r0 [| r1 [| r2 [| r3 rest]]]]; try discriminate.
  simpl in Hun, Hw, Hh. inversion Hun; inversion Hw; inversion Hh; subst.
  assert (Hunit : rnorm u = 1) by (apply unit_dir_norm; exact Hne).
  assert (Hsq : fst u * fst u + snd u * snd u = 1).
  { unfold rnorm in Hunit.
    assert (Hnn : 0 <= fst u * fst u + snd u * snd u) by nra.
    rewrite <- (sqrt_sqrt _ Hnn). rewrite Hunit. lra. }
  assert (Hlen : forall a b, a * a + b * b = side * side -> sqrt (a * a + b * b) = Rabs side).
  { intros a b ->. fold (Rsqr side). apply sqrt_Rsqr_abs. }
  assert (Hbase : rnorm baseline = Rabs side).
  { unfold rnorm, baseline; cbn [fst snd]. apply Hlen. nra. }
  split; [| split; [exact Hunit | split; [exact Hbase | split; [| split]]]].
  - cbn [BlazePalm_default __init__ box_enlarge box_shift].
    rewrite py_max_fin. cbn [np_mul].
    rewrite (get_triangle_fin _ x0 y0 x2 y2 (Rmax w h * 1.5)); [| reflexivity | exact Hne].
    fold u. unfold fin_tri, fin_vec, tri_map, vsub, vscale, corner, baseline, third,
      rot90, side; cbn. fin_eq; unfold side; lra.
  - intros Hpos. rewrite Hbase. apply Rabs_pos_eq. unfold side. lra.
  - unfold rnorm, third, rot90, baseline; cbn [fst snd]. apply Hlen. nra.
  - unfold third, rot90, baseline; cbn [fst snd]. ring.
Qed.

Lemma triangle_witness :
  (0.5 * 256 + 0, 0.5 * 256 + 0) <> (0.5 * 256 + 0, 0.5 * 256 + 1) /\
  let u := unit_dir (0.5 * 256 + 0, 0.5 * 256 + 0) (0.5 * 256 + 0, 0.5 * 256 + 1) in
  rnorm (fst u * (Rmax 2 1 * 1.5), snd u * (Rmax 2 1 * 1.5)) = Rabs (Rmax 2 1 * 1.5).
Proof.
  assert (Hne : (0.5 * 256 + 0, 0.5 * 256 + 0) <> (0.5 * 256 + 0, 0.5 * 256 + 1)).
  { intros E. inversion E. lra. }
  split; [exact Hne |].
  exact (proj1 (proj2 (proj2
           (triangle_from_wrist_and_middle_finger
              sample_nms _ _ zero_image _ _ _ _ sample_row
              (0.5 * 256 + 0) (0.5 * 256 + 0) (0.5 * 256 + 0) (0.5 * 256 + 1) 2 1
              (sample_run zero_image zero_image_well_formed)
              eq_refl eq_refl eq_refl eq_refl eq_refl Hne)))).
Defined.

(** ** Coinciding wrist and middle-finger keypoints *)

Lemma get_triangle_degenerate (self : BlazePalm) (x y : R) (d : np_float) :
  R90 self = [[Fin 0; Fin 1]; [Fin (-1); Fin 0]] ->
  _get_triangle self (Fin x, Fin y) (Fin x, Fin y) d
  = ((Fin x, Fin y), (NaN, NaN), (NaN, NaN)).
Proof.
  intros HR. unfold _get_triangle. rewrite HR.
  unfold vsub, linalg_norm; cbn [fst snd np_sub np_neg np_add np_mul].
  assert (Hz : (x + - x) * (x + - x) + (y + - y) * (y + - y) = 0) by ring.
  rewrite np_sqrt_fin by lra. rewrite Hz, sqrt_0.
  unfold vdiv; cbn [fst snd].
  rewrite !np_div_zero_zero by lra.
  reflexivity.
Qed.

Lemma degenerate_shifted_triangle (self : BlazePalm) (x y : R) (d : np_float) :
  R90 self = [[Fin 0; Fin 1]; [Fin (-1); Fin 0]] ->
  box_shift self = Fin 0.2 ->
  tri_map (fun p => vsub p (vscale (vsub (Fin x, Fin y) (Fin x, Fin y)) (box_shift self)))
          (_get_triangle self (Fin x, Fin y) (Fin x, Fin y) d)
  = ((Fin x, Fin y), (NaN, NaN), (NaN, NaN)).
Proof.
  intros HR Hs. rewrite (get_triangle_degenerate self x y d HR), Hs.
  unfold tri_map, vsub, vscale; cbn. fin_eq; try reflexivity; lra.
Qed.

Lemma degenerate_run_on (img_norm : ndarray) :
  well_formed_input img_norm ->
  detect_hand sample_nms degenerate_detector img_norm
  = (degenerate_events_on img_norm,
     Return (Some (degenerate_kp, (NaN, NaN), (NaN, NaN)),
             Some degenerate_keypoints, Some degenerate_debug)).
Proof.
  intros Hwf.
  assert (Hp : passes (Fin 1) = true).
  { rewrite passes_positive. apply Rltb_true. lra. }
  rewrite detect_hand_well_formed by exact Hwf.
  cbn [degenerate_detector BlazePalm_default __init__ interp_palm fst snd].
  rewrite (decode_returns sample_nms _ [degenerate_row] [Fin 1]
             [(Fin 0 + Fin 0.5 * Fin 256)%np :: (Fin 0 + Fin 0.5 * Fin 256)%np
                :: skipn 2 degenerate_row] 0 degenerate_row
             (Fin 0) (Fin 0) (Fin 2) (Fin 1)
             [Fin 0.5; Fin 0.5] sample_center (repeat (Fin 0, Fin 0) 7)
             degenerate_kp degenerate_kp);
    cbn [map anchors]; rewrite ?Hp; try reflexivity; try discriminate.
  cbn [box_shift box_enlarge].
  rewrite (degenerate_shifted_triangle _ (0.5 * 256 + 0) (0.5 * 256 + 0));
    reflexivity.
Qed.

Lemma degenerate_run :
  detect_hand sample_nms degenerate_detector zero_image
  = (degenerate_events,
     Return (Some (degenerate_kp, (NaN, NaN), (NaN, NaN)),
             Some degenerate_keypoints, Some degenerate_debug)).
Proof. apply degenerate_run_on. apply np_full_well_formed. lra. Qed.

(** ** The affine transform and its inverse *)

Lemma linalg_inv_fin (a b c d e f g h i : R) :
  let D := a * (e * i - f * h) - b * (d * i - f * g) + c * (d * h - e * g) in
  D <> 0 ->
  linalg_inv [[Fin a; Fin b; Fin c]; [Fin d; Fin e; Fin f]; [Fin g; Fin h; Fin i]]
  = Return
      [[Fin ((e * i - f * h) / D); Fin ((c * h - b * i) / D); Fin ((b * f - c * e) / D)];
       [Fin ((f * g - d * i) / D); Fin ((a * i - c * g) / D); Fin ((c * d - a * f) / D)];
       [Fin ((d * h - e * g) / D); Fin ((b * g - a * h) / D); Fin ((a * e - b * d) / D)]].
Proof.
  intros D HD. unfold linalg_inv, det3.
  cbn [np_sub np_neg np_add np_mul].
  assert (HD' : a * (e * i + - (f * h)) + - (b * (d * i + - (f * g)))
                + c * (d * h + - (e * g)) = D) by (unfold D; ring).
  rewrite HD'. rewrite np_is_zero_fin by exact HD.
  rewrite !np_div_fin by exact HD.
  fin_eq; unfold Rdiv; ring.
Qed.


Lemma pred_bbox_Mtr_fin interp anchors_csv (a b c : R * R) :
  tri_det a b c <> 0 ->
  square_affine
    (cv2_getAffineTransform (fin_tri a b c)
       (_target_triangle (BlazePalm_default interp anchors_csv)))
  = affine_matrix a b c.
Proof.
  destruct a as [x0 y0], b as [x1 y1], c as [x2 y2]. intros HD.
  unfold cv2_getAffineTransform, fin_tri, fin_vec, det3.
  cbn [fst snd BlazePalm_default __init__ _target_triangle
       np_sub np_neg np_add np_mul].
  match goal with
  | |- context [np_is_zero (Fin ?d)] =>
      assert (Hd : d = tri_det (x0, y0) (x1, y1) (x2, y2))
        by (unfold tri_det; cbn [fst snd]; ring);
      rewrite Hd
  end.
  rewrite np_is_zero_fin by exact HD.
  rewrite !np_div_fin by exact HD.
  unfold square_affine, affine_matrix, _pad1, transpose; cbn.
  fin_eq; unfold rdet3; unfold Rdiv; ring.
Qed.

Lemma affine_matrix_det (a b c : R * R) :
  tri_det a b c <> 0 ->
  let D := tri_det a b c in
  let '(x0, y0) := a in
  let '(x1, y1) := b in
  let '(x2, y2) := c in
  rdet3 (rdet3 128 y0 1 128 y1 1 0 y2 1 / D)
        (rdet3 x0 128 1 x1 128 1 x2 0 1 / D)
        (rdet3 x0 y0 128 x1 y1 128 x2 y2 0 / D)
        (rdet3 128 y0 1 0 y1 1 128 y2 1 / D)
        (rdet3 x0 128 1 x1 0 1 x2 128 1 / D)
        (rdet3 x0 y0 128 x1 y1 0 x2 y2 128 / D)
        0 0 1
  = -16384 / D.
Proof.
  destruct a as [x0 y0], b as [x1 y1], c as [x2 y2]. intros HD D.
  subst D. unfold rdet3, tri_det in *. cbn [fst snd] in *. field. exact HD.
Qed.




Lemma affine_matrix_maps (a b c : R * R) :
  tri_det a b c <> 0 ->
  exists n00 n01 n02 n10 n11 n12 : R,
    affine_matrix a b c
    = [[Fin n00; Fin n01; Fin n02]; [Fin n10; Fin n11; Fin n12];
       [Fin 0; Fin 0; Fin 1]] /\
    rdet3 n00 n01 n02 n10 n11 n12 0 0 1 <> 0 /\
    (n00 * fst a + n01 * snd a + n02 = 128 /\ n10 * fst a + n11 * snd a + n12 = 128) /\
    (n00 * fst b + n01 * snd b + n02 = 128 /\ n10 * fst b + n11 * snd b + n12 = 0) /\
    (n00 * fst c + n01 * snd c + n02 = 0 /\ n10 * fst c + n11 * snd c + n12 = 128).
Proof.
  intros HD. pose proof (affine_matrix_det a b c HD) as Hdm.
  destruct a as [x0 y0], b as [x1 y1], c as [x2 y2].
  unfold affine_matrix. cbv zeta in Hdm. cbn [fst snd] in Hdm |- *.
  eexists _, _, _, _, _, _. split; [reflexivity |]. split.
  - rewrite Hdm. unfold Rdiv. apply Rmult_integral_contrapositive_currified;
      [lra | apply Rinv_neq_0_compat; exact HD].
  - unfold rdet3, tri_det in *; cbn [fst snd] in *.
    repeat split; field; exact HD.
Qed.



(** ** One box or none *)

Lemma linalg_inv_shape (m m' : array2) :
  linalg_inv m = Return m' ->
  exists a b c d e f g h i, m' = [[a; b; c]; [d; e; f]; [g; h; i]].
Proof.
  unfold linalg_inv.
  destruct m as [| [| a [| b [| c [| ? ?]]]] [| [| d [| e [| f [| ? ?]]]] [| [| g [| h [| i [| ? ?]]]] [| ? ?]]]];
    try discriminate.
  destruct (np_is_zero _); [discriminate |].
  intros H; inversion H. eauto 10.
Qed.

Lemma preprocess_img_inv np_pad cv2_resize img l img_pad img_norm pad :
  preprocess_img np_pad cv2_resize img = (l, Return (img_pad, img_norm, pad)) ->
  exists h w c p0 p1,
    shape img = [h; w; c] /\ pad = [p0; p1] /\
    img_norm = _im_normalize (cv2_resize (np_pad img p0 p1) 256%nat 256%nat).
Proof.
  unfold preprocess_img.
  destruct (shape img) as [| h [| w [| c [| ? ?]]]] eqn:Es; try discriminate;
    cbn [firstn map index nth_error length Nat.eqb];
    rewrite ?bind_lift_Return, ?bind_lift_Raise, ?bind_raise, ?bind_ret;
    try discriminate.
  intros H; inversion H; subst. eauto 10.
Qed.

(** C2.  Whatever the suppression routine returns, a call of [pred_bbox]
    on a detector built by [__init__] that returns a value returns either
    the "no detection" value or one box, a list of exactly four rows of
    exactly two coordinates; [__call__] returns the same value.  (Only
    the first index the suppression returns is used.) *)
Theorem one_box_or_none
    nms np_pad cv2_resize box_enlarge box_shift interp anchors_csv
    (img : ndarray) l (v : option array2) :
  let self := __init__ box_enlarge box_shift interp anchors_csv in
  pred_bbox nms np_pad cv2_resize self img = (l, Return v) ->
  __call__ nms np_pad cv2_resize self img = (l, Return v) /\
  (v = None \/
   exists r0 r1 r2 r3,
     v = Some [r0; r1; r2; r3] /\
     length r0 = 2%nat /\ length r1 = 2%nat /\ length r2 = 2%nat /\ length r3 = 2%nat).
Proof.
  intros self H. split.
  { unfold __call__. rewrite H. unfold bind, ret. now rewrite app_nil_r. }
  unfold pred_bbox in H.
  apply bind_return_inv in H as (l1 & [[img_pad img_norm] pad] & l2 & Hpre & H & ->).
  apply bind_return_inv in H as (l3 & [[source kps] dbg] & l4 & Hdet & H & ->).
  destruct source as [source |]; [| inversion H; auto].
  right. apply bind_emit_inv in H as (l5 & -> & H).
  apply bind_emit_inv in H as (l6 & -> & H).
  step_lift H. rename a into Minv. inversion H; subst v; clear H.
  apply preprocess_img_inv in Hpre as (h & w & c & p0 & p1 & _ & -> & _).
  apply linalg_inv_shape in E as (a & b & c' & d & e & f & g & h' & i & ->).
  unfold project_box, project, matmul, transpose, self; cbn.
  eexists _, _, _, _. repeat split; reflexivity.
Qed.


(** ** A call that returns a box *)

Lemma shifted_triangle_fin (self : BlazePalm) (x0 y0 x2 y2 d : R) :
  R90 self = [[Fin 0; Fin 1]; [Fin (-1); Fin 0]] ->
  box_shift self = Fin 0.2 ->
  (x0, y0) <> (x2, y2) ->
  let u := unit_dir (x0, y0) (x2, y2) in
  let corner := (x2 + (x2 - x0) * 0.2, y2 + (y2 - y0) * 0.2) in
  tri_map (fun p => vsub p (vscale (vsub (Fin x0, Fin y0) (Fin x2, Fin y2))
                                   (box_shift self)))
          (_get_triangle self (Fin x0, Fin y0) (Fin x2, Fin y2) (Fin d))
  = fin_tri corner
            (fst corner + fst u * d, snd corner + snd u * d)
            (fst corner + snd u * d, snd corner - fst u * d).
Proof.
  intros HR Hs Hne u corner.
  rewrite (get_triangle_fin self x0 y0 x2 y2 d HR Hne), Hs. fold u.
  unfold fin_tri, fin_vec, tri_map, vsub, vscale, corner; cbn.
  fin_eq; lra.
Qed.

Lemma right_triangle_det (cx cy bx by_ : R) :
  tri_det (cx, cy) (cx + bx, cy + by_) (cx + by_, cy - bx) = - (bx * bx + by_ * by_).
Proof. unfold tri_det; cbn [fst snd]; ring. Qed.

Lemma unit_dir_squares (a b : R * R) :
  a <> b -> fst (unit_dir a b) * fst (unit_dir a b)
            + snd (unit_dir a b) * snd (unit_dir a b) = 1.
Proof.
  intros Hne. pose proof (unit_dir_norm a b Hne) as Hn. unfold rnorm in Hn.
  assert (Hnn : 0 <= fst (unit_dir a b) * fst (unit_dir a b)
                     + snd (unit_dir a b) * snd (unit_dir a b)) by nra.
  rewrite <- (sqrt_sqrt _ Hnn). rewrite Hn. lra.
Qed.

Lemma bind_Return {A B : Type} (l : list event) (a : A) (f : A -> M B) :
  bind (l, Return a) f = (l ++ fst (f a), snd (f a)).
Proof. unfold bind. destruct (f a); reflexivity. Qed.

Lemma pred_bbox_returns_box nms np_pad cv2_resize interp anchors_csv
    (img img_pad img_norm : ndarray) pad silent l kps dbg (p q r : R * R) (s : R) :
  let self := BlazePalm_default interp anchors_csv in
  preprocess_img np_pad cv2_resize img = (silent, Return (img_pad, img_norm, pad)) ->
  detect_hand nms self img_norm = (l, Return (Some (fin_tri p q r), kps, dbg)) ->
  img_scale img = Fin s ->
  s <> 0 ->
  tri_det p q r <> 0 ->
  exists Minv,
    linalg_inv (pred_bbox_Mtr self (fin_tri p q r) (Fin s)) = Return Minv /\
    pred_bbox nms np_pad cv2_resize self img
    = (l ++ [EvGetAffineTransform (scaled_source (fin_tri p q r) (Fin s))
                                  (_target_triangle self);
             EvLinalgInv (pred_bbox_Mtr self (fin_tri p q r) (Fin s))],
       Return (Some (project_box self Minv pad))).
Proof.
  intros self Hpre Hdet Hscale Hs Htri.
  destruct p as [x0 y0], q as [x1 y1], r as [x2 y2].
  set (a := (x0 * s, y0 * s)). set (b := (x1 * s, y1 * s)). set (c := (x2 * s, y2 * s)).
  assert (HD : tri_det a b c <> 0).
  { replace (tri_det a b c) with (s * s * tri_det (x0, y0) (x1, y1) (x2, y2))
      by (unfold tri_det, a, b, c; cbn [fst snd]; ring).
    repeat apply Rmult_integral_contrapositive_currified; assumption. }
  assert (HM : pred_bbox_Mtr self (fin_tri (x0, y0) (x1, y1) (x2, y2)) (Fin s)
               = affine_matrix a b c).
  { unfold pred_bbox_Mtr.
    change (scaled_source (fin_tri (x0, y0) (x1, y1) (x2, y2)) (Fin s))
      with (fin_tri a b c).
    apply pred_bbox_Mtr_fin. exact HD. }
  destruct (affine_matrix_maps a b c HD)
    as (n00 & n01 & n02 & n10 & n11 & n12 & Hmat & HDM & _).
  unfold rdet3 in HDM.
  pose proof (linalg_inv_fin n00 n01 n02 n10 n11 n12 0 0 1 HDM) as Hinv.
  cbv zeta in Hinv. rewrite <- Hmat, <- HM in Hinv.
  eexists. split; [exact Hinv |].
  pose proof (preprocess_img_silent _ _ _ _ _ Hpre) as ->.
  unfold pred_bbox. rewrite Hpre, bind_Return. cbv beta iota.
  rewrite Hdet, bind_Return. cbv beta iota.
  rewrite Hscale. fold self. rewrite !bind_emit, Hinv, bind_lift_Return.
  reflexivity.
Qed.

Lemma im_normalize_full (s : list nat) (v : R) :
  _im_normalize (np_full s (Fin v)) = np_full s (Fin (2 * (v / 255 - 0.5))).
Proof.
  unfold _im_normalize, np_full; cbn [shape data]. f_equal.
  rewrite map_repeat. f_equal.
  rewrite np_div_fin by lra. cbn. fin_eq. lra.
Qed.

Lemma grey_frame_preprocessed :
  preprocess_img pad_nothing resize_nothing grey_frame
  = ([], Return (grey_frame, _im_normalize grey_frame, [0; 0]%nat)).
Proof. reflexivity. Qed.

Lemma grey_frame_normalised_well_formed :
  well_formed_input (_im_normalize grey_frame).
Proof.
  unfold grey_frame. rewrite im_normalize_full. apply np_full_well_formed. lra.
Qed.

Lemma sample_source_fin :
  exists p q r : R * R, sample_source = fin_tri p q r /\ tri_det p q r <> 0.
Proof.
  assert (Hne : (0.5 * 256 + 0, 0.5 * 256 + 0) <> (0.5 * 256 + 0, 0.5 * 256 + 1)).
  { intros E. inversion E. lra. }
  assert (Hmax : Rmax 2 1 = 2).
  { unfold Rmax. destruct (Rle_dec 2 1); lra. }
  unfold sample_source, sample_side. rewrite py_max_fin. cbn [np_mul].
  change (Fin 0.2) with (box_shift sample_detector).
  change sample_kp0 with (Fin (0.5 * 256 + 0), Fin (0.5 * 256 + 0)).
  change sample_kp2 with (Fin (0.5 * 256 + 0), Fin (0.5 * 256 + 1)).
  rewrite (shifted_triangle_fin sample_detector _ _ _ _ _ eq_refl eq_refl Hne).
  cbv zeta. eexists _, _, _. split; [reflexivity |].
  cbn [fst snd].
  match goal with
  | |- tri_det (?cx, ?cy) (_ + ?bx, _ + ?by_) _ <> 0 =>
      replace (cy - _) with (cy - bx) by reflexivity;
      rewrite (right_triangle_det cx cy bx by_)
  end.
  pose proof (unit_dir_squares _ _ Hne) as Hu. rewrite Hmax.
  set (u := unit_dir _ _) in *. nra.
Qed.

Lemma one_box_or_none_witness :
  exists l box,
    pred_bbox sample_nms pad_nothing resize_nothing sample_detector grey_frame
    = (l, Return (Some box)) /\
    __call__ sample_nms pad_nothing resize_nothing sample_detector grey_frame
    = (l, Return (Some box)) /\
    length box = 4%nat.
Proof.
  destruct sample_source_fin as (p & q & r & Hsrc & Htri).
  pose proof (sample_run _ grey_frame_normalised_well_formed) as Hrun.
  rewrite Hsrc in Hrun.
  assert (Hscale : img_scale grey_frame = Fin (INR 256 / 256)).
  { unfold img_scale. apply np_div_fin. lra. }
  assert (Hs : INR 256 / 256 <> 0).
  { unfold Rdiv. apply Rmult_integral_contrapositive_currified;
      [apply not_0_INR; discriminate | lra]. }
  destruct (pred_bbox_returns_box sample_nms pad_nothing resize_nothing
              _ _ grey_frame _ _ _ _ _ _ _ p q r _
              grey_frame_preprocessed Hrun Hscale Hs Htri) as (Minv & _ & Hpred).
  destruct (one_box_or_none sample_nms pad_nothing resize_nothing
              _ _ _ _ grey_frame _ _ Hpred) as [Hcall [Hnone | Hbox]].
  - discriminate Hnone.
  - destruct Hbox as (r0 & r1 & r2 & r3 & Hv & _).
    eexists _, (project_box sample_detector Minv [0; 0]%nat).
    split; [exact Hpred |]. split; [exact Hcall |].
    inversion Hv as [Hb]. reflexivity.
Defined.

(** ** Non-maximum suppression does not depend on the order *)

Section NmsOrder.

Import NmsSpec.

Lemma above_threshold_ranked (c : candidate) : above_threshold c -> ranked c.
Proof.
  unfold above_threshold, ranked, np_gt. destruct (c_prob c); simpl; congruence.
Qed.

Ltac rank_cases :=
  unfold ranks_before, ranked, np_gt, np_lt, np_eqb, Rltb, is_nan in *;
  repeat match goal with
         | c : candidate |- _ => destruct c as [? ? []]
         end;
  cbn [c_prob c_index] in *;
  repeat match goal with
         | |- context [Rlt_dec ?u ?v] => destruct (Rlt_dec u v)
         | H : context [Rlt_dec ?u ?v] |- _ => destruct (Rlt_dec u v)
         | |- context [Req_dec_T ?u ?v] => destruct (Req_dec_T u v)
         | H : context [Req_dec_T ?u ?v] |- _ => destruct (Req_dec_T u v)
         | |- context [Nat.ltb ?u ?v] => destruct (Nat.ltb_spec u v)
         | H : context [Nat.ltb ?u ?v] |- _ => destruct (Nat.ltb_spec u v)
         end;
  cbn in *; try discriminate; try reflexivity; try lra; try lia; auto.

Lemma ranks_before_total (a b : candidate) :
  ranked a -> ranked b -> c_index a <> c_index b ->
  ranks_before a b = true \/ ranks_before b a = true.
Proof.
  intros Ha Hb Hne.
  destruct (ranks_before a b) eqn:Eab; [now left | right].
  rank_cases.
Qed.

Lemma ranks_before_trans (a b c : candidate) :
  ranks_before a b = true -> ranks_before b c = true -> ranks_before a c = true.
Proof. intros H1 H2. rank_cases. Qed.

Lemma pick_best_in (best : candidate) (rest : list candidate) :
  In (pick_best best rest) (best :: rest).
Proof.
  revert best; induction rest as [| c rest IH]; intros best; simpl; [auto |].
  destruct (IH (if ranks_before c best then c else best)) as [H | H]; [| auto].
  destruct (ranks_before c best); rewrite <- H; auto.
Qed.

Lemma pick_best_unbeaten (best : candidate) (rest : list candidate) :
  Forall ranked (best :: rest) ->
  NoDup (map c_index (best :: rest)) ->
  forall c, In c (best :: rest) -> ranks_before c (pick_best best rest) = false.
Proof.
  revert best; induction rest as [| x rest IH]; intros best Hr Hnd c Hin.
  - destruct Hin as [<- | []]. simpl. rank_cases.
  - simpl pick_best.
    inversion Hr as [| ? ? Hrb Hr']; subst. inversion Hr' as [| ? ? Hrx Hrr]; subst.
    simpl in Hnd. inversion Hnd as [| ? ? Hnb Hnd']; subst.
    inversion Hnd' as [| ? ? Hnx Hndr]; subst.
    assert (Hbx : c_index best <> c_index x) by (intros E; apply Hnb; left; auto).
    set (b' := if ranks_before x best then x else best).
    assert (Hb'in : b' = x \/ b' = best) by (unfold b'; destruct (ranks_before x best); auto).
    assert (Hr2 : Forall ranked (b' :: rest)).
    { constructor; [destruct Hb'in as [-> | ->]; assumption | assumption]. }
    assert (Hnd2 : NoDup (map c_index (b' :: rest))).
    { simpl. constructor; [| assumption].
      destruct Hb'in as [-> | ->]; [assumption |].
      intros E. apply Hnb. right. exact E. }
    pose proof (IH b' Hr2 Hnd2) as Hun.
    set (m := pick_best b' rest) in *.
    assert (Hb'm : ranks_before b' m = false) by (apply Hun; left; reflexivity).
    assert (Hother : forall o, (o = x \/ o = best) -> ranks_before o m = false).
    { intros o Ho.
      destruct (ranks_before o m) eqn:Eom; [exfalso | reflexivity].
      unfold b' in Hb'm. destruct (ranks_before x best) eqn:Exb.
      - destruct Ho as [-> | ->]; [congruence |].
        pose proof (ranks_before_trans _ _ _ Exb Eom). congruence.
      - destruct Ho as [-> | ->]; [| congruence].
        destruct (ranks_before_total best x Hrb Hrx Hbx) as [Hbx' | Hxb']; [| congruence].
        pose proof (ranks_before_trans _ _ _ Hbx' Eom). congruence. }
    destruct Hin as [<- | [<- | Hin]]; [apply Hother; auto | apply Hother; auto |].
    apply Hun. right. exact Hin.
Qed.

Lemma NoDup_map_injective {A B : Type} (f : A -> B) (l : list A) (x y : A) :
  NoDup (map f l) -> In x l -> In y l -> f x = f y -> x = y.
Proof.
  induction l as [| a l IH]; simpl; intros Hnd Hx Hy E; [contradiction |].
  inversion Hnd as [| ? ? Hnot Hnd']; subst.
  destruct Hx as [-> | Hx], Hy as [-> | Hy]; auto.
  - exfalso. apply Hnot. rewrite E. now apply in_map.
  - exfalso. apply Hnot. rewrite <- E. now apply in_map.
Qed.

(** The best candidate is the same for every order of the list. *)
Lemma pick_best_permutation (b b' : candidate) (rest rest' : list candidate) :
  Permutation (b :: rest) (b' :: rest') ->
  Forall ranked (b :: rest) ->
  NoDup (map c_index (b :: rest)) ->
  pick_best b rest = pick_best b' rest'.
Proof.
  intros Hp Hr Hnd.
  assert (Hr' : Forall ranked (b' :: rest')) by (rewrite <- Hp; exact Hr).
  assert (Hnd' : NoDup (map c_index (b' :: rest'))).
  { eapply Permutation_NoDup; [apply Permutation_map; exact Hp | exact Hnd]. }
  set (m := pick_best b rest). set (m' := pick_best b' rest').
  assert (Hm : In m (b :: rest)) by apply pick_best_in.
  assert (Hm' : In m' (b :: rest)).
  { eapply Permutation_in; [symmetry; exact Hp | apply pick_best_in]. }
  apply (NoDup_map_injective c_index (b :: rest)); auto.
  destruct (Nat.eq_dec (c_index m) (c_index m')) as [E | Hne]; [exact E | exfalso].
  rewrite Forall_forall in Hr.
  destruct (ranks_before_total m m' (Hr _ Hm) (Hr _ Hm') Hne) as [H | H].
  - assert (Hin : In m (b' :: rest')) by (eapply Permutation_in; [exact Hp | exact Hm]).
    pose proof (pick_best_unbeaten b' rest' Hr' Hnd' m Hin) as Hc.
    fold m' in Hc. congruence.
  - assert (HrF : Forall ranked (b :: rest)) by (apply Forall_forall; exact Hr).
    pose proof (pick_best_unbeaten b rest HrF Hnd m' Hm') as Hc.
    fold m in Hc. congruence.
Qed.

Lemma filter_permutation {A : Type} (f : A -> bool) (l l' : list A) :
  Permutation l l' -> Permutation (filter f l) (filter f l').
Proof.
  induction 1 as [| x l l' _ IH | x y l | l l' l'' _ IH1 _ IH2]; simpl.
  - constructor.
  - destruct (f x); [constructor |]; exact IH.
  - destruct (f x), (f y); try reflexivity. apply perm_swap.
  - etransitivity; eassumption.
Qed.

Lemma NoDup_map_filter {A B : Type} (g : A -> B) (f : A -> bool) (l : list A) :
  NoDup (map g l) -> NoDup (map g (filter f l)).
Proof.
  induction l as [| x l IH]; simpl; intros H; [constructor |].
  inversion H as [| ? ? Hnot Hnd]; subst.
  destruct (f x); simpl; [constructor |]; auto.
  intros Hin. apply Hnot. apply in_map_iff in Hin as (y & Ey & Hy).
  apply filter_In in Hy as [Hy _]. apply in_map_iff. eauto.
Qed.

Lemma Forall_filter_keeps {A : Type} (P : A -> Prop) (f : A -> bool) (l : list A) :
  Forall P l -> Forall P (filter f l).
Proof.
  induction 1 as [| x l Hx _ IH]; simpl; [constructor |].
  destruct (f x); [constructor |]; assumption.
Qed.

Lemma filter_length_le {A : Type} (f : A -> bool) (l : list A) :
  (length (filter f l) <= length l)%nat.
Proof. induction l as [| x l IH]; simpl; [lia |]. destruct (f x); simpl; lia. Qed.

Lemma filter_length_lt {A : Type} (f : A -> bool) (l : list A) (x : A) :
  In x l -> f x = false -> (length (filter f l) < length l)%nat.
Proof.
  induction l as [| y l IH]; simpl; [tauto |].
  intros [-> | Hin] Hf.
  - rewrite Hf. pose proof (filter_length_le f l). lia.
  - specialize (IH Hin Hf). destruct (f y); simpl; lia.
Qed.

Lemma best_is_suppressed thr (best : candidate) : survives thr best best = false.
Proof. unfold survives. now rewrite Nat.eqb_refl. Qed.

(** The loop stops because no candidate remains, never for lack of fuel:
    any fuel of at least the number of candidates gives the same picks. *)
Lemma nms_loop_fuel thr (f1 f2 : nat) (l : list candidate) :
  (length l <= f1)%nat -> (length l <= f2)%nat ->
  nms_loop f1 thr l = nms_loop f2 thr l.
Proof.
  revert f2 l; induction f1 as [| f1 IH]; intros f2 l H1 H2.
  - destruct l; [| simpl in H1; lia]. now destruct f2.
  - destruct l as [| c rest]; [now destruct f2 |].
    destruct f2 as [| f2]; [simpl in H2; lia |].
    cbn [nms_loop]. f_equal.
    pose proof (filter_length_lt (survives thr (pick_best c rest)) (c :: rest)
                  (pick_best c rest) (pick_best_in c rest)
                  (best_is_suppressed thr _)) as Hlt.
    simpl in H1, H2. change (length (c :: rest)) with (S (length rest)) in Hlt.
    apply IH; lia.
Qed.

Lemma nms_loop_permutation thr (fuel : nat) (l l' : list candidate) :
  Permutation l l' ->
  Forall ranked l ->
  NoDup (map c_index l) ->
  nms_loop fuel thr l = nms_loop fuel thr l'.
Proof.
  revert l l'; induction fuel as [| fuel IH]; intros l l' Hp Hr Hnd; [reflexivity |].
  destruct l as [| c rest].
  - apply Permutation_nil in Hp. now subst.
  - destruct l' as [| c' rest'].
    { symmetry in Hp. apply Permutation_nil in Hp. discriminate. }
    cbn [nms_loop].
    rewrite (pick_best_permutation c c' rest rest' Hp Hr Hnd).
    f_equal. apply IH.
    + apply filter_permutation. exact Hp.
    + apply Forall_filter_keeps. exact Hr.
    + apply NoDup_map_filter. exact Hnd.
Qed.

Lemma selected_is_best thr (c : candidate) (rest : list candidate) :
  selected thr (c :: rest) = Some (pick_best c rest).
Proof. reflexivity. Qed.

(** C5.  For above-threshold candidates that carry the distinct index
    they had in the original list, and for every reordering of the list:
    the suppression picks the same candidates in the same order, so the
    selected (first) candidate is the same; it is a candidate of the list
    and ranks before every other one, by greater probability or, at equal
    probability, by smaller original index. *)
Theorem suppression_is_order_independent
    (overlap_threshold : np_float) (l l' : list candidate) :
  Permutation l l' ->
  Forall above_threshold l ->
  NoDup (map c_index l) ->
  nms overlap_threshold l = nms overlap_threshold l' /\
  selected overlap_threshold l = selected overlap_threshold l' /\
  forall best, selected overlap_threshold l = Some best ->
    In best l /\
    forall c, In c l -> c <> best -> ranks_before best c = true.
Proof.
  intros Hp Hab Hnd.
  assert (Hr : Forall ranked l).
  { eapply Forall_impl; [| exact Hab]. apply above_threshold_ranked. }
  assert (Hnms : nms overlap_threshold l = nms overlap_threshold l').
  { unfold nms. rewrite <- (Permutation_length Hp).
    apply nms_loop_permutation; assumption. }
  split; [exact Hnms |]. split; [unfold selected; now rewrite Hnms |].
  intros best Hsel. destruct l as [| c rest]; [discriminate |].
  rewrite selected_is_best in Hsel. inversion Hsel; subst best; clear Hsel.
  split; [apply pick_best_in |].
  intros x Hx Hne.
  pose proof (pick_best_unbeaten c rest Hr Hnd x Hx) as Hun.
  assert (Hidx : c_index (pick_best c rest) <> c_index x).
  { intros E. apply Hne. symmetry.
    apply (NoDup_map_injective c_index (c :: rest)); auto using pick_best_in. }
  rewrite Forall_forall in Hr.
  destruct (ranks_before_total (pick_best c rest) x
              (Hr _ (pick_best_in c rest)) (Hr _ Hx) Hidx) as [H | H];
    [exact H | congruence].
Qed.

Lemma suppression_order_witness :
  nms (Fin 0.3) [candidate_a; candidate_b] = nms (Fin 0.3) [candidate_b; candidate_a] /\
  selected (Fin 0.3) [candidate_a; candidate_b]
  = selected (Fin 0.3) [candidate_b; candidate_a].
Proof.
  assert (Hp : Permutation [candidate_a; candidate_b] [candidate_b; candidate_a])
    by apply perm_swap.
  assert (Hab : Forall above_threshold [candidate_a; candidate_b]).
  { repeat constructor; unfold above_threshold, np_gt; simpl; apply Rltb_true; lra. }
  assert (Hnd : NoDup (map c_index [candidate_a; candidate_b])).
  { simpl. repeat constructor; simpl; intuition discriminate. }
  destruct (suppression_is_order_independent (Fin 0.3) _ _ Hp Hab Hnd)
    as (Hnms & Hsel & _).
  split; [exact Hnms | exact Hsel].
Defined.

(** When the candidates are numbered by their position in the arrays, as
    the routine called by the decoder numbers them, two candidates of
    equal probability are told apart by position only: the first of the
    two is picked, whichever it is. *)
Lemma equal_probabilities_pick_first_position
    (overlap_threshold : np_float) (box1 box2 : array1) (p : R) :
  hd_error (non_max_suppression_fast overlap_threshold [box1; box2] [Fin p; Fin p])
  = Some 0%nat.
Proof.
  unfold non_max_suppression_fast, nms. cbn [tag length nms_loop pick_best].
  unfold ranks_before, np_gt, np_lt, np_eqb, Rltb; cbn [c_prob c_index].
  destruct (Rlt_dec p p); [lra |]. destruct (Req_dec_T p p); reflexivity.
Qed.


Lemma np_gt_neither (a b : np_float) :
  is_nan a = false -> is_nan b = false ->
  (a >? b)%np = false -> (b >? a)%np = false -> a = b.
Proof.
  unfold np_gt, np_lt, Rltb.
  destruct a as [x | | |], b as [y | | |]; simpl; try discriminate; try reflexivity.
  destruct (Rlt_dec y x), (Rlt_dec x y); try discriminate.
  intros _ _ _ _. f_equal. lra.
Qed.

Lemma unbeaten_probability (m z : candidate) :
  ranks_before z m = false -> (c_prob z >? c_prob m)%np = false.
Proof. unfold ranks_before. intros H. now apply orb_false_elim in H as [H _]. Qed.

(** With pairwise distinct probabilities the indices play no part: two
    lists holding the same boxes with the same probabilities, in any
    order and numbered in any way, select the same box. *)
Lemma distinct_probabilities_select_same_box
    (overlap_threshold : np_float) (l l' : list candidate) :
  Permutation (map box_and_probability l) (map box_and_probability l') ->
  Forall ranked l ->
  NoDup (map c_prob l) ->
  NoDup (map c_index l) ->
  NoDup (map c_index l') ->
  option_map box_and_probability (selected overlap_threshold l)
  = option_map box_and_probability (selected overlap_threshold l').
Proof.
  intros Hp Hr Hprob Hnd Hnd'.
  assert (Hprobs : Permutation (map c_prob l) (map c_prob l')).
  { replace (map c_prob l) with (map snd (map box_and_probability l))
      by (rewrite map_map; reflexivity).
    replace (map c_prob l') with (map snd (map box_and_probability l'))
      by (rewrite map_map; reflexivity).
    now apply Permutation_map. }
  assert (Hr' : Forall ranked l').
  { apply Forall_forall. intros z Hz. unfold ranked.
    assert (Hin : In (c_prob z) (map c_prob l)).
    { eapply Permutation_in; [symmetry; exact Hprobs | now apply in_map]. }
    apply in_map_iff in Hin as (x & Ex & Hx). rewrite <- Ex.
    rewrite Forall_forall in Hr. now apply Hr. }
  destruct l as [| c rest].
  { apply Permutation_nil in Hp. destruct l'; [reflexivity | discriminate]. }
  destruct l' as [| c' rest'].
  { symmetry in Hp. apply Permutation_nil in Hp. discriminate. }
  rewrite !selected_is_best. cbn [option_map]. f_equal.
  set (m := pick_best c rest). set (m' := pick_best c' rest').
  assert (Hm : In m (c :: rest)) by apply pick_best_in.
  assert (Hm' : In m' (c' :: rest')) by apply pick_best_in.
  assert (Hy : exists y, In y (c' :: rest') /\ box_and_probability y = box_and_probability m).
  { assert (Hin : In (box_and_probability m) (map box_and_probability (c' :: rest'))).
    { eapply Permutation_in; [exact Hp | now apply in_map]. }
    apply in_map_iff in Hin as (y & Ey & Hy). eauto. }
  assert (Hx : exists x, In x (c :: rest) /\ box_and_probability x = box_and_probability m').
  { assert (Hin : In (box_and_probability m') (map box_and_probability (c :: rest))).
    { eapply Permutation_in; [symmetry; exact Hp | now apply in_map]. }
    apply in_map_iff in Hin as (x & Ex & Hx). eauto. }
  destruct Hy as (y & Hy & Ey). destruct Hx as (x & Hx & Ex).
  assert (Epy : c_prob y = c_prob m) by (now inversion Ey).
  assert (Epx : c_prob x = c_prob m') by (now inversion Ex).
  pose proof (unbeaten_probability m' y
                (pick_best_unbeaten c' rest' Hr' Hnd' y Hy)) as H1.
  pose proof (unbeaten_probability m x
                (pick_best_unbeaten c rest Hr Hnd x Hx)) as H2.
  rewrite Epy in H1. rewrite Epx in H2.
  rewrite Forall_forall in Hr, Hr'.
  pose proof (np_gt_neither _ _ (Hr _ Hm) (Hr' _ Hm') H1 H2) as Eprob.
  assert (Exm : x = m).
  { apply (NoDup_map_injective c_prob (c :: rest)); auto. congruence. }
  rewrite <- Ex, Exm. reflexivity.
Qed.

Lemma tag_indices (i : nat) (boxes : array2) (probs : array1) :
  map c_index (tag i boxes probs)
  = seq i (Nat.min (length boxes) (length probs)).
Proof.
  revert i probs; induction boxes as [| b boxes IH]; intros i [| p probs];
    simpl; try reflexivity.
  f_equal. apply IH.
Qed.

(** With this routine the decoder's [box_ids[0]] exists and is an index
    of the arrays it was given. *)
Lemma suppression_head_is_valid
    (overlap_threshold : np_float) (boxes : array2) (probs : array1) :
  boxes <> [] -> length boxes = length probs ->
  exists i, head_id (non_max_suppression_fast overlap_threshold boxes probs) = Return i
            /\ (i < length boxes)%nat.
Proof.
  intros Hne Hlen. unfold non_max_suppression_fast, nms.
  destruct boxes as [| b boxes]; [contradiction |].
  destruct probs as [| p probs]; [discriminate |].
  cbn [tag length nms_loop map head_id].
  eexists. split; [reflexivity |].
  set (c := {| c_index := 0; c_box := b; c_prob := p |}).
  pose proof (pick_best_in c (tag 1 boxes probs)) as Hin.
  apply (in_map c_index) in Hin.
  change (c :: tag 1 boxes probs) with (tag 0 (b :: boxes) (p :: probs)) in Hin.
  rewrite tag_indices in Hin. apply in_seq in Hin.
  simpl in Hlen. simpl length in Hin. rewrite <- Hlen in Hin.
  rewrite Nat.min_id in Hin. simpl. lia.
Qed.

End NmsOrder.

(* ================================================================== *)
(** * Further properties of the code *)

(** ** Normalisation and the assertions *)

Lemma np_minimum_ge_both (c : R) (x y : np_float) :
  (Fin c <=? x)%np = true -> (Fin c <=? y)%np = true ->
  (Fin c <=? np_minimum x y)%np = true.
Proof.
  destruct x as [a | | |], y as [b | | |];
    cbv [np_minimum np_le np_lt is_nan Rltb Rleb];
    repeat match goal with
           | |- context [Rlt_dec ?u ?v] => destruct (Rlt_dec u v)
           | |- context [Rle_dec ?u ?v] => destruct (Rle_dec u v)
           end; intros; try discriminate; try reflexivity; lra.
Qed.

Lemma np_maximum_le_both (c : R) (x y : np_float) :
  (x <=? Fin c)%np = true -> (y <=? Fin c)%np = true ->
  (np_maximum x y <=? Fin c)%np = true.
Proof.
  destruct x as [a | | |], y as [b | | |];
    cbv [np_maximum np_le np_lt is_nan Rltb Rleb];
    repeat match goal with
           | |- context [Rlt_dec ?u ?v] => destruct (Rlt_dec u v)
           | |- context [Rle_dec ?u ?v] => destruct (Rle_dec u v)
           end; intros; try discriminate; try reflexivity; lra.
Qed.

Lemma fold_minimum_ge_all (c : R) (xs : list np_float) (x : np_float) :
  Forall (fun v => (Fin c <=? v)%np = true) (x :: xs) ->
  (Fin c <=? fold_left np_minimum xs x)%np = true.
Proof.
  revert x; induction xs as [| y ys IH]; intros x H; simpl.
  - now inversion H.
  - inversion H as [| ? ? Hx Hr]; subst. inversion Hr as [| ? ? Hy Hys]; subst.
    apply IH. constructor; [now apply np_minimum_ge_both | exact Hys].
Qed.

Lemma fold_maximum_le_all (c : R) (xs : list np_float) (x : np_float) :
  Forall (fun v => (v <=? Fin c)%np = true) (x :: xs) ->
  (fold_left np_maximum xs x <=? Fin c)%np = true.
Proof.
  revert x; induction xs as [| y ys IH]; intros x H; simpl.
  - now inversion H.
  - inversion H as [| ? ? Hx Hr]; subst. inversion Hr as [| ? ? Hy Hys]; subst.
    apply IH. constructor; [now apply np_maximum_le_both | exact Hys].
Qed.

Lemma unit_valued_in_range (v : np_float) : unit_valued v -> in_unit_range v = true.
Proof.
  intros (r & -> & Hr). unfold in_unit_range; simpl.
  apply andb_true_intro; split; apply Rleb_true; lra.
Qed.

(** A tensor of the right shape, with at least one value and all values
    in [-1, 1], passes both assertions. *)
Lemma well_formed_from_values (a : ndarray) :
  shape a = [256; 256; 3]%nat -> data a <> [] ->
  Forall unit_valued (data a) -> well_formed_input a.
Proof.
  intros Hs Hne Hv. unfold well_formed_input, np_min, np_max.
  destruct (data a) as [| x xs]; [now elim Hne |].
  assert (Hr : Forall (fun v => in_unit_range v = true) (x :: xs)).
  { eapply Forall_impl; [| exact Hv]. apply unit_valued_in_range. }
  eexists _, _. split; [reflexivity |]. split; [reflexivity |].
  split; [| split; [| exact Hs]].
  - apply fold_minimum_ge_all. eapply Forall_impl; [| exact Hr].
    intros v H. unfold in_unit_range in H. now apply andb_prop in H as [H _].
  - apply fold_maximum_le_all. eapply Forall_impl; [| exact Hr].
    intros v H. unfold in_unit_range in H. now apply andb_prop in H as [_ H].
Qed.

Lemma im_normalize_value (r : R) :
  0 <= r <= 255 ->
  (Fin 2 * ((Fin r / Fin 255) - Fin 0.5))%np = Fin (2 * (r / 255 - 0.5))
  /\ -1 <= 2 * (r / 255 - 0.5) <= 1.
Proof.
  intros Hr. rewrite np_div_fin by lra. split; [cbn; fin_eq; lra | lra].
Qed.

Lemma im_normalize_unit_valued (img : ndarray) :
  Forall byte_valued (data img) -> Forall unit_valued (data (_im_normalize img)).
Proof.
  intros Hb. unfold _im_normalize; cbn [data].
  induction Hb as [| v vs (r & -> & Hr) _ IH]; cbn [map]; constructor; [| exact IH].
  destruct (im_normalize_value r Hr) as [E Hrange]. rewrite E. eexists; eauto.
Qed.

(** X1.  [_im_normalize] keeps the shape and the number of values; a
    value [r] between 0 and 255 becomes [2 * (r / 255 - 0.5)], which lies
    between -1 and 1, so an image of 8-bit values is taken into the range
    [detect_hand] asserts. *)
Theorem im_normalize_maps_bytes_into_unit_range (img : ndarray) :
  Forall byte_valued (data img) ->
  shape (_im_normalize img) = shape img /\
  length (data (_im_normalize img)) = length (data img) /\
  Forall2 (fun v v' => exists r, v = Fin r /\ v' = Fin (2 * (r / 255 - 0.5)))
          (data img) (data (_im_normalize img)) /\
  Forall unit_valued (data (_im_normalize img)).
Proof.
  intros Hb. unfold _im_normalize; cbn [shape data].
  split; [reflexivity |]. split; [apply length_map |].
  split; [| exact (im_normalize_unit_valued img Hb)].
  induction Hb as [| v vs (r & -> & Hr) _ IH]; cbn [map]; constructor; [| exact IH].
  destruct (im_normalize_value r Hr) as [E _]. rewrite E. exists r; auto.
Qed.

Lemma im_normalize_witness :
  Forall byte_valued (data tiny_image) /\
  Forall unit_valued (data (_im_normalize tiny_image)).
Proof.
  assert (Hb : Forall byte_valued (data tiny_image)).
  { repeat constructor; eexists; (split; [reflexivity | lra]). }
  split; [exact Hb |].
  exact (proj2 (proj2 (proj2 (im_normalize_maps_bytes_into_unit_range tiny_image Hb)))).
Defined.

(** X2.  Inside [pred_bbox] the assertions of [detect_hand] cannot fail:
    when [cv2.resize] returns a 256x256x3 array of 8-bit values, the
    tensor [preprocess_img] hands on is accepted, and [detect_hand] goes on
    to the interpreter. *)
Theorem preprocessed_tensor_is_accepted
    nms np_pad cv2_resize (self : BlazePalm) (img : ndarray)
    l img_pad img_norm pad :
  preprocess_img np_pad cv2_resize img = (l, Return (img_pad, img_norm, pad)) ->
  (forall p0 p1, resized_frame (cv2_resize (np_pad img p0 p1) 256%nat 256%nat)) ->
  well_formed_input img_norm /\
  exists tail,
    fst (detect_hand nms self img_norm) = inference_events img_norm ++ tail.
Proof.
  intros Hpre Hres.
  apply preprocess_img_inv in Hpre as (h & w & c & p0 & p1 & _ & _ & ->).
  destruct (Hres p0 p1) as (Hs & Hne & Hb).
  pose proof (im_normalize_unit_valued _ Hb) as Hu.
  assert (Hwf : well_formed_input
                  (_im_normalize (cv2_resize (np_pad img p0 p1) 256%nat 256%nat))).
  { apply well_formed_from_values; [exact Hs | | exact Hu].
    unfold _im_normalize; cbn [data]. intros E. apply map_eq_nil in E.
    contradiction. }
  split; [exact Hwf |].
  rewrite (detect_hand_well_formed nms self _ Hwf). simpl fst.
  eexists; reflexivity.
Qed.

Lemma grey_frame_resized : resized_frame grey_frame.
Proof.
  unfold resized_frame, grey_frame, np_full; cbn [shape data fold_right].
  split; [reflexivity |]. split.
  - remember (256 * (256 * (3 * 1)))%nat as n eqn:En.
    destruct n; [lia | discriminate].
  - apply Forall_forall. intros v Hv. apply repeat_spec in Hv. subst v.
    exists 127.5. split; [reflexivity | lra].
Qed.

Lemma preprocessed_tensor_witness :
  preprocess_img pad_nothing resize_nothing grey_frame
  = ([], Return (grey_frame, _im_normalize grey_frame, [0; 0]%nat)) /\
  well_formed_input (_im_normalize grey_frame).
Proof.
  split; [exact grey_frame_preprocessed |].
  exact (proj1 (preprocessed_tensor_is_accepted
                  sample_nms pad_nothing resize_nothing sample_detector grey_frame
                  _ _ _ _ grey_frame_preprocessed (fun _ _ => grey_frame_resized))).
Defined.

(** ** Padding *)

(** X3.  [preprocess_img] logs nothing, and an image with other than
    three dimensions never reaches [cv2.resize]: a shape without
    dimensions fails in [shape.max()] (ValueError), a single dimension
    fails at [pad[1]] (IndexError), two or more than three dimensions fail
    in [np.pad] (ValueError).  For three dimensions, whenever the call
    returns (OpenCV refuses an image without pixels), it returns the
    padded image, the normalised resized image and the two paddings
    [(m - h) // 2] and [(m - w) // 2], [m] the largest dimension. *)
Theorem preprocess_img_needs_three_dimensions np_pad cv2_resize (img : ndarray) :
  fst (preprocess_img np_pad cv2_resize img) = [] /\
  match shape img with
  | [] => exists msg, snd (preprocess_img np_pad cv2_resize img) = Raise (ValueError msg)
  | [_] => exists msg, snd (preprocess_img np_pad cv2_resize img) = Raise (IndexError msg)
  | [h; w; c] =>
      let m := Nat.max h (Nat.max w c) in
      let p0 := Nat.div (m - h) 2 in
      let p1 := Nat.div (m - w) 2 in
      forall img_pad img_norm pad,
        snd (preprocess_img np_pad cv2_resize img) = Return (img_pad, img_norm, pad) ->
        img_pad = np_pad img p0 p1 /\
        img_norm = _im_normalize (cv2_resize (np_pad img p0 p1) 256%nat 256%nat) /\
        pad = [p0; p1]
  | _ => exists msg, snd (preprocess_img np_pad cv2_resize img) = Raise (ValueError msg)
  end.
Proof.
  split.
  - destruct (preprocess_img np_pad cv2_resize img) as [l r] eqn:E.
    apply preprocess_img_silent in E. exact E.
  - unfold preprocess_img.
    destruct (shape img) as [| h [| w [| c [| d ds]]]]; cbn; eauto.
    rewrite Nat.max_0_r. intros img_pad img_norm pad H. inversion H. auto.
Qed.

(** X4.  The padding [preprocess_img] returns for an image of height [h],
    width [w] and [c] channels is symmetric and brings each side to the
    largest of [h], [w] and [c], or to one less when the difference is
    odd; a side that is already the largest gets no padding. *)
Theorem padding_squares_the_image np_pad cv2_resize (img : ndarray)
    l img_pad img_norm pad (h w c : nat) :
  preprocess_img np_pad cv2_resize img = (l, Return (img_pad, img_norm, pad)) ->
  shape img = [h; w; c] ->
  let m := Nat.max h (Nat.max w c) in
  exists p0 p1,
    pad = [p0; p1] /\ img_pad = np_pad img p0 p1 /\
    (m - 1 <= h + 2 * p0 <= m)%nat /\ (m - 1 <= w + 2 * p1 <= m)%nat /\
    (h = m -> p0 = 0%nat) /\ (w = m -> p1 = 0%nat) /\
    (Nat.even (m - h) = true -> (h + 2 * p0 = m)%nat) /\
    (Nat.even (m - w) = true -> (w + 2 * p1 = m)%nat).
Proof.
  intros Hpre Hs m. unfold preprocess_img in Hpre. rewrite Hs in Hpre.
  cbn -[Nat.div Nat.max Nat.sub] in Hpre. rewrite Nat.max_0_r in Hpre. fold m in Hpre.
  inversion Hpre; subst; clear Hpre.
  assert (Hh : (h <= m)%nat) by (unfold m; lia).
  assert (Hw : (w <= m)%nat) by (unfold m; lia).
  pose proof (Nat.div_mod_eq (m - h) 2) as Dh.
  pose proof (Nat.div_mod_eq (m - w) 2) as Dw.
  pose proof (Nat.mod_upper_bound (m - h) 2 ltac:(lia)) as Uh.
  pose proof (Nat.mod_upper_bound (m - w) 2 ltac:(lia)) as Uw.
  eexists _, _. split; [reflexivity |]. split; [reflexivity |].
  assert (Heven : forall d, Nat.even d = true -> (2 * (d / 2) = d)%nat).
  { intros d He. apply Nat.even_spec in He as [k ->].
    rewrite (Nat.mul_comm 2 k), Nat.div_mul by lia. lia. }
  repeat match goal with
         | |- context [fst (Nat.divmod ?a 1 0 1)] =>
             change (fst (Nat.divmod a 1 0 1)) with (a / 2)%nat
         end.
  split; [lia |]. split; [lia |].
  split; [intros E; rewrite E, Nat.sub_diag; reflexivity |].
  split; [intros E; rewrite E, Nat.sub_diag; reflexivity |].
  split; intros He; apply Heven in He; lia.
Qed.

Lemma padding_witness :
  preprocess_img pad_nothing resize_nothing wide_image
  = ([], Return (wide_image, _im_normalize wide_image, [1; 0]%nat)) /\
  exists p0 p1, [1; 0]%nat = [p0; p1] /\ (5 - 1 <= 2 + 2 * p0 <= 5)%nat.
Proof.
  assert (Hrun : preprocess_img pad_nothing resize_nothing wide_image
                 = ([], Return (wide_image, _im_normalize wide_image, [1; 0]%nat)))
    by reflexivity.
  split; [exact Hrun |].
  destruct (padding_squares_the_image pad_nothing resize_nothing wide_image
              _ _ _ _ 2 5 3 Hrun eq_refl) as (p0 & p1 & Hp & _ & Hb & _).
  exists p0, p1. split; [exact Hp | exact Hb].
Defined.

(** ** The sigmoid on every value *)

Lemma np_le_refl_fin (r : R) : (Fin r <=? Fin r)%np = true.
Proof. simpl. apply Rleb_true. lra. Qed.

Lemma sigm_pos_inf : _sigm PInf = Fin 1.
Proof.
  unfold _sigm; simpl. destruct (Req_dec_T (1 + 0) 0); [lra |]. f_equal. field.
Qed.

Lemma sigm_closed_range (x : np_float) :
  is_nan x = false -> exists p : R, _sigm x = Fin p /\ 0 <= p <= 1.
Proof.
  destruct x as [r | | |]; intros Hn; try discriminate.
  - exists (1 / (1 + exp (- r))). split; [apply _sigm_fin |].
    pose proof (sigm_real_bounds r). lra.
  - exists 1. split; [exact sigm_pos_inf | lra].
  - exists 0. split; [reflexivity | lra].
Qed.

(** X5.  [_sigm] raises nothing and never leaves the closed interval:
    for every logit that is not NaN the probability is a number between 0
    and 1; it is exactly 1 for an infinite positive logit and exactly 0
    for an infinite negative one; a NaN logit gives NaN, which fails the
    filter. *)
Theorem sigmoid_stays_in_closed_unit_interval (x : np_float) :
  (is_nan x = false -> exists p : R, _sigm x = Fin p /\ 0 <= p <= 1) /\
  (is_nan x = true -> _sigm x = NaN /\ passes x = false) /\
  _sigm PInf = Fin 1 /\ _sigm NInf = Fin 0.
Proof.
  split; [apply sigm_closed_range |].
  split; [| split; [exact sigm_pos_inf | reflexivity]].
  destruct x; intros Hn; try discriminate. split; reflexivity.
Qed.

Lemma sigm_real_monotone (a b : R) :
  a <= b -> 1 / (1 + exp (- a)) <= 1 / (1 + exp (- b)).
Proof.
  intros Hab.
  pose proof (exp_pos (- a)) as Ha. pose proof (exp_pos (- b)) as Hb.
  assert (He : exp (- b) <= exp (- a)).
  { destruct (Req_dec_T a b) as [-> | Hne]; [lra |].
    left. apply exp_increasing. lra. }
  unfold Rdiv. rewrite !Rmult_1_l.
  apply Rinv_le_contravar; lra.
Qed.

(** X6.  [_sigm] keeps the order of the logits: when [a <= b], the
    probability of [a] is at most that of [b], infinite logits included;
    so ranking candidates by probability never contradicts ranking them
    by logit. *)
Theorem sigmoid_is_monotone (a b : np_float) :
  (a <=? b)%np = true -> (_sigm a <=? _sigm b)%np = true.
Proof.
  intros Hab.
  assert (Ha : is_nan a = false) by (destruct a, b; simpl in *; congruence).
  assert (Hb : is_nan b = false) by (destruct a, b; simpl in *; congruence).
  destruct (sigm_closed_range a Ha) as (p & Ep & Hp).
  destruct (sigm_closed_range b Hb) as (q & Eq & Hq).
  destruct a as [ra | | |], b as [rb | | |]; simpl in Hab; try discriminate.
  - rewrite !_sigm_fin. simpl. apply Rleb_true. apply sigm_real_monotone.
    now apply Rleb_true.
  - rewrite Ep, sigm_pos_inf. simpl. apply Rleb_true. lra.
  - rewrite sigm_pos_inf. apply np_le_refl_fin.
  - rewrite Eq. change (_sigm NInf) with (Fin 0). simpl. apply Rleb_true. lra.
  - rewrite sigm_pos_inf. change (_sigm NInf) with (Fin 0). simpl.
    apply Rleb_true. lra.
  - apply np_le_refl_fin.
Qed.

Lemma sigmoid_monotone_witness :
  (Fin (-3) <=? PInf)%np = true /\ (_sigm (Fin (-3)) <=? _sigm PInf)%np = true.
Proof.
  split; [reflexivity |].
  exact (sigmoid_is_monotone (Fin (-3)) PInf eq_refl).
Defined.

(** ** Every way a decoding can end *)

Lemma mask_index_cases {A : Type} (xs : list A) (mask : list bool) :
  ((mask = [] \/ length mask = length xs) /\
   mask_index xs mask = Return (compress mask xs)) \/
  (mask <> [] /\ length mask <> length xs /\
   exists msg, mask_index xs mask = Raise (IndexError msg)).
Proof.
  unfold mask_index. destruct (Nat.eqb (length mask) 0) eqn:E0; cbn [orb].
  - left. apply Nat.eqb_eq, length_zero_iff_nil in E0. auto.
  - apply Nat.eqb_neq in E0.
    assert (Hne : mask <> []) by (intros ->; now apply E0).
    destruct (Nat.eqb (length mask) (length xs)) eqn:E.
    + left. apply Nat.eqb_eq in E. auto.
    + right. apply Nat.eqb_neq in E. eauto.
Qed.

Ltac step_goal :=
  match goal with
  | |- context [bind (lift ?r) _] =>
      let E := fresh "E" in
      destruct r eqn:E;
      [ rewrite bind_lift_Return | rewrite bind_lift_Raise ]
  end.

(** Every way a decoding can end.  A mask with an element must match
    the regression rows and the anchors in length; a mask without any
    (no logit at all) selects nothing from either. *)
Lemma decode_cases nms self out_reg out_clf :
  let mask := map passes out_clf in
  let run := detect_hand_decode nms self out_reg out_clf in
  ((mask <> [] /\
    (length mask <> length out_reg \/ length mask <> length (anchors self))) /\
   exists msg, run = ([], Raise (IndexError msg))) \/
  ((mask = [] \/
    (length mask = length out_reg /\ length mask = length (anchors self))) /\
   compress mask out_reg = [] /\
   run = ([EvPrint "No hands found"], Return (None, None, None))) \/
  (length mask = length out_reg /\ length mask = length (anchors self) /\
   compress mask out_reg <> [] /\
   ((exists e, run = ([], Raise e)) \/
    (exists boxes probs e, run = ([EvNMS boxes probs], Raise e)) \/
    (exists boxes probs kp0 kp2 side source kps dbg,
        run = ([EvNMS boxes probs; EvGetTriangle kp0 kp2 side],
               Return (Some source, Some kps, Some dbg))))).
Proof.
  intros mask run. unfold run, detect_hand_decode.
  rewrite threshold_mask_passes. fold mask.
  destruct (mask_index_cases out_reg mask) as [[H1 ->] | (N1 & L1 & [m1 ->])].
  2:{ left. split; [auto |]. rewrite bind_lift_Raise. eauto. }
  rewrite bind_lift_Return.
  destruct (mask_index_cases (anchors self) mask) as [[H2 ->] | (N2 & L2 & [m2 ->])].
  2:{ left. split; [auto |]. rewrite bind_lift_Raise. eauto. }
  rewrite bind_lift_Return.
  rewrite mask_index_Return by (unfold mask; now rewrite !length_map).
  rewrite bind_lift_Return.
  right.
  destruct (compress mask out_reg) as [| r0 rs] eqn:Ec.
  { left. split; [| split; reflexivity].
    destruct H1 as [E | L1]; [left; exact E |].
    destruct H2 as [E | L2]; [left; exact E | right; auto]. }
  right.
  assert (Hmask : mask <> []) by (intros E; rewrite E in Ec; discriminate Ec).
  destruct H1 as [E | L1]; [contradiction |].
  destruct H2 as [E | L2]; [contradiction |].
  split; [exact L1 |]. split; [exact L2 |].
  split; [discriminate |]. cbn [length Nat.eqb].
  step_goal; [| left; eauto].
  rewrite bind_emit. right.
  repeat first
    [ match goal with
      | |- context [let (_, _) := ?p in _] => is_var p; destruct p
      end
    | step_goal; [| left; cbv [fst snd]; do 3 eexists; reflexivity] ].
  rewrite bind_emit. right. cbv [fst snd ret]. repeat eexists.
Qed.

Lemma compress_nil_all_false {A : Type} (mask : list bool) (xs : list A) :
  length mask = length xs -> compress mask xs = [] ->
  Forall (fun b => b = false) mask.
Proof.
  revert xs; induction mask as [| b mask IH]; intros [| x xs] Hlen H;
    simpl in *; try discriminate; [constructor |].
  destruct b; [discriminate |]. constructor; [reflexivity |].
  apply (IH xs); [lia | exact H].
Qed.

(** X7.  With one regression row and one anchor per logit, decoding
    answers "no detection" exactly when no logit passes the filter; it has
    then logged the print and nothing else.  So a candidate is never
    dropped: as soon as one logit passes, the answer is a hand or an
    exception.  A logit that passes is strictly positive, and a NaN logit
    never passes. *)
Theorem no_detection_iff_no_logit_passes
    nms (self : BlazePalm) (out_reg : array2) (out_clf : array1) :
  length out_reg = length out_clf ->
  length (anchors self) = length out_clf ->
  (snd (detect_hand_decode nms self out_reg out_clf) = Return (None, None, None)
   <-> Forall (fun logit => passes logit = false) out_clf) /\
  (snd (detect_hand_decode nms self out_reg out_clf) = Return (None, None, None)
   -> fst (detect_hand_decode nms self out_reg out_clf) = [EvPrint "No hands found"]) /\
  (forall logit, passes logit = true -> (logit >? Fin 0)%np = true) /\
  passes NaN = false.
Proof.
  intros Hreg Hanc.
  assert (Hmask : Forall (fun b => b = false) (map passes out_clf)
                  <-> Forall (fun logit => passes logit = false) out_clf)
    by apply Forall_map.
  split; [| split; [| split; [| reflexivity]]].
  3:{ intros logit H. now rewrite <- passes_positive. }
  all: destruct (decode_cases nms self out_reg out_clf)
    as [[[_ [Hne | Hne]] _] | [(Hlen & Hnil & Hrun) | (L1 & L2 & Hsome & Hrun)]];
    try (rewrite length_map in Hne; congruence).
  - rewrite Hrun. simpl.
    split; [intros _ | intros _; reflexivity].
    apply Hmask.
    apply (compress_nil_all_false _ out_reg); [| exact Hnil].
    rewrite length_map. congruence.
  - assert (Hnot : snd (detect_hand_decode nms self out_reg out_clf)
                   <> Return (None, None, None)).
    { destruct Hrun as [[e ->] | [(b & p & e & ->) | (b & p & k0 & k2 & d & s & k & g & ->)]];
        simpl; discriminate. }
    split; [intros H; contradiction |].
    intros Hall. exfalso. apply Hsome.
    apply compress_all_false. apply Hmask. exact Hall.
  - rewrite Hrun. reflexivity.
  - destruct Hrun as [[e ->] | [(b & p & e & ->) | (b & p & k0 & k2 & d & s & k & g & ->)]];
      simpl; discriminate.
Qed.

Lemma no_detection_iff_witness :
  Forall (fun logit => passes logit = false) [Fin (-10); NaN; NInf] /\
  snd (detect_hand_decode sample_nms
         (BlazePalm_default (fun _ => ([], []))
            [[Fin 0.5; Fin 0.5]; [Fin 0.5; Fin 0.5]; [Fin 0.5; Fin 0.5]])
         [sample_row; sample_row; sample_row] [Fin (-10); NaN; NInf])
  = Return (None, None, None).
Proof.
  assert (H : Forall (fun logit => passes logit = false) [Fin (-10); NaN; NInf]).
  { repeat constructor; rewrite passes_positive; unfold np_gt; simpl;
      try reflexivity; apply Rltb_false; lra. }
  split; [exact H |].
  exact (proj2 (proj1 (no_detection_iff_no_logit_passes sample_nms
                         (BlazePalm_default (fun _ => ([], []))
                            [[Fin 0.5; Fin 0.5]; [Fin 0.5; Fin 0.5]; [Fin 0.5; Fin 0.5]])
                         [sample_row; sample_row; sample_row] [Fin (-10); NaN; NInf]
                         eq_refl eq_refl)) H).
Defined.

(** X8.  The boolean-mask indexing checks the number of rows.  When
    the regression rows or the anchors differ in number from the logits,
    decoding raises IndexError before anything is logged, also when no
    logit would pass; unless there is no logit at all: numpy does not
    check a mask without elements, nothing is selected, and the answer is
    "no detection". *)
Theorem mismatched_rows_raise_index_error
    nms (self : BlazePalm) (out_reg : array2) (out_clf : array1) :
  length out_reg <> length out_clf \/ length (anchors self) <> length out_clf ->
  (out_clf <> [] ->
   exists msg,
     detect_hand_decode nms self out_reg out_clf = ([], Raise (IndexError msg))) /\
  (out_clf = [] ->
   detect_hand_decode nms self out_reg out_clf
   = ([EvPrint "No hands found"], Return (None, None, None))).
Proof.
  intros Hne.
  destruct (decode_cases nms self out_reg out_clf)
    as [[[Hm _] H] | [([Hm | [L1 L2]] & _ & Hrun) | (L1 & L2 & _)]].
  - split; [intros _; exact H |].
    intros ->. now elim Hm.
  - split; [| intros _; exact Hrun].
    intros Hc. apply map_eq_nil in Hm. contradiction.
  - exfalso. rewrite length_map in L1, L2. destruct Hne as [H | H]; congruence.
  - exfalso. rewrite length_map in L1, L2. destruct Hne as [H | H]; congruence.
Qed.

Lemma mismatched_rows_witness :
  (exists msg,
      detect_hand_decode sample_nms
        (BlazePalm_default (fun _ => ([], [])) [[Fin 0.5; Fin 0.5]; [Fin 0.5; Fin 0.5]])
        [sample_row] [Fin (-10)]
      = ([], Raise (IndexError msg))) /\
  detect_hand_decode sample_nms
    (BlazePalm_default (fun _ => ([], [])) [[Fin 0.5; Fin 0.5]; [Fin 0.5; Fin 0.5]])
    [sample_row] []
  = ([EvPrint "No hands found"], Return (None, None, None)).
Proof.
  split.
  - apply (mismatched_rows_raise_index_error sample_nms
             (BlazePalm_default (fun _ => ([], []))
                [[Fin 0.5; Fin 0.5]; [Fin 0.5; Fin 0.5]])
             [sample_row] [Fin (-10)]);
      [right |]; discriminate.
  - apply (mismatched_rows_raise_index_error sample_nms
             (BlazePalm_default (fun _ => ([], []))
                [[Fin 0.5; Fin 0.5]; [Fin 0.5; Fin 0.5]])
             [sample_row] []);
      [left; discriminate | reflexivity].
Defined.

Lemma well_formed_dec (img_norm : ndarray) :
  well_formed_input img_norm \/ ~ well_formed_input img_norm.
Proof.
  unfold well_formed_input.
  destruct (np_min img_norm) as [lo | e] eqn:Hlo;
    [| right; intros (lo' & hi' & H & _); discriminate].
  destruct (np_max img_norm) as [hi | e] eqn:Hhi;
    [| right; intros (lo' & hi' & _ & H & _); discriminate].
  destruct (Fin (-1) <=? lo)%np eqn:Hge;
    [| right; intros (lo' & hi' & H1 & _ & H3 & _); inversion H1; congruence].
  destruct (hi <=? Fin 1)%np eqn:Hle;
    [| right; intros (lo' & hi' & _ & H2 & _ & H4 & _); inversion H2; congruence].
  destruct (list_eq_dec Nat.eq_dec (shape img_norm) [256; 256; 3]%nat) as [Hs | Hs];
    [| right; intros (lo' & hi' & _ & _ & _ & _ & H5); contradiction].
  left. exists lo, hi. auto.
Qed.

Lemma detect_hand_rejects nms (self : BlazePalm) (img_norm : ndarray) :
  ~ well_formed_input img_norm ->
  exists e, detect_hand nms self img_norm = ([], Raise e).
Proof.
  intros Hbad. unfold detect_hand.
  destruct (np_min img_norm) as [lo | e] eqn:Hlo; [| eexists; reflexivity].
  rewrite bind_lift_Return.
  destruct (Fin (-1) <=? lo)%np eqn:Hge; [| eexists; reflexivity].
  destruct (np_max img_norm) as [hi | e] eqn:Hhi; [| eexists; reflexivity].
  rewrite bind_assoc, bind_lift_Return, bind_ret.
  destruct (hi <=? Fin 1)%np eqn:Hle; [| eexists; reflexivity].
  unfold py_assert at 1. rewrite bind_ret.
  destruct (shape_eqb (shape img_norm) [256; 256; 3]%nat) eqn:Hs;
    [| eexists; reflexivity].
  exfalso. apply Hbad. unfold shape_eqb in Hs.
  destruct (list_eq_dec Nat.eq_dec (shape img_norm) [256; 256; 3]%nat);
    [| discriminate].
  exists lo, hi. auto.
Qed.

(** X10.  The discipline of [detect_hand]'s effects.  Either an assertion
    fails (or [min()] does) and nothing at all is logged, which happens
    exactly when the tensor is not accepted; or the four interpreter steps
    are logged first, once, and the rest of the log is one of: nothing
    (an exception before the suppression), the print alone with the "no
    detection" result, the suppression call alone with an exception, or the
    suppression call followed by one triangle construction with a hand
    returned. *)
Theorem detect_hand_effect_discipline nms (self : BlazePalm) (img_norm : ndarray) :
  (~ well_formed_input img_norm /\
   exists e, detect_hand nms self img_norm = ([], Raise e)) \/
  (well_formed_input img_norm /\
   exists l r,
     detect_hand nms self img_norm = (inference_events img_norm ++ l, r) /\
     decode_outcome (l, r)).
Proof.
  destruct (well_formed_dec img_norm) as [H | H].
  - right. split; [exact H |].
    rewrite (detect_hand_well_formed nms self img_norm H).
    pose proof (decode_cases nms self (fst (interp_palm self img_norm))
                             (snd (interp_palm self img_norm))) as Hc.
    cbv zeta in Hc.
    destruct (detect_hand_decode nms self _ _) as [l r]. exists l, r.
    split; [reflexivity |].
    destruct Hc
      as [[_ [m E]] | [(_ & _ & E) | (_ & _ & _ & [[e E] | [(b & p & e & E) | (b & p & k0 & k2 & d & s & k & g & E)]])]];
      rewrite E; constructor.
  - left. split; [exact H | apply detect_hand_rejects; exact H].
Qed.

(** ** Decoding succeeds within the interpreter's contract *)

Lemma compress_nonempty {A : Type} (mask : list bool) (xs : list A) :
  length mask = length xs -> Exists (fun b => b = true) mask ->
  compress mask xs <> [].
Proof.
  intros Hlen Hex Hnil.
  pose proof (compress_nil_all_false mask xs Hlen Hnil) as Hall.
  apply Exists_exists in Hex as (b & Hin & ->).
  rewrite Forall_forall in Hall. specialize (Hall true Hin). discriminate.
Qed.

Lemma move_rows_total (dets ancs : array2) :
  length dets = length ancs ->
  Forall (fun r => 2 <= length r)%nat dets ->
  Forall (fun a => 2 <= length a)%nat ancs ->
  exists moved, move_rows dets ancs = Return moved /\ length moved = length dets.
Proof.
  revert ancs; induction dets as [| d dets IH]; intros [| a ancs] Hlen Hd Ha;
    simpl in Hlen; try discriminate.
  - exists []. auto.
  - inversion Hd as [| ? ? Hd1 Hd']; subst. inversion Ha as [| ? ? Ha1 Ha']; subst.
    destruct (IH ancs) as (moved & Hm & Hl); [lia | assumption | assumption |].
    destruct d as [| dx [| dy d]]; simpl in Hd1; try lia.
    destruct a as [| ax [| ay a]]; simpl in Ha1; try lia.
    simpl. rewrite Hm. eexists. split; [reflexivity |]. simpl. now rewrite Hl.
Qed.

Lemma index_lt {A : Type} (xs : list A) (i : nat) :
  (i < length xs)%nat -> exists x, index xs i = Return x /\ In x xs.
Proof.
  intros Hi. unfold index.
  destruct (nth_error xs i) as [x |] eqn:E.
  - exists x. split; [reflexivity |]. eapply nth_error_In; eassumption.
  - apply nth_error_None in E. lia.
Qed.

(** X9.  Within the interpreter's contract (18-column regression rows,
    one row and one anchor of at least two columns per logit) and with a
    suppression routine whose first index is valid, decoding returns a
    hand as soon as one logit passes the filter: it logs the suppression
    call and one triangle construction and returns a triangle, seven
    keypoints and the debug record, whose selected index is in range.
    (The triangle may hold NaN.) *)
Theorem decoding_returns_a_hand
    nms (self : BlazePalm) (out_reg : array2) (out_clf : array1) :
  head_is_valid nms ->
  length out_reg = length out_clf ->
  length (anchors self) = length out_clf ->
  Forall (fun r => length r = 18%nat) out_reg ->
  Forall (fun a => 2 <= length a)%nat (anchors self) ->
  Exists (fun logit => passes logit = true) out_clf ->
  exists boxes probs kp0 kp2 side source kps dbg,
    detect_hand_decode nms self out_reg out_clf
    = ([EvNMS boxes probs; EvGetTriangle kp0 kp2 side],
       Return (Some source, Some kps, Some dbg)) /\
    length kps = 7%nat /\
    length boxes = length probs /\
    (selected_box_id dbg < length (detection_candidates dbg))%nat.
Proof.
  intros Hnms Hreg Hanc Hw Ha Hex.
  set (mask := map passes out_clf).
  assert (L1 : length mask = length out_reg) by (unfold mask; rewrite length_map; congruence).
  assert (L2 : length mask = length (anchors self))
    by (unfold mask; rewrite length_map; congruence).
  assert (L3 : length mask = length (map _sigm out_clf))
    by (unfold mask; now rewrite !length_map).
  assert (Hm : Exists (fun b => b = true) mask).
  { unfold mask. apply Exists_map. exact Hex. }
  pose proof (compress_nonempty mask out_reg L1 Hm) as Hne.
  set (cd := compress mask out_reg) in *.
  set (ca := compress mask (anchors self)).
  set (probs := compress mask (map _sigm out_clf)).
  assert (Lca : length cd = length ca).
  { unfold cd, ca. rewrite (compress_length_positions mask out_reg 0 L1).
    now rewrite (compress_length_positions mask (anchors self) 0 L2). }
  assert (Lpr : length cd = length probs).
  { unfold cd, probs. rewrite (compress_length_positions mask out_reg 0 L1).
    now rewrite (compress_length_positions mask (map _sigm out_clf) 0 L3). }
  assert (Hcd : Forall (fun r => length r = 18%nat) cd) by (apply Forall_compress; exact Hw).
  assert (Hca : Forall (fun a => 2 <= length a)%nat ca) by (apply Forall_compress; exact Ha).
  destruct (move_rows_total cd ca Lca) as (moved & Hmv & Lmv);
    [eapply Forall_impl; [| exact Hcd]; cbv beta; intros; lia | exact Hca |].
  assert (Hb : map (firstn 4) moved <> []).
  { intros E. apply map_eq_nil in E. subst moved. simpl in Lmv.
    symmetry in Lmv. apply length_zero_iff_nil in Lmv. contradiction. }
  destruct (Hnms (map (firstn 4) moved) probs Hb) as (i & Hid & Hi).
  { rewrite length_map. congruence. }
  rewrite length_map, Lmv in Hi.
  destruct (index_lt cd i Hi) as (row & Hrow & Hin).
  destruct (index_lt ca i) as (anchor & Hanchor & Hina); [lia |].
  rewrite Forall_forall in Hcd, Hca.
  pose proof (Hcd row Hin) as Hr18. pose proof (Hca anchor Hina) as Ha2.
  explode_row row Hr18.
  destruct anchor as [| ax [| ay anchor]]; simpl in Ha2; try lia.
  eexists _, _, _, _, _, _, _, _. split.
  - eapply (decode_returns nms self out_reg out_clf moved i); try eassumption;
      reflexivity.
  - cbn. repeat split; try reflexivity.
    + rewrite length_map. fold mask probs. congruence.
    + fold mask cd. exact Hi.
Qed.

Lemma decoding_returns_witness :
  exists boxes probs kp0 kp2 side source kps dbg,
    detect_hand_decode sample_nms sample_detector [sample_row] [Fin 1]
    = ([EvNMS boxes probs; EvGetTriangle kp0 kp2 side],
       Return (Some source, Some kps, Some dbg)) /\
    length kps = 7%nat.
Proof.
  assert (Hex : Exists (fun logit => passes logit = true) [Fin 1]).
  { constructor. rewrite passes_positive. unfold np_gt; simpl.
    apply Rltb_true. lra. }
  assert (Hnms : head_is_valid sample_nms).
  { intros boxes probs Hne Hlen. now apply suppression_head_is_valid. }
  destruct (decoding_returns_a_hand sample_nms sample_detector [sample_row] [Fin 1]
              Hnms eq_refl eq_refl)
    as (boxes & probs & kp0 & kp2 & side & source & kps & dbg & Hrun & Hk & _).
  - repeat constructor.
  - repeat constructor.
  - exact Hex.
  - exists boxes, probs, kp0, kp2, side, source, kps, dbg. auto.
Defined.

(** ** The box behind the triangle *)

Lemma triangle_to_bbox_fin (a b c : R * R) :
  _triangle_to_bbox (fin_tri a b c)
  = map fin_vec
      [radd (rsub c a) b; rsub (radd b a) c;
       rsub (rsub (rscale 3 a) b) c; radd (rsub c b) a].
Proof.
  destruct a as [ax ay], b as [bx by_], c as [cx cy].
  unfold _triangle_to_bbox, fin_tri, fin_vec, vadd, vsub, vscale, radd, rsub, rscale;
    cbn. fin_eq; ring.
Qed.

Lemma rnorm_scaled (k : R) (v : R * R) :
  fst v * fst v + snd v * snd v = 1 -> rnorm (rscale k v) = Rabs k.
Proof.
  intros Hv. unfold rnorm, rscale; cbn [fst snd].
  replace (k * fst v * (k * fst v) + k * snd v * (k * snd v)) with (Rsqr k)
    by (unfold Rsqr; nra).
  apply sqrt_Rsqr_abs.
Qed.

(** X11.  The box of the triangle: for finite keypoints that differ,
    [_triangle_to_bbox] of [_get_triangle(kp0, kp2, d)] is a square with
    centre [kp2] and side [2 |d|], two of whose sides run along the line
    from [kp0] to [kp2]. *)
Theorem box_of_triangle_is_square_around_kp2
    (self : BlazePalm) (x0 y0 x2 y2 d : R) :
  R90 self = [[Fin 0; Fin 1]; [Fin (-1); Fin 0]] ->
  (x0, y0) <> (x2, y2) ->
  let u := unit_dir (x0, y0) (x2, y2) in
  exists c0 c1 c2 c3 : R * R,
    _triangle_to_bbox
      (_get_triangle self (Fin x0, Fin y0) (Fin x2, Fin y2) (Fin d))
    = map fin_vec [c0; c1; c2; c3] /\
    is_square (x2, y2) (2 * Rabs d) c0 c1 c2 c3 /\
    rsub c1 c2 = rscale (2 * d) u /\
    rsub c0 c1 = rscale (2 * d) (rot90 u).
Proof.
  intros HR Hne u.
  rewrite (get_triangle_fin self x0 y0 x2 y2 d HR Hne). fold u.
  rewrite triangle_to_bbox_fin.
  pose proof (unit_dir_squares _ _ Hne) as Hu. fold u in Hu.
  eexists _, _, _, _. split; [reflexivity |].
  assert (E1 : forall p q : R * R,
             rsub p q = rscale (- (2 * d)) (rot90 u) -> rnorm (rsub p q) = 2 * Rabs d).
  { intros p q ->. rewrite rnorm_scaled.
    - rewrite Rabs_Ropp, Rabs_mult, (Rabs_pos_eq 2) by lra. reflexivity.
    - unfold rot90; cbn [fst snd]. nra. }
  assert (E2 : forall p q : R * R,
             rsub p q = rscale (- (2 * d)) u -> rnorm (rsub p q) = 2 * Rabs d).
  { intros p q ->. rewrite rnorm_scaled by exact Hu.
    rewrite Rabs_Ropp, Rabs_mult, (Rabs_pos_eq 2) by lra. reflexivity. }
  unfold is_square. repeat split.
  - unfold radd, rsub, rscale; cbn [fst snd]. f_equal; ring.
  - unfold radd, rsub, rscale; cbn [fst snd]. f_equal; ring.
  - apply E1. unfold radd, rsub, rscale, rot90; cbn [fst snd]. f_equal; ring.
  - apply E2. unfold radd, rsub, rscale, rot90; cbn [fst snd]. f_equal; ring.
  - unfold rdot, radd, rsub, rscale; cbn [fst snd]. ring.
  - unfold radd, rsub, rscale; cbn [fst snd]. f_equal; ring.
  - unfold radd, rsub, rscale, rot90; cbn [fst snd]. f_equal; ring.
Qed.

Lemma box_of_triangle_witness :
  exists c0 c1 c2 c3 : R * R,
    _triangle_to_bbox
      (_get_triangle sample_detector (Fin 0, Fin 0) (Fin 0, Fin 1) (Fin 3))
    = map fin_vec [c0; c1; c2; c3] /\
    is_square (0, 1) (2 * Rabs 3) c0 c1 c2 c3.
Proof.
  assert (Hne : (0, 0) <> (0, 1)) by (intros E; inversion E; lra).
  destruct (box_of_triangle_is_square_around_kp2 sample_detector 0 0 0 1 3 eq_refl Hne)
    as (c0 & c1 & c2 & c3 & Hbox & Hsq & _).
  exists c0, c1, c2, c3. split; [exact Hbox | exact Hsq].
Defined.

(** ** The box [pred_bbox] returns *)


Lemma img_scale_fin (img : ndarray) :
  img_scale img = Fin (INR (list_max (shape img)) / 256).
Proof. unfold img_scale. apply np_div_fin. lra. Qed.

Lemma img_scale_nonzero (img : ndarray) :
  list_max (shape img) <> 0%nat -> INR (list_max (shape img)) / 256 <> 0.
Proof.
  intros Hm. unfold Rdiv. apply Rmult_integral_contrapositive_currified;
    [apply not_0_INR; exact Hm | lra].
Qed.


Lemma scaled_source_fin (p q r : R * R) (s : R) :
  scaled_source (fin_tri p q r) (Fin s)
  = fin_tri (rscale s p) (rscale s q) (rscale s r).
Proof.
  destruct p, q, r. unfold scaled_source, fin_tri, fin_vec, tri_map, vscale, rscale; cbn.
  fin_eq; ring.
Qed.

Lemma tri_det_scaled (p q r : R * R) (s : R) :
  tri_det (rscale s p) (rscale s q) (rscale s r) = s * s * tri_det p q r.
Proof. unfold tri_det, rscale; cbn [fst snd]. ring. Qed.





(** ** Zero-size candidates and the returned square *)

(** The triangle [detect_hand] returns for a winning candidate with
    finite width, height and keypoints. *)
Lemma winning_source_fin
    nms interp anchors_csv (img_norm : ndarray) l source kps dbg
    (row : array1) (x0 y0 x2 y2 w h : R) :
  detect_hand nms (BlazePalm_default interp anchors_csv) img_norm
    = (l, Return (Some source, Some kps, Some dbg)) ->
  nth_error (detection_candidates dbg) (selected_box_id dbg) = Some row ->
  nth_error row 2 = Some (Fin w) ->
  nth_error row 3 = Some (Fin h) ->
  nth_error kps 0 = Some (Fin x0, Fin y0) ->
  nth_error kps 2 = Some (Fin x2, Fin y2) ->
  (x0, y0) <> (x2, y2) ->
  let d := Rmax w h * 1.5 in
  let u := unit_dir (x0, y0) (x2, y2) in
  let corner := (x2 + (x2 - x0) * 0.2, y2 + (y2 - y0) * 0.2) in
  source = fin_tri corner
                   (fst corner + fst u * d, snd corner + snd u * d)
                   (fst corner + snd u * d, snd corner - fst u * d).
Proof.
  intros H Hrow Hw Hh Hk0 Hk2 Hne d u corner.
  apply detect_hand_returns_inv in H as (_ & l' & -> & H).
  apply decode_returns_inv in H
    as (moved & row' & dx & dy & w' & h' & anchor & center & deltas & kp0 & kp2 &
        _ & _ & _ & _ & _ & _ & Hrow' & Hun & _ & _ & _ &
        Hkps & Hi0 & Hi2 & Hsrc & _).
  apply index_inv in Hrow' as [Hrow' _]. rewrite Hrow in Hrow'.
  inversion Hrow'; subst row'.
  apply index_inv in Hi0 as [Hi0 _]. apply index_inv in Hi2 as [Hi2 _].
  rewrite Hk0 in Hi0. rewrite Hk2 in Hi2. inversion Hi0; inversion Hi2; subst kp0 kp2.
  unfold unpack4 in Hun.
  destruct row as [| r0 [| r1 [| r2 [| r3 rest]]]]; try discriminate.
  simpl in Hun, Hw, Hh. inversion Hun; inversion Hw; inversion Hh; subst.
  cbn [BlazePalm_default __init__ box_enlarge box_shift].
  rewrite py_max_fin. cbn [np_mul].
  change (Fin 0.2) with (box_shift (BlazePalm_default interp anchors_csv)).
  exact (shifted_triangle_fin (BlazePalm_default interp anchors_csv)
           x0 y0 x2 y2 (Rmax w h * 1.5) eq_refl eq_refl Hne).
Qed.

Lemma np_is_zero_fin_zero (r : R) : r = 0 -> np_is_zero (Fin r) = true.
Proof. intros ->. simpl. destruct (Req_dec_T 0 0) as [_ | N]; [reflexivity | now elim N]. Qed.

(** OpenCV's answer for a finite collinear triangle, squared by
    [pred_bbox], cannot be inverted. *)
Lemma collinear_Mtr interp anchors_csv (a b c : R * R) :
  tri_det a b c = 0 ->
  square_affine
    (cv2_getAffineTransform (fin_tri a b c)
       (_target_triangle (BlazePalm_default interp anchors_csv)))
  = singular_Mtr /\
  linalg_inv singular_Mtr = Raise (LinAlgError "Singular matrix").
Proof.
  destruct a as [x0 y0], b as [x1 y1], c as [x2 y2]. intros HD. split.
  - unfold cv2_getAffineTransform, fin_tri, fin_vec, det3.
    cbn [fst snd BlazePalm_default __init__ _target_triangle
         np_sub np_neg np_add np_mul].
    rewrite np_is_zero_fin_zero; [reflexivity |].
    rewrite <- HD. unfold tri_det; cbn [fst snd]. ring.
  - unfold linalg_inv, singular_Mtr, det3. cbn [np_sub np_neg np_add np_mul].
    rewrite np_is_zero_fin_zero; [reflexivity | ring].
Qed.

Lemma pred_bbox_collinear nms np_pad cv2_resize interp anchors_csv
    (img img_pad img_norm : ndarray) pad silent l kps dbg (p q r : R * R) :
  let self := BlazePalm_default interp anchors_csv in
  preprocess_img np_pad cv2_resize img = (silent, Return (img_pad, img_norm, pad)) ->
  detect_hand nms self img_norm = (l, Return (Some (fin_tri p q r), kps, dbg)) ->
  tri_det p q r = 0 ->
  pred_bbox nms np_pad cv2_resize self img
  = (l ++ [EvGetAffineTransform (scaled_source (fin_tri p q r) (img_scale img))
                                (_target_triangle self);
           EvLinalgInv singular_Mtr],
     Raise (LinAlgError "Singular matrix")).
Proof.
  intros self Hpre Hdet Htri. subst self.
  pose proof (preprocess_img_silent _ _ _ _ _ Hpre) as ->.
  assert (HD : tri_det (rscale (INR (list_max (shape img)) / 256) p)
                       (rscale (INR (list_max (shape img)) / 256) q)
                       (rscale (INR (list_max (shape img)) / 256) r) = 0)
    by (rewrite tri_det_scaled, Htri; ring).
  destruct (collinear_Mtr interp anchors_csv _ _ _ HD) as [HM Hinv].
  unfold pred_bbox. rewrite Hpre, bind_Return. cbv beta iota.
  rewrite Hdet, bind_Return. cbv beta iota.
  unfold pred_bbox_Mtr. rewrite img_scale_fin, scaled_source_fin, HM.
  rewrite !bind_emit, Hinv, bind_lift_Raise. reflexivity.
Qed.

(** X13.  A winning candidate of width and height zero (larger side
    exactly 0) with finite, distinct keypoints 0 and 2 does not give a box:
    the triangle collapses to one point, OpenCV cannot solve for the
    transform, and [pred_bbox] ends in numpy's [LinAlgError], after the
    events of the detection and the two matrix calls. *)
Theorem zero_size_candidate_raises_singular_matrix
    nms np_pad cv2_resize interp anchors_csv
    (img img_pad img_norm : ndarray) pad silent l source kps dbg
    (row : array1) (x0 y0 x2 y2 w h : R) :
  let self := BlazePalm_default interp anchors_csv in
  preprocess_img np_pad cv2_resize img = (silent, Return (img_pad, img_norm, pad)) ->
  detect_hand nms self img_norm = (l, Return (Some source, Some kps, Some dbg)) ->
  nth_error (detection_candidates dbg) (selected_box_id dbg) = Some row ->
  nth_error row 2 = Some (Fin w) ->
  nth_error row 3 = Some (Fin h) ->
  nth_error kps 0 = Some (Fin x0, Fin y0) ->
  nth_error kps 2 = Some (Fin x2, Fin y2) ->
  (x0, y0) <> (x2, y2) ->
  Rmax w h = 0 ->
  let corner := (x2 + (x2 - x0) * 0.2, y2 + (y2 - y0) * 0.2) in
  source = fin_tri corner corner corner /\
  pred_bbox nms np_pad cv2_resize self img
  = (l ++ [EvGetAffineTransform (scaled_source source (img_scale img))
                                (_target_triangle self);
           EvLinalgInv singular_Mtr],
     Raise (LinAlgError "Singular matrix")).
Proof.
  intros self Hpre Hdet Hrow Hw Hh Hk0 Hk2 Hne Hzero corner. subst self.
  pose proof (winning_source_fin nms interp anchors_csv img_norm l source kps dbg
                row x0 y0 x2 y2 w h Hdet Hrow Hw Hh Hk0 Hk2 Hne) as Hsrc.
  cbv zeta in Hsrc. rewrite Hzero in Hsrc. cbn [fst snd] in Hsrc.
  assert (Esrc : source = fin_tri corner corner corner).
  { rewrite Hsrc. unfold fin_tri, fin_vec, corner; cbn [fst snd]. fin_eq; ring. }
  split; [exact Esrc |].
  rewrite Esrc in Hdet |- *.
  apply (pred_bbox_collinear nms np_pad cv2_resize interp anchors_csv
           img img_pad img_norm pad silent l (Some kps) (Some dbg) corner corner corner
           Hpre Hdet).
  unfold tri_det. ring.
Qed.

Lemma flat_run (img_norm : ndarray) :
  well_formed_input img_norm ->
  exists l source,
    detect_hand sample_nms flat_detector img_norm
    = (l, Return (Some source, Some sample_keypoints, Some flat_debug)).
Proof.
  intros Hwf.
  assert (Hp : passes (Fin 1) = true).
  { rewrite passes_positive. apply Rltb_true. lra. }
  rewrite detect_hand_well_formed by exact Hwf.
  cbn [flat_detector BlazePalm_default __init__ interp_palm fst snd].
  rewrite (decode_returns sample_nms _ [flat_row] [Fin 1]
             [(Fin 3 + Fin 0.5 * Fin 256)%np :: (Fin 4 + Fin 0.5 * Fin 256)%np
                :: skipn 2 flat_row] 0 flat_row (Fin 3) (Fin 4) (Fin 0) (Fin 0)
             [Fin 0.5; Fin 0.5] sample_center sample_deltas sample_kp0 sample_kp2);
    cbn [map anchors]; rewrite ?Hp; try reflexivity; try discriminate.
  cbn [fst snd]. eexists _, _. reflexivity.
Qed.

Lemma zero_size_candidate_witness :
  exists l src,
    pred_bbox sample_nms pad_nothing resize_nothing flat_detector grey_frame
    = (l ++ [EvGetAffineTransform src (_target_triangle flat_detector);
             EvLinalgInv singular_Mtr],
       Raise (LinAlgError "Singular matrix")).
Proof.
  destruct (flat_run _ grey_frame_normalised_well_formed) as (l & source & Hrun).
  assert (Hne : (0.5 * 256 + 0, 0.5 * 256 + 0) <> (0.5 * 256 + 0, 0.5 * 256 + 1)).
  { intros E. inversion E. lra. }
  assert (Hzero : Rmax 0 0 = 0) by (unfold Rmax; destruct (Rle_dec 0 0); reflexivity).
  destruct (zero_size_candidate_raises_singular_matrix
              sample_nms pad_nothing resize_nothing _ _ grey_frame _ _ _ _ _ _ _ _
              flat_row _ _ _ _ 0 0
              grey_frame_preprocessed Hrun eq_refl eq_refl eq_refl eq_refl eq_refl
              Hne Hzero) as [_ Hpred].
  eexists _, _. exact Hpred.
Defined.







(** ** Every way [pred_bbox] can end *)

Lemma pred_bbox_Mtr_shape (self : BlazePalm) (source : triangle) (scale : np_float) :
  exists a b c d e f,
    pred_bbox_Mtr self source scale
    = [[a; b; c]; [d; e; f]; [Fin 0; Fin 0; Fin 1]].
Proof.
  unfold pred_bbox_Mtr, cv2_getAffineTransform.
  destruct (scaled_source source scale) as [[[x0 y0] [x1 y1]] [x2 y2]].
  destruct (_target_triangle self) as [[[u0 v0] [u1 v1]] [u2 v2]].
  destruct (forallb np_finite _).
  - destruct (np_is_zero _); eexists _, _, _, _, _, _; reflexivity.
  - destruct (cv_solve _) as [| a [| b [| c [| d [| e [| f [| ? ?]]]]]]];
      eexists _, _, _, _, _, _; reflexivity.
Qed.

Lemma linalg_inv_square (a b c d e f g h i : np_float) :
  linalg_inv [[a; b; c]; [d; e; f]; [g; h; i]] = Raise (LinAlgError "Singular matrix")
  \/ exists Minv, linalg_inv [[a; b; c]; [d; e; f]; [g; h; i]] = Return Minv.
Proof.
  unfold linalg_inv. destruct (np_is_zero _); [left | right; eexists]; reflexivity.
Qed.

(** X15.  The discipline of [pred_bbox]'s effects and failures.  When
    [preprocess_img] raises, [pred_bbox] raises the same exception and
    nothing has been logged.  Otherwise its log starts with that of
    [detect_hand] on the normalised image: an exception of the detection
    is passed on, no hand gives [None] without any matrix call, and a
    hand gives one call of [cv2.getAffineTransform] and one of
    [np.linalg.inv], after which the only possible failure is numpy's
    "Singular matrix". *)
Theorem pred_bbox_effect_discipline
    nms np_pad cv2_resize (self : BlazePalm) (img : ndarray) :
  (exists e,
      preprocess_img np_pad cv2_resize img = ([], Raise e) /\
      pred_bbox nms np_pad cv2_resize self img = ([], Raise e)) \/
  (exists img_pad img_norm pad,
      preprocess_img np_pad cv2_resize img = ([], Return (img_pad, img_norm, pad)) /\
      pred_bbox_outcome self (detect_hand nms self img_norm)
                        (pred_bbox nms np_pad cv2_resize self img)).
Proof.
  destruct (preprocess_img np_pad cv2_resize img) as [silent [[[img_pad img_norm] pad] | e]] eqn:Hpre;
    pose proof (preprocess_img_silent _ _ _ _ _ Hpre) as ->.
  - right. exists img_pad, img_norm, pad. split; [reflexivity |].
    unfold pred_bbox. rewrite Hpre, bind_Return. cbv beta iota.
    destruct (detect_hand nms self img_norm) as [l [[[source kps] dbg] | e]].
    + rewrite bind_Return. cbv beta iota. cbn [app].
      destruct source as [source |].
      * destruct (pred_bbox_Mtr_shape self source (img_scale img))
          as (a & b & c & d & e & f & HM).
        rewrite !bind_emit, HM.
        destruct (linalg_inv_square a b c d e f (Fin 0) (Fin 0) (Fin 1))
          as [Hinv | [Minv Hinv]]; rewrite Hinv.
        -- rewrite bind_lift_Raise. apply singular_matrix.
        -- rewrite bind_lift_Return. apply box_returned.
      * cbn. rewrite app_nil_r. apply no_hand.
    + unfold bind. apply detection_failed.
  - left. exists e. split; [reflexivity |].
    unfold pred_bbox. rewrite Hpre. reflexivity.
Qed.

(** ** Which assertion fails *)

Lemma in_unit_range_split (v : np_float) :
  in_unit_range v = true <-> (Fin (-1) <=? v)%np = true /\ (v <=? Fin 1)%np = true.
Proof. unfold in_unit_range. apply andb_true_iff. Qed.

(** X16.  [detect_hand] asserts the range before the shape.  A tensor
    with a value outside [-1, 1] (a NaN counts as outside) fails with the
    range message whatever its shape; a tensor whose values are all inside
    and whose shape is wrong fails with the shape message.  In both cases
    nothing has been logged. *)
Theorem range_is_asserted_before_shape nms (self : BlazePalm) (img_norm : ndarray) :
  data img_norm <> [] ->
  (Exists (fun v => in_unit_range v = false) (data img_norm) ->
   detect_hand nms self img_norm
   = ([], Raise (AssertionError "img_norm should be in range [-1, 1]"))) /\
  (Forall (fun v => in_unit_range v = true) (data img_norm) ->
   shape img_norm <> [256; 256; 3]%nat ->
   detect_hand nms self img_norm
   = ([], Raise (AssertionError "img_norm shape must be (256, 256, 3)"))) /\
  in_unit_range NaN = false.
Proof.
  intros Hne. split; [| split; [| reflexivity]].
  - intros Hbad. unfold detect_hand, np_min, np_max.
    destruct (data img_norm) as [| x xs] eqn:Ed; [now elim Hne |].
    rewrite bind_lift_Return.
    destruct (Fin (-1) <=? fold_left np_minimum xs x)%np eqn:Hge.
    2:{ rewrite bind_ret. reflexivity. }
    rewrite bind_assoc, bind_lift_Return, bind_ret.
    destruct (fold_left np_maximum xs x <=? Fin 1)%np eqn:Hle; [| reflexivity].
    exfalso. apply fold_minimum_ge in Hge. apply fold_maximum_le in Hle.
    apply Exists_exists in Hbad as (v & Hin & Hv).
    rewrite Forall_forall in Hge, Hle.
    assert (Hok : in_unit_range v = true)
      by (apply in_unit_range_split; split; [apply Hge | apply Hle]; exact Hin).
    congruence.
  - intros Hall Hshape. unfold detect_hand, np_min, np_max.
    destruct (data img_norm) as [| x xs] eqn:Ed; [now elim Hne |].
    rewrite bind_lift_Return.
    assert (Hge : (Fin (-1) <=? fold_left np_minimum xs x)%np = true).
    { apply fold_minimum_ge_all. eapply Forall_impl; [| exact Hall].
      intros v Hv. now apply in_unit_range_split in Hv. }
    assert (Hle : (fold_left np_maximum xs x <=? Fin 1)%np = true).
    { apply fold_maximum_le_all. eapply Forall_impl; [| exact Hall].
      intros v Hv. now apply in_unit_range_split in Hv. }
    rewrite Hge, bind_assoc, bind_lift_Return, bind_ret, Hle.
    unfold py_assert at 1. rewrite bind_ret.
    unfold shape_eqb.
    destruct (list_eq_dec Nat.eq_dec (shape img_norm) [256; 256; 3]%nat)
      as [E | _]; [contradiction | reflexivity].
Qed.

Lemma range_assertion_witness :
  data nan_image <> [] /\
  detect_hand sample_nms sample_detector nan_image
  = ([], Raise (AssertionError "img_norm should be in range [-1, 1]")).
Proof.
  assert (Hd : exists n, data nan_image = NaN :: repeat NaN n).
  { unfold nan_image, np_full; cbn [data fold_right].
    remember (256 * (256 * (3 * 1)))%nat as n eqn:En.
    destruct n as [| n]; [lia |]. exists n. reflexivity. }
  destruct Hd as (n & Hd).
  assert (Hne : data nan_image <> []) by (rewrite Hd; discriminate).
  split; [exact Hne |].
  apply (proj1 (range_is_asserted_before_shape sample_nms sample_detector nan_image Hne)).
  rewrite Hd. apply Exists_cons_hd. reflexivity.
Defined.

(** ** What the suppression routine is handed *)

Lemma compress_map_filter {A B : Type} (f : A -> bool) (g : A -> B) (xs : list A) :
  compress (map f xs) (map g xs) = map g (filter f xs).
Proof.
  induction xs as [| x xs IH]; [reflexivity |].
  simpl. destruct (f x); simpl; now rewrite IH.
Qed.

Lemma passing_probability (x : np_float) :
  passes x = true -> exists r : R, _sigm x = Fin r /\ 0.5 < r <= 1.
Proof.
  intros Hp.
  assert (Hn : is_nan x = false) by (destruct x; [reflexivity .. | discriminate Hp]).
  destruct (sigm_closed_range x Hn) as (r & Er & Hr).
  exists r. split; [exact Er |]. split; [| lra].
  unfold passes, CONFINDENCE_THRESHOLD, np_gt in Hp. rewrite Er in Hp. simpl in Hp.
  now apply Rltb_true in Hp.
Qed.

Lemma decode_log_head nms self out_reg out_clf moved :
  let mask := map passes out_clf in
  length mask = length out_reg ->
  length mask = length (anchors self) ->
  compress mask out_reg <> [] ->
  move_rows (compress mask out_reg) (compress mask (anchors self)) = Return moved ->
  exists tail,
    fst (detect_hand_decode nms self out_reg out_clf)
    = EvNMS (map (firstn 4) moved) (compress mask (map _sigm out_clf)) :: tail.
Proof.
  intros mask L1 L2 Hne Hmv. unfold detect_hand_decode.
  rewrite threshold_mask_passes. fold mask.
  rewrite !mask_index_Return by (try assumption; unfold mask; now rewrite !length_map).
  rewrite !bind_lift_Return.
  destruct (Nat.eqb (length (compress mask out_reg)) 0) eqn:E.
  { apply Nat.eqb_eq, length_zero_iff_nil in E. contradiction. }
  rewrite Hmv, bind_lift_Return, bind_emit. eexists. reflexivity.
Qed.

Lemma decode_log_silent nms self out_reg out_clf e :
  let mask := map passes out_clf in
  move_rows (compress mask out_reg) (compress mask (anchors self)) = Raise e ->
  ~ In (EvPrint "No hands found") (fst (detect_hand_decode nms self out_reg out_clf)) ->
  fst (detect_hand_decode nms self out_reg out_clf) = [].
Proof.
  intros mask Hmv Hnp. revert Hnp. unfold detect_hand_decode.
  rewrite threshold_mask_passes. fold mask.
  destruct (mask_index_cases out_reg mask) as [[L1 ->] | (N1 & L1 & [m1 ->])];
    [| rewrite bind_lift_Raise; reflexivity].
  rewrite bind_lift_Return.
  destruct (mask_index_cases (anchors self) mask) as [[L2 ->] | (N2 & L2 & [m2 ->])];
    [| rewrite bind_lift_Raise; reflexivity].
  rewrite bind_lift_Return.
  rewrite mask_index_Return by (unfold mask; now rewrite !length_map).
  rewrite bind_lift_Return.
  destruct (Nat.eqb (length (compress mask out_reg)) 0).
  - rewrite bind_emit. intros Hnp. exfalso. apply Hnp. left. reflexivity.
  - rewrite Hmv, bind_lift_Raise. reflexivity.
Qed.

(** X17.  What the suppression routine is handed.  Whenever a decoding
    calls it, whether or not the decoding then succeeds: the probabilities
    are the sigmoids of the logits that pass, in the order of the anchors,
    each a number above 0.5 and at most 1 (never NaN); there is at least
    one; there is one box per probability; and a box has at most four
    columns. *)
Theorem suppression_receives_confident_candidates
    nms (self : BlazePalm) (out_reg : array2) (out_clf : array1)
    (boxes : array2) (probs : array1) :
  In (EvNMS boxes probs) (fst (detect_hand_decode nms self out_reg out_clf)) ->
  probs = map _sigm (filter passes out_clf) /\
  probs <> [] /\
  length boxes = length probs /\
  Forall (fun p => exists r : R, p = Fin r /\ 0.5 < r <= 1) probs /\
  Forall (fun b => (length b <= 4)%nat) boxes.
Proof.
  intros Hin.
  pose proof (decode_cases nms self out_reg out_clf) as Hc. cbv zeta in Hc.
  set (mask := map passes out_clf) in *.
  assert (Hshape :
    exists moved,
      length mask = length out_reg /\ compress mask out_reg <> [] /\
      move_rows (compress mask out_reg) (compress mask (anchors self)) = Return moved /\
      boxes = map (firstn 4) moved /\ probs = compress mask (map _sigm out_clf)).
  { destruct Hc as [[_ [msg Hrun]] | [(_ & _ & Hrun) | (L1 & L2 & Hne & Hrun)]].
    - rewrite Hrun in Hin. destruct Hin.
    - rewrite Hrun in Hin. destruct Hin as [E | []]. discriminate E.
    - destruct (move_rows (compress mask out_reg) (compress mask (anchors self)))
        as [moved | e] eqn:Hmv.
      + destruct (decode_log_head nms self out_reg out_clf moved L1 L2 Hne Hmv)
          as (tail & Hhead). fold mask in Hhead.
        exists moved. split; [exact L1 |]. split; [exact Hne |]. split; [reflexivity |].
        destruct Hrun as [[e Hrun] | [(b & p & e & Hrun) | (b & p & k0 & k2 & sd & src & kps & dbg & Hrun)]];
          rewrite Hrun in Hin, Hhead; cbn [fst] in Hin, Hhead.
        * destruct Hin.
        * inversion Hhead; subst. destruct Hin as [E | []]. inversion E; subst. auto.
        * inversion Hhead; subst.
          destruct Hin as [E | [E | []]]; [| discriminate E]. inversion E; subst. auto.
      + assert (Hsil : fst (detect_hand_decode nms self out_reg out_clf) = []).
        { apply (decode_log_silent nms self out_reg out_clf e Hmv).
          destruct Hrun as [[e' Hrun] | [(b & p & e' & Hrun) | (b & p & k0 & k2 & sd & src & kps & dbg & Hrun)]];
            rewrite Hrun; cbn [fst In]; intuition discriminate. }
        rewrite Hsil in Hin. destruct Hin. }
  destruct Hshape as (moved & L1 & Hne & Hmv & -> & ->).
  assert (Eprobs : compress mask (map _sigm out_clf) = map _sigm (filter passes out_clf))
    by apply compress_map_filter.
  assert (Lp : length (compress mask out_reg) = length (compress mask (map _sigm out_clf))).
  { rewrite (compress_length_positions mask out_reg 0 L1).
    rewrite (compress_length_positions mask (map _sigm out_clf) 0);
      [reflexivity | unfold mask; now rewrite !length_map]. }
  apply move_rows_nth in Hmv as [Lm _].
  split; [exact Eprobs |]. split; [| split; [| split]].
  - intros E. rewrite E in Lp. simpl in Lp. apply length_zero_iff_nil in Lp. contradiction.
  - rewrite length_map. congruence.
  - rewrite Eprobs. apply Forall_map. apply Forall_forall. intros x Hx.
    apply filter_In in Hx as [_ Hp]. destruct (passing_probability x Hp) as (r & Er & Hr).
    exists r. auto.
  - apply Forall_map. apply Forall_forall. intros b _.
    rewrite length_firstn. apply Nat.le_min_l.
Qed.

Lemma suppression_input_witness :
  In (EvNMS sample_boxes [_sigm (Fin 1)])
     (fst (detect_hand_decode sample_nms sample_detector [sample_row] [Fin 1])) /\
  Forall (fun p => exists r : R, p = Fin r /\ 0.5 < r <= 1) [_sigm (Fin 1)].
Proof.
  pose proof (sample_run zero_image zero_image_well_formed) as Hrun.
  rewrite (detect_hand_well_formed _ _ _ zero_image_well_formed) in Hrun.
  cbn [sample_detector BlazePalm_default __init__ interp_palm fst snd] in Hrun.
  unfold sample_events in Hrun.
  assert (Hlog : fst (detect_hand_decode sample_nms sample_detector [sample_row] [Fin 1])
                 = [EvNMS sample_boxes [_sigm (Fin 1)];
                    EvGetTriangle sample_kp0 sample_kp2 sample_side]).
  { apply (f_equal fst) in Hrun. cbn [fst] in Hrun.
    apply app_inv_head in Hrun. exact Hrun. }
  assert (Hin : In (EvNMS sample_boxes [_sigm (Fin 1)])
                   (fst (detect_hand_decode sample_nms sample_detector
                           [sample_row] [Fin 1])))
    by (rewrite Hlog; left; reflexivity).
  split; [exact Hin |].
  exact (proj1 (proj2 (proj2 (proj2
           (suppression_receives_confident_candidates
              sample_nms sample_detector [sample_row] [Fin 1] _ _ Hin))))).
Defined.

(** ** The GUI model: what reaches the frame *)

Lemma call_is_pred_bbox nms np_pad cv2_resize (self : BlazePalm) (img : ndarray) :
  __call__ nms np_pad cv2_resize self img = pred_bbox nms np_pad cv2_resize self img.
Proof.
  unfold __call__. destruct (pred_bbox nms np_pad cv2_resize self img) as [l [v | e]];
    unfold bind, ret; [now rewrite app_nil_r | reflexivity].
Qed.

(** A box of [pred_bbox] has four rows of two columns, and the image it
    was found in has three dimensions. *)
Lemma pred_bbox_box_shape
    nms np_pad cv2_resize box_enlarge box_shift interp anchors_csv
    (img : ndarray) l (box : array2) :
  pred_bbox nms np_pad cv2_resize
            (__init__ box_enlarge box_shift interp anchors_csv) img
  = (l, Return (Some box)) ->
  shape2 box = [4; 2]%nat /\ exists h w c, shape img = [h; w; c].
Proof.
  intros H. unfold pred_bbox in H.
  apply bind_return_inv in H as (l1 & [[img_pad img_norm] pad] & l2 & Hpre & H & ->).
  apply bind_return_inv in H as (l3 & [[source kps] dbg] & l4 & Hdet & H & ->).
  destruct source as [source |]; [| inversion H].
  apply bind_emit_inv in H as (l5 & -> & H).
  apply bind_emit_inv in H as (l6 & -> & H).
  step_lift H. rename a into Minv. inversion H; subst box; clear H.
  apply preprocess_img_inv in Hpre as (h & w & c & p0 & p1 & Hs & -> & _).
  apply linalg_inv_shape in E as (a & b & c' & d & e & f & g & h' & i & ->).
  split; [reflexivity | eauto].
Qed.

Lemma box_never_broadcasts (h w c : nat) :
  exists target,
    slice2_shape [h; w; c] 4 2 = Return target /\
    can_broadcast [4; 2]%nat target = false.
Proof.
  eexists. split; [reflexivity |].
  unfold can_broadcast. cbn [rev app broadcast_rev].
  assert (Hw : (Nat.min 2 w <= 2)%nat) by apply Nat.le_min_l.
  destruct (Nat.eqb 4 (Nat.min 2 w)) eqn:E.
  - apply Nat.eqb_eq in E. lia.
  - cbn [Nat.eqb orb andb]. now rewrite andb_false_r.
Qed.

(** X18.  [Model.get_new_annotated_frame] with an estimator that
    requires a detector, for a camera frame whose RGB image has a first
    dimension above zero.  [load_palm_detector] gives [BlazePalm()]
    whatever it is asked for.  When the detector finds no hand, the RGB
    frame is returned as it is; an exception of the detector is passed on;
    and when the detector returns a box, the assignment of the (4, 2) box
    into [frame[:4, :2]] cannot be broadcast over the frame's channels, so
    the call ends in ValueError: a found hand never reaches the frame. *)
Theorem found_hand_never_reaches_the_frame
    nms np_pad cv2_resize interp anchors_csv cv2_cvtColor keypoint_estimator
    np_setitem (PalmDetectorEnum : Type) (asked : PalmDetectorEnum)
    (frame : ndarray) (d0 : nat) :
  let palm_detector := load_palm_detector interp anchors_csv asked in
  let rgb := cv2_cvtColor frame in
  let run := get_new_annotated_frame nms np_pad cv2_resize cv2_cvtColor true
               keypoint_estimator np_setitem palm_detector (true, frame) in
  nth_error (shape rgb) 0 = Some d0 ->
  (0 < d0)%nat ->
  match __call__ nms np_pad cv2_resize palm_detector rgb with
  | (l, Return None) => run = (l, Return rgb)
  | (l, Return (Some box)) =>
      run = (l, Raise (ValueError "could not broadcast input array"))
  | (l, Raise e) => run = (l, Raise e)
  end.
Proof.
  intros palm_detector rgb run Hd0 Hpos.
  assert (Hrun : run = bind (__call__ nms np_pad cv2_resize palm_detector rgb)
                         (fun cropped_frame =>
                            match cropped_frame with
                            | Some box =>
                                bind (lift (slice2_shape (shape rgb)
                                              (length box) (length (hd [] box))))
                                     (fun target =>
                                        if can_broadcast (shape2 box) target
                                        then ret (np_setitem rgb box)
                                        else raise (ValueError
                                                      "could not broadcast input array"))
                            | None => ret rgb
                            end)).
  { unfold run, get_new_annotated_frame. fold rgb.
    unfold py_assert at 1. rewrite bind_ret.
    unfold index. rewrite Hd0, bind_lift_Return.
    apply Nat.ltb_lt in Hpos. rewrite Hpos.
    unfold py_assert. rewrite bind_ret. reflexivity. }
  rewrite Hrun. clear Hrun run.
  destruct (__call__ nms np_pad cv2_resize palm_detector rgb) as [l [[box |] | e]] eqn:Hcall.
  - rewrite call_is_pred_bbox in Hcall.
    apply pred_bbox_box_shape in Hcall as [Hbox (h & w & c & Hs)].
    rewrite bind_Return. cbv beta iota.
    assert (Hl : length box = 4%nat /\ length (hd [] box) = 2%nat)
      by (unfold shape2 in Hbox; inversion Hbox; auto).
    destruct Hl as [-> ->]. rewrite Hs, Hbox.
    destruct (box_never_broadcasts h w c) as (target & -> & Hb).
    rewrite bind_lift_Return, Hb. cbn. now rewrite app_nil_r.
  - rewrite bind_Return. cbn. now rewrite app_nil_r.
  - reflexivity.
Qed.

Lemma found_hand_witness :
  exists l,
    get_new_annotated_frame sample_nms pad_nothing resize_nothing (fun frame => frame)
      true (fun frame => ret frame) (fun frame _ => frame)
      sample_detector (true, grey_frame)
    = (l, Raise (ValueError "could not broadcast input array")).
Proof.
  destruct sample_source_fin as (p & q & r & Hsrc & Htri).
  pose proof (sample_run _ grey_frame_normalised_well_formed) as Hrun.
  rewrite Hsrc in Hrun.
  assert (Hs : INR (list_max (shape grey_frame)) / 256 <> 0)
    by (apply img_scale_nonzero; discriminate).
  destruct (pred_bbox_returns_box sample_nms pad_nothing resize_nothing
              _ _ grey_frame _ _ _ _ _ _ _ p q r _
              grey_frame_preprocessed Hrun (img_scale_fin grey_frame) Hs Htri)
    as (Minv & _ & Hpred).
  rewrite <- call_is_pred_bbox in Hpred.
  assert (Hpos : (0 < 256)%nat) by lia.
  pose proof (found_hand_never_reaches_the_frame
                sample_nms pad_nothing resize_nothing
                (fun _ => ([sample_row], [Fin 1])) [[Fin 0.5; Fin 0.5]]
                (fun frame => frame) (fun frame => ret frame) (fun frame _ => frame)
                unit tt grey_frame 256 eq_refl Hpos) as H.
  cbv zeta in H. unfold load_palm_detector in H.
  rewrite Hpred in H. eexists. exact H.
Defined.

(** ** The demonstration loop: the crop is upright *)







(** * Coinciding keypoints, from the triangle to the entry point *)

(** ** OpenCV's elimination on a triangle with NaN rows *)

Lemma lu_argmax_stays (i k : nat) (vk : np_float) (j : nat) (rows : list lu_row) :
  Forall (fun r => (np_abs (lu_entry r i) >? np_abs vk)%np = false) rows ->
  lu_argmax i k vk j rows = k.
Proof.
  revert j; induction rows as [| r rows IH]; intros j H; [reflexivity |].
  inversion H as [| ? ? Hr Hrs]; subst. cbn [lu_argmax]. rewrite Hr. apply IH. exact Hrs.
Qed.

Lemma lu_forward_no_pivot (n i : nat) (r0 : lu_row) (rest : list lu_row) :
  Forall (fun r => (np_abs (lu_entry r i) >? np_abs (lu_entry r0 i))%np = false) rest ->
  np_lt (np_abs (lu_entry r0 i)) (Fin LU_eps) = true ->
  lu_forward (S n) i (r0 :: rest) = None.
Proof.
  intros Hmax Hpiv. cbn [lu_forward]. rewrite (lu_argmax_stays _ _ _ _ _ Hmax).
  cbn [lu_swap]. rewrite Hpiv. reflexivity.
Qed.

Lemma lu_forward_first_pivot (n i : nat) (r0 : lu_row) (rest : list lu_row) :
  Forall (fun r => (np_abs (lu_entry r i) >? np_abs (lu_entry r0 i))%np = false) rest ->
  np_lt (np_abs (lu_entry r0 i)) (Fin LU_eps) = false ->
  lu_forward (S n) i (r0 :: rest)
  = option_map (cons r0) (lu_forward n (S i) (map (lu_eliminate i r0) rest)).
Proof.
  intros Hmax Hpiv. cbn [lu_forward]. rewrite (lu_argmax_stays _ _ _ _ _ Hmax).
  cbn [lu_swap]. rewrite Hpiv. reflexivity.
Qed.

Lemma LU_eps_pos : 0 < LU_eps.
Proof. unfold LU_eps. lra. Qed.

Lemma abs_not_greater (r a : R) : r = 0 -> (np_abs (Fin r) >? np_abs (Fin a))%np = false.
Proof.
  intros ->. unfold np_gt; cbn. apply Rltb_false. rewrite Rabs_R0.
  pose proof (Rabs_pos a). lra.
Qed.

Lemma abs_below_eps (r : R) : r = 0 -> np_lt (np_abs (Fin r)) (Fin LU_eps) = true.
Proof.
  intros ->. cbn. apply Rltb_true. rewrite Rabs_R0. exact LU_eps_pos.
Qed.

Lemma getAffineTransform_nan_rows (a b : R) (dst : triangle) :
  cv2_getAffineTransform ((Fin a, Fin b), (NaN, NaN), (NaN, NaN)) dst
  = [[Fin 0; Fin 0; Fin 0]; [Fin 0; Fin 0; Fin 0]].
Proof.
  destruct dst as [[[u0 v0] [u1 v1]] [u2 v2]].
  unfold cv2_getAffineTransform. cbn [forallb np_finite andb].
  unfold cv_solve. cbn [length].
  assert (Hmax : Forall (fun r => (np_abs (lu_entry r 0)
                                   >? np_abs (lu_entry ([Fin a; Fin b; Fin 1; Fin 0; Fin 0; Fin 0], u0) 0))%np = false)
                   [([Fin 0; Fin 0; Fin 0; Fin a; Fin b; Fin 1], v0);
                    ([NaN; NaN; Fin 1; Fin 0; Fin 0; Fin 0], u1);
                    ([Fin 0; Fin 0; Fin 0; NaN; NaN; Fin 1], v1);
                    ([NaN; NaN; Fin 1; Fin 0; Fin 0; Fin 0], u2);
                    ([Fin 0; Fin 0; Fin 0; NaN; NaN; Fin 1], v2)]).
  { repeat constructor; unfold lu_entry; cbn [nth fst]; try reflexivity;
      apply abs_not_greater; reflexivity. }
  destruct (np_lt (np_abs (lu_entry ([Fin a; Fin b; Fin 1; Fin 0; Fin 0; Fin 0], u0) 0))
                  (Fin LU_eps)) eqn:Hpiv.
  { rewrite (lu_forward_no_pivot _ _ _ _ Hmax Hpiv). reflexivity. }
  rewrite (lu_forward_first_pivot _ _ _ _ Hmax Hpiv).
  assert (Ha : a <> 0).
  { intros ->. unfold lu_entry in Hpiv. cbn [nth fst] in Hpiv.
    rewrite abs_below_eps in Hpiv by reflexivity. discriminate. }
  cbn [map]. unfold lu_eliminate at 1 2 3 4 5. unfold lu_entry.
  cbn [nth fst snd length seq combine map Nat.ltb Nat.leb].
  rewrite (np_div_fin (-1) a Ha).
  cbn [np_mul np_add].
  rewrite lu_forward_no_pivot; [reflexivity | |].
  - repeat constructor; unfold lu_entry; cbn [nth fst]; try reflexivity;
      apply abs_not_greater; ring.
  - unfold lu_entry; cbn [nth fst]. apply abs_below_eps. ring.
Qed.

Lemma linalg_inv_singular_Mtr :
  linalg_inv singular_Mtr = Raise (LinAlgError "Singular matrix").
Proof.
  unfold linalg_inv, singular_Mtr, det3. cbn [np_sub np_neg np_add np_mul].
  rewrite np_is_zero_fin_zero; [reflexivity | ring].
Qed.

(** [pred_bbox] on a triangle whose second and third points are NaN:
    OpenCV finds no pivot and answers with the zero matrix, and numpy
    cannot invert what [pred_bbox] makes of it. *)
Lemma pred_bbox_nan_triangle nms np_pad cv2_resize (self : BlazePalm)
    (img img_pad img_norm : ndarray) pad silent l kps dbg (x y : R) :
  let source := ((Fin x, Fin y), (NaN, NaN), (NaN, NaN)) in
  preprocess_img np_pad cv2_resize img = (silent, Return (img_pad, img_norm, pad)) ->
  detect_hand nms self img_norm = (l, Return (Some source, kps, dbg)) ->
  pred_bbox nms np_pad cv2_resize self img
  = (l ++ [EvGetAffineTransform (scaled_source source (img_scale img))
                                (_target_triangle self);
           EvLinalgInv singular_Mtr],
     Raise (LinAlgError "Singular matrix")).
Proof.
  intros source Hpre Hdet.
  pose proof (preprocess_img_silent _ _ _ _ _ Hpre) as ->.
  assert (HM : pred_bbox_Mtr self source (img_scale img) = singular_Mtr).
  { unfold pred_bbox_Mtr. rewrite img_scale_fin.
    change (scaled_source source (Fin (INR (list_max (shape img)) / 256)))
      with ((Fin (x * (INR (list_max (shape img)) / 256)),
             Fin (y * (INR (list_max (shape img)) / 256))),
            (NaN, NaN), (NaN, NaN)).
    rewrite getAffineTransform_nan_rows. reflexivity. }
  unfold pred_bbox. rewrite Hpre, bind_Return. cbv beta iota.
  rewrite Hdet, bind_Return. cbv beta iota.
  rewrite !bind_emit, HM, linalg_inv_singular_Mtr, bind_lift_Raise.
  reflexivity.
Qed.

(** C3, as the code has it.  Take any run of a detector with the default
    factors that gets as far as the keypoints of the candidate the
    suppression put first (the hypotheses name the values of the steps
    before), with keypoints 0 (wrist) and 2 (middle-finger base) at one
    finite point.  No degeneracy condition exists at any step:
    [_get_triangle] divides the zero vector by its zero norm and gives NaN
    for the second and third points, [detect_hand] raises nothing and
    returns that triangle as a hand, and [pred_bbox] then ends in numpy's
    generic [LinAlgError], "Singular matrix", after OpenCV answered the
    NaN triangle with the zero matrix. *)
Theorem coinciding_keypoints_give_nan_triangle
    nms np_pad cv2_resize interp anchors_csv
    (img img_pad img_norm : ndarray) pad silent
    moved box_id row dx dy w h anchor center deltas (x y : R) :
  let self := BlazePalm_default interp anchors_csv in
  let out_reg := fst (interp img_norm) in
  let out_clf := snd (interp img_norm) in
  let mask := map passes out_clf in
  let probabilities := compress mask (map _sigm out_clf) in
  let candidate_detect := compress mask out_reg in
  let candidate_anchors := compress mask anchors_csv in
  let keypoints := map (vadd center) deltas in
  let side := (py_max w h * Fin 1.5)%np in
  preprocess_img np_pad cv2_resize img = (silent, Return (img_pad, img_norm, pad)) ->
  well_formed_input img_norm ->
  length mask = length out_reg ->
  length mask = length anchors_csv ->
  candidate_detect <> [] ->
  move_rows candidate_detect candidate_anchors = Return moved ->
  head_id (nms (map (firstn 4) moved) probabilities) = Return box_id ->
  index candidate_detect box_id = Return row ->
  unpack4 row = Return (dx, dy, w, h) ->
  index candidate_anchors box_id = Return anchor ->
  anchor_center anchor = Return center ->
  reshape2 (skipn 4 row) = Return deltas ->
  nth_error keypoints 0 = Some (Fin x, Fin y) ->
  nth_error keypoints 2 = Some (Fin x, Fin y) ->
  let kp := (Fin x, Fin y) in
  let source := (kp, (NaN, NaN), (NaN, NaN)) in
  let decoded :=
    [EvNMS (map (firstn 4) moved) probabilities; EvGetTriangle kp kp side] in
  _get_triangle self kp kp side = source /\
  detect_hand nms self img_norm
  = (inference_events img_norm ++ decoded,
     Return (Some source, Some keypoints,
             Some {| detection_candidates := candidate_detect;
                     anchor_candidates := candidate_anchors;
                     selected_box_id := box_id |})) /\
  pred_bbox nms np_pad cv2_resize self img
  = ((inference_events img_norm ++ decoded)
     ++ [EvGetAffineTransform (scaled_source source (img_scale img))
                              (_target_triangle self);
         EvLinalgInv singular_Mtr],
     Raise (LinAlgError "Singular matrix")).
Proof.
  intros self out_reg out_clf mask probabilities candidate_detect candidate_anchors
         keypoints side Hpre Hwf L1 L2 Hne Hmv Hid Hrow Hun Hanc Hcen Hre Hk0 Hk2
         kp source decoded.
  assert (Htri : _get_triangle self kp kp side = source)
    by (apply get_triangle_degenerate; reflexivity).
  assert (Hdet : detect_hand nms self img_norm
                 = (inference_events img_norm ++ decoded,
                    Return (Some source, Some keypoints,
                            Some {| detection_candidates := candidate_detect;
                                    anchor_candidates := candidate_anchors;
                                    selected_box_id := box_id |}))).
  { rewrite (detect_hand_well_formed nms self img_norm Hwf).
    cbn [self BlazePalm_default __init__ interp_palm].
    fold out_reg out_clf.
    rewrite (decode_returns nms _ out_reg out_clf moved box_id row dx dy w h
               anchor center deltas kp kp);
      try assumption;
      try (unfold index; fold keypoints; first [rewrite Hk0 | rewrite Hk2]; reflexivity).
    cbn [fst snd]. unfold kp.
    rewrite (degenerate_shifted_triangle self x y
               (py_max w h * box_enlarge self)%np eq_refl eq_refl).
    reflexivity. }
  split; [exact Htri |]. split; [exact Hdet |].
  exact (pred_bbox_nan_triangle nms np_pad cv2_resize self img img_pad img_norm pad
           silent _ _ _ x y Hpre Hdet).
Qed.

Lemma coinciding_keypoints_witness :
  exists l,
    detect_hand sample_nms degenerate_detector (_im_normalize grey_frame)
    = (l, Return (Some (degenerate_kp, (NaN, NaN), (NaN, NaN)),
                  Some degenerate_keypoints, Some degenerate_debug)) /\
    exists l',
      pred_bbox sample_nms pad_nothing resize_nothing degenerate_detector grey_frame
      = (l', Raise (LinAlgError "Singular matrix")).
Proof.
  assert (Hp : passes (Fin 1) = true).
  { rewrite passes_positive. apply Rltb_true. lra. }
  pose proof (coinciding_keypoints_give_nan_triangle
              sample_nms pad_nothing resize_nothing
              (fun _ => ([degenerate_row], [Fin 1])) [[Fin 0.5; Fin 0.5]]
              grey_frame grey_frame (_im_normalize grey_frame) [0; 0]%nat []
              [(Fin 0 + Fin 0.5 * Fin 256)%np :: (Fin 0 + Fin 0.5 * Fin 256)%np
                 :: skipn 2 degenerate_row]
              0%nat degenerate_row (Fin 0) (Fin 0) (Fin 2) (Fin 1)
              [Fin 0.5; Fin 0.5] sample_center (repeat (Fin 0, Fin 0) 7)
              (0.5 * 256 + 0) (0.5 * 256 + 0)) as H.
  cbv zeta in H. cbn [fst snd map] in H. rewrite Hp in H. cbn [compress] in H.
  specialize (H grey_frame_preprocessed grey_frame_normalised_well_formed
                eq_refl eq_refl).
  assert (Hne : [degenerate_row] <> []) by discriminate.
  specialize (H Hne eq_refl eq_refl eq_refl eq_refl eq_refl eq_refl eq_refl
                eq_refl eq_refl).
  destruct H as (_ & Hdet & Hpred).
  eexists. split; [exact Hdet |]. eexists. exact Hpred.
Defined.

(** C3, the input that separates the code from the claim: the single
    candidate of [degenerate_detector] has all its keypoints at one point.
    [detect_hand] raises nothing and returns a triangle holding NaN, and
    [pred_bbox] ends in numpy's [LinAlgError]: neither is a distinct
    degeneracy condition. *)
Lemma coinciding_keypoints_returned_not_raised :
  nth_error degenerate_keypoints 0 = Some degenerate_kp /\
  nth_error degenerate_keypoints 2 = Some degenerate_kp /\
  detect_hand sample_nms degenerate_detector (_im_normalize grey_frame)
  = (degenerate_events_on (_im_normalize grey_frame),
     Return (Some (degenerate_kp, (NaN, NaN), (NaN, NaN)),
             Some degenerate_keypoints, Some degenerate_debug)) /\
  ~ raises (detect_hand sample_nms degenerate_detector (_im_normalize grey_frame)) /\
  exists l,
    pred_bbox sample_nms pad_nothing resize_nothing degenerate_detector grey_frame
    = (l, Raise (LinAlgError "Singular matrix")).
Proof.
  pose proof (degenerate_run_on _ grey_frame_normalised_well_formed) as Hrun.
  split; [reflexivity |]. split; [reflexivity |]. split; [exact Hrun |]. split.
  - intros [e He]. rewrite Hrun in He. discriminate He.
  - eexists.
    exact (pred_bbox_nan_triangle sample_nms pad_nothing resize_nothing
             degenerate_detector grey_frame grey_frame (_im_normalize grey_frame)
             [0; 0]%nat [] _ _ _ (0.5 * 256 + 0) (0.5 * 256 + 0)
             grey_frame_preprocessed Hrun).
Qed.
